(** * Star Programmer + Light-Curve Plotter: serial framing, line
      classification and the plot window

    A shallow embedding of the logic of [StarProgrammer_LightCurve_GUI.py]:
    [SerialManager] (list_serial_ports, connect, disconnect, send_line,
    _poll_serial), [PlanetTable.get_planet_rows] and the slots of
    [MainWindow] (on_serial_line, append_data_point, update_plot,
    refresh_ports, toggle_connect and the send actions).  Of the widgets
    the model keeps what the slots read and write: the cell texts of the
    planet table, the blocks of the log, the calls made on the plot and
    the message boxes of the send actions; the Qt signals and the port I/O
    are lists of emitted values.

    Python values are modelled as follows:
    - [str] is a list of Unicode code points ([N]);
    - [bytes] / [bytearray] is a list of [byte];
    - [float] is the kernel's binary64 [PrimFloat.float];
    - [collections.deque(maxlen=n)] is a record of a list and its bound;
    - an exception is the left injection of a sum. *)

From Stdlib Require Import List Bool Arith ZArith NArith Lia.
From Stdlib Require Import Floats Strings.Byte Strings.String DecimalString.
From Stdlib Require Import Sorting.Sorted Sorting.Permutation.
From Equations Require Import Equations.
From Equations.Prop Require Import Logic.
Import ListNotations.

Set Implicit Arguments.
Set Warnings "-inexact-float".

(** ** The Python runtime: str, bytes, codecs, float *)

Module Py.

Local Open Scope N_scope.

Definition str := list N.
Definition bytes := list byte.

(** Literals of the source, written as Rocq strings (ASCII only). *)
Definition b (s : string) : bytes := list_byte_of_string s.
Definition u (s : string) : str := map Byte.to_N (list_byte_of_string s).

Definition LF : byte := x0a.

(** [Py_UNICODE_ISSPACE]: the characters [str.strip()] removes and the
    regex class [\s] accepts (bidirectional type WS, B or S, or category
    Zs). *)
Definition Py_UNICODE_ISSPACE (c : N) : bool :=
  ((0x09 <=? c) && (c <=? 0x0D)) || ((0x1C <=? c) && (c <=? 0x20))
  || (c =? 0x85) || (c =? 0xA0) || (c =? 0x1680)
  || ((0x2000 <=? c) && (c <=? 0x200A))
  || (c =? 0x2028) || (c =? 0x2029) || (c =? 0x202F) || (c =? 0x205F)
  || (c =? 0x3000).

(** [Py_ISSPACE]: the C-locale [isspace] used inside [float()]. *)
Definition Py_ISSPACE (c : N) : bool :=
  (c =? 0x20) || ((0x09 <=? c) && (c <=? 0x0D)).

Fixpoint lstrip (p : N -> bool) (s : str) : str :=
  match s with
  | [] => []
  | c :: s' => if p c then lstrip p s' else s
  end.

Definition rstrip (p : N -> bool) (s : str) : str :=
  rev (lstrip p (rev s)).

(** [s.strip()] *)
Definition strip (s : str) : str :=
  rstrip Py_UNICODE_ISSPACE (lstrip Py_UNICODE_ISSPACE s).

(** *** [bytes.decode("utf-8", errors="replace")]

    CPython's decoder ([stringlib/codecs.h], [utf8_decode]) reads a lead
    byte and looks ahead; on an ill-formed sequence the [replace] handler
    emits U+FFFD for the bytes of the maximal well-formed prefix and
    resumes right after them. *)

Definition REPLACEMENT : N := 0xFFFD.

Definition IS_CONTINUATION_BYTE (ch : N) : bool :=
  (0x80 <=? ch) && (ch <? 0xC0).

Fixpoint decode_utf8_replace (s : bytes) : str :=
  match s with
  | [] => []
  | b0 :: t0 =>
    let ch := Byte.to_N b0 in
    if ch <? 0x80 then ch :: decode_utf8_replace t0
    else if ch <? 0xC2 then
      (* invalid start byte *)
      REPLACEMENT :: decode_utf8_replace t0
    else if ch <? 0xE0 then
      match t0 with
      | [] => [REPLACEMENT]                     (* unexpected end of data *)
      | b1 :: t1 =>
        let ch2 := Byte.to_N b1 in
        if negb (IS_CONTINUATION_BYTE ch2)
        then REPLACEMENT :: decode_utf8_replace t0
        else (ch * 64 + ch2 - (0xC0 * 64 + 0x80)) :: decode_utf8_replace t1
      end
    else if ch <? 0xF0 then
      match t0 with
      | [] => [REPLACEMENT]
      | b1 :: t1 =>
        let ch2 := Byte.to_N b1 in
        if negb (IS_CONTINUATION_BYTE ch2)
           || (if ch2 <? 0xA0 then ch =? 0xE0 else ch =? 0xED)
        then REPLACEMENT :: decode_utf8_replace t0
        else
          match t1 with
          | [] => [REPLACEMENT]
          | b2 :: t2 =>
            let ch3 := Byte.to_N b2 in
            if negb (IS_CONTINUATION_BYTE ch3)
            then REPLACEMENT :: decode_utf8_replace t1
            else (ch * 4096 + ch2 * 64 + ch3
                  - (0xE0 * 4096 + 0x80 * 64 + 0x80))
                 :: decode_utf8_replace t2
          end
      end
    else if ch <? 0xF5 then
      match t0 with
      | [] => [REPLACEMENT]
      | b1 :: t1 =>
        let ch2 := Byte.to_N b1 in
        if negb (IS_CONTINUATION_BYTE ch2)
           || (if ch2 <? 0x90 then ch =? 0xF0 else ch =? 0xF4)
        then REPLACEMENT :: decode_utf8_replace t0
        else
          match t1 with
          | [] => [REPLACEMENT]
          | b2 :: t2 =>
            let ch3 := Byte.to_N b2 in
            if negb (IS_CONTINUATION_BYTE ch3)
            then REPLACEMENT :: decode_utf8_replace t1
            else
              match t2 with
              | [] => [REPLACEMENT]
              | b3 :: t3 =>
                let ch4 := Byte.to_N b3 in
                if negb (IS_CONTINUATION_BYTE ch4)
                then REPLACEMENT :: decode_utf8_replace t2
                else (ch * 262144 + ch2 * 4096 + ch3 * 64 + ch4
                      - (0xF0 * 262144 + 0x80 * 4096 + 0x80 * 64 + 0x80))
                     :: decode_utf8_replace t3
              end
          end
      end
    else REPLACEMENT :: decode_utf8_replace t0
  end.

(** [text.encode("utf-8")] for a code point sequence without surrogates
    (the commands the GUI sends are ASCII).  A scalar value above
    U+10FFFF cannot occur in a Python str. *)
Definition byte_of (n : N) : byte :=
  match Byte.of_N (n mod 256) with Some x => x | None => x00 end.

Definition encode_char (c : N) : bytes :=
  if c <? 0x80 then [byte_of c]
  else if c <? 0x800 then
    [byte_of (0xC0 + c / 64); byte_of (0x80 + c mod 64)]
  else if c <? 0x10000 then
    [byte_of (0xE0 + c / 4096); byte_of (0x80 + (c / 64) mod 64);
     byte_of (0x80 + c mod 64)]
  else
    [byte_of (0xF0 + c / 262144); byte_of (0x80 + (c / 4096) mod 64);
     byte_of (0x80 + (c / 64) mod 64); byte_of (0x80 + c mod 64)].

(** A lone surrogate cannot be encoded: [str.encode] raises
    [UnicodeEncodeError], modelled by [None]. *)
Definition is_surrogate (c : N) : bool := (0xD800 <=? c) && (c <=? 0xDFFF).

Definition encode_utf8 (s : str) : option bytes :=
  if existsb is_surrogate s then None else Some (flat_map encode_char s).

(** *** [float(s)] for a str argument

    [PyFloat_FromString] maps the text to ASCII
    ([_PyUnicode_TransformDecimalAndSpaceToASCII]), removes digit-group
    underscores ([_Py_string_to_number_with_underscores]), strips C
    whitespace and asks [PyOS_string_to_double] to consume the whole rest:
    first as a decimal literal ([_Py_dg_strtod]), then as [inf], [infinity]
    or [nan] ([_Py_parse_inf_or_nan]).  [None] stands for [ValueError]. *)

(** Unicode decimal digits (category Nd, Unicode 14.0): first code point
    of every run of ten, in increasing order. *)
Definition Nd_starts : list N :=
  [0x30; 0x660; 0x6F0; 0x7C0; 0x966; 0x9E6; 0xA66; 0xAE6; 0xB66; 0xBE6;
   0xC66; 0xCE6; 0xD66; 0xDE6; 0xE50; 0xED0; 0xF20; 0x1040; 0x1090;
   0x17E0; 0x1810; 0x1946; 0x19D0; 0x1A80; 0x1A90; 0x1B50; 0x1BB0;
   0x1C40; 0x1C50; 0xA620; 0xA8D0; 0xA900; 0xA9D0; 0xA9F0; 0xAA50;
   0xABF0; 0xFF10; 0x104A0; 0x10D30; 0x11066; 0x110F0; 0x11136; 0x111D0;
   0x112F0; 0x11450; 0x114D0; 0x11650; 0x116C0; 0x11730; 0x118E0;
   0x11950; 0x11C50; 0x11D50; 0x11DA0; 0x16A60; 0x16AC0; 0x16B50;
   0x1D7CE; 0x1D7D8; 0x1D7E2; 0x1D7EC; 0x1D7F6; 0x1E140; 0x1E2F0;
   0x1E950; 0x1FBF0].

Definition Py_UNICODE_TODECIMAL (c : N) : option N :=
  match find (fun s => (s <=? c) && (c <? s + 10)) Nd_starts with
  | Some s => Some (c - s)
  | None => None
  end.

Definition QUESTION : N := 0x3F.
Definition SPACE : N := 0x20.
Definition UNDERSCORE : N := 0x5F.
Definition DOT : N := 0x2E.
Definition PLUS : N := 0x2B.
Definition MINUS : N := 0x2D.
Definition COLON : N := 0x3A.

Fixpoint transform_loop (s : str) : str :=
  match s with
  | [] => []
  | ch :: s' =>
    if ch <? 127 then ch :: transform_loop s'
    else if Py_UNICODE_ISSPACE ch then SPACE :: transform_loop s'
    else match Py_UNICODE_TODECIMAL ch with
         | None => [QUESTION]
         | Some d => (0x30 + d) :: transform_loop s'
         end
  end.

Definition TransformDecimalAndSpaceToASCII (s : str) : str :=
  if forallb (fun c => c <? 128) s then s else transform_loop s.

Definition isdigit (c : N) : bool := (0x30 <=? c) && (c <=? 0x39).

(** Underscores are accepted only between two digits. *)
Fixpoint remove_underscores (prev : N) (s : str) : option str :=
  match s with
  | [] => if prev =? UNDERSCORE then None else Some []
  | p :: s' =>
    if p =? UNDERSCORE then
      if isdigit prev then remove_underscores p s' else None
    else if (prev =? UNDERSCORE) && negb (isdigit p) then None
    else option_map (cons p) (remove_underscores p s')
  end.

(** [span p s]: the longest prefix of [s] satisfying [p], and the rest. *)
Fixpoint span (p : N -> bool) (s : str) : str * str :=
  match s with
  | [] => ([], [])
  | c :: s' =>
    if p c then let (h, t) := span p s' in (c :: h, t) else ([], s)
  end.

(** Value of a run of ASCII digits, most significant first. *)
Definition digits_value (ds : str) : N :=
  fold_left (fun acc c => 10 * acc + (c - 0x30)) ds 0.

(** The binary64 nearest to [(-1)^neg * m * 10^e], ties to even, with
    overflow to an infinity and underflow to a signed zero: the value
    [_Py_dg_strtod] returns for the digits [m] and decimal exponent [e]. *)
Definition round_decimal (neg : bool) (m : N) (e : Z) : float :=
  SF2Prim
    match m with
    | N0 => S754_zero neg
    | Npos pm =>
      match e with
      | Zneg pe =>
        let '(mz, ez, lz) :=
          SFdiv_core_binary prec emax (Zpos pm) 0 (Z.pow_pos 10 pe) 0 in
        binary_round_aux prec emax neg mz ez lz
      | _ =>
        match (Zpos pm * 10 ^ e)%Z with
        | Zpos q => binary_round prec emax neg q 0
        | _ => S754_zero neg
        end
      end
    end.

Definition parse_sign (s : str) : bool * str :=
  match s with
  | c :: s' =>
    if c =? MINUS then (true, s')
    else if c =? PLUS then (false, s') else (false, s)
  | [] => (false, [])
  end.

(** Exponent part: consumed only when at least one digit follows the
    optional sign; otherwise the literal ends before the [e]. *)
Definition parse_exponent (s : str) : Z * str :=
  match s with
  | c :: s' =>
    if (c =? 0x65) || (c =? 0x45) then
      let (esign, s1) := parse_sign s' in
      let (ds, s2) := span isdigit s1 in
      match ds with
      | [] => (0%Z, s)
      | _ => let a := Z.of_N (digits_value ds) in
             ((if esign then - a else a)%Z, s2)
      end
    else (0%Z, s)
  | [] => (0%Z, [])
  end.

(** [_Py_dg_strtod]: the value and the unread rest, or [None] when no
    literal starts the text.  (CPython also refuses literals of more than
    10^9 digits; texts of that size are outside this model.) *)
Definition strtod (s00 : str) : option (float * str) :=
  let (sign, s1) := parse_sign s00 in
  let (ip, s2) := span isdigit s1 in
  let '(fp, s3) :=
    match s2 with
    | c :: s' => if c =? DOT then span isdigit s' else ([], s2)
    | [] => ([], s2)
    end in
  match ip ++ fp with
  | [] => None
  | ds =>
    let (e, s4) := parse_exponent s3 in
    Some (round_decimal sign (digits_value ds)
                        (e - Z.of_nat (List.length fp)), s4)
  end.

(** ASCII [Py_TOLOWER]. *)
Definition Py_TOLOWER (c : N) : N :=
  if (0x41 <=? c) && (c <=? 0x5A) then c + 32 else c.

(** [case_insensitive_match s t]: [t] (lower case) is a prefix of [s] up
    to ASCII case; returns what follows it. *)
Fixpoint case_insensitive_match (s t : str) : option str :=
  match t with
  | [] => Some s
  | x :: t' =>
    match s with
    | c :: s' =>
      if Py_TOLOWER c =? x then case_insensitive_match s' t' else None
    | [] => None
    end
  end.

Definition parse_inf_or_nan (p : str) : option (float * str) :=
  let (negate, s) := parse_sign p in
  match case_insensitive_match s (u "inf") with
  | Some s1 =>
    let v := if negate then neg_infinity else infinity in
    match case_insensitive_match s1 (u "inity") with
    | Some s2 => Some (v, s2)
    | None => Some (v, s1)
    end
  | None =>
    match case_insensitive_match s (u "nan") with
    | Some s1 => Some (nan, s1)
    | None => None
    end
  end.

(** [PyOS_string_to_double(s, &end, NULL)] *)
Definition string_to_double (s : str) : option (float * str) :=
  match strtod s with
  | Some r => Some r
  | None => parse_inf_or_nan s
  end.

Definition float_from_string_inner (s : str) : option float :=
  let s := rstrip Py_ISSPACE (lstrip Py_ISSPACE s) in
  match string_to_double s with
  | Some (x, []) => Some x
  | _ => None
  end.

(** [float(s)] *)
Definition float_of_str (s : str) : option float :=
  let a := TransformDecimalAndSpaceToASCII s in
  if existsb (N.eqb UNDERSCORE) a then
    match remove_underscores 0 a with
    | Some dup => float_from_string_inner dup
    | None => None
    end
  else float_from_string_inner a.

End Py.

(** ** The fragment of [re] the program uses

    A backtracking matcher in continuation style: [accept r s k] tries the
    ways [r] can match a prefix of [s], in the order of Python's engine
    (greedy quantifiers first), and returns the first for which the
    continuation [k] accepts the rest. *)

Module Re.

Import Py.
Local Open Scope N_scope.

Inductive regex : Type :=
| Chr (p : N -> bool)              (* one character of a class *)
| Cat (r1 r2 : regex)              (* r1 r2 *)
| Star (r : regex)                 (* r*, greedy *)
| Opt (r : regex).                 (* (?:r)?, greedy *)

Definition Plus (r : regex) : regex := Cat r (Star r).

(** The repetition loop of [r*]: one more round of [r] first, as long as
    the round consumes something, then the continuation. *)
Definition star_loop {A : Type}
           (round : str -> (str -> option A) -> option A)
           (k : str -> option A) : nat -> str -> option A :=
  fix star (n : nat) (s : str) {struct n} : option A :=
    match n with
    | O => k s
    | S n' =>
      match round s (fun s' => if (List.length s' <? List.length s)%nat
                               then star n' s' else None) with
      | Some x => Some x
      | None => k s
      end
    end.

Fixpoint accept {A : Type} (r : regex) (s : str) (k : str -> option A)
  {struct r} : option A :=
  match r with
  | Chr p =>
    match s with
    | c :: s' => if p c then k s' else None
    | [] => None
    end
  | Cat r1 r2 => accept r1 s (fun s' => accept r2 s' k)
  | Opt r' =>
    match accept r' s k with
    | Some x => Some x
    | None => k s
    end
  | Star r' => star_loop (accept r') k (List.length s) s
  end.

(** [re.match(pre + "(" + grp + ")", s)]: the text of group 1 when the
    pattern matches at the start of [s], [None] otherwise. *)
Definition match_group1 (pre grp : regex) (s : str) : option str :=
  accept pre s (fun s1 =>
    accept grp s1 (fun s2 =>
      Some (firstn (List.length s1 - List.length s2) s1))).

(** A cased ASCII letter under [re.IGNORECASE]: the engine compares the
    lower-cased subject character with the lower-cased literal.  No code
    point outside ASCII lower-cases to [t], [o], [a] or [l], so for these
    letters the test is on the two ASCII cases. *)
Definition lit_ignorecase (lower : N) : regex :=
  Chr (fun c => (c =? lower) || (c =? lower - 32)).

Definition lit (x : N) : regex := Chr (N.eqb x).

(** [\s] on a str pattern *)
Definition whitespace : regex := Chr Py_UNICODE_ISSPACE.

(** [[0-9]] *)
Definition digit : regex := Chr isdigit.

End Re.

(** ** [collections.deque] with a [maxlen] *)

Module Deque.

Record deque (A : Type) : Type := mk { items : list A; maxlen : nat }.

Arguments mk {A} _ _.
Arguments items {A} _.
Arguments maxlen {A} _.

Definition new {A} (n : nat) : deque A := mk [] n.

Definition len {A} (d : deque A) : nat := List.length (items d).

(** [d.append(x)]: add on the right; a full deque then discards its
    leftmost item. *)
Definition append {A} (d : deque A) (x : A) : deque A :=
  let l := items d ++ [x] in
  mk (if (maxlen d <? List.length l)%nat then tl l else l) (maxlen d).

(** [d.popleft()]: [None] stands for [IndexError]. *)
Definition popleft {A} (d : deque A) : option (A * deque A) :=
  match items d with
  | [] => None
  | x :: l => Some (x, mk l (maxlen d))
  end.

Definition clear {A} (d : deque A) : deque A := mk [] (maxlen d).

End Deque.

(** ** class SerialManager *)

Module SerialManager.

Import Py.

(** The [serial.Serial] handle as far as the program looks at it. *)
Record Serial : Type := mkSerial
  { port : str; baudrate : N; is_open : bool }.

Record t : Type := mk
  { _ser : option Serial;
    baud : N;
    _buf : bytes;
    _last_port : option str;
    poll_timer_active : bool }.

(** Qt signals of the class; an emission is recorded in the order it
    happens. *)
Inductive signal : Type :=
| line_received (line : str)
| status_changed (connected : bool) (message : str)
| error_occurred (message : str).

(** What made a send fail: the text could not be encoded, or pyserial
    raised with the given text. *)
Inductive cause : Type :=
| UnicodeEncodeError
| PortError (text : str).

(** Exceptions that leave the class: [RuntimeError("Serial not
    connected")] and [RuntimeError(f"Serial write failed: {e}")]. *)
Inductive exn : Type :=
| RuntimeError_not_connected
| RuntimeError_write_failed (e : cause).

(** What the program does to the link. *)
Inductive io : Type :=
| io_open (port_name : str) (baudrate : N)
| io_close
| io_read (size : N)
| io_write (data : bytes)
| io_flush.

Definition DEFAULT_BAUD : N := 115200.
Definition POLL_INTERVAL_MS : N := 50.

(** [__init__] *)
Definition init (baud : N) : t :=
  mk None baud [] None false.

(** [str(n)] for a non-negative int. *)
Definition str_of_N (n : N) : str :=
  u (DecimalString.NilZero.string_of_uint (N.to_uint n)).

(** [disconnect]: stop the timer, close the port if there is one (an
    exception of [close] is logged and dropped), forget the handle and
    announce it. *)
Definition disconnect (m : t) : t * list signal * list io :=
  (mk None (baud m) (_buf m) (_last_port m) false,
   [status_changed false (u "DISCONNECTED")],
   match _ser m with Some _ => [io_close] | None => [] end).

(** [is_connected] *)
Definition is_connected (m : t) : bool :=
  match _ser m with
  | Some ser => is_open ser
  | None => false
  end.

(** [connect(port_name)].  [opened] is what [serial.Serial(...)] does:
    [None] when the port opens, [Some e] when it raises with text [e]. *)
Definition connect (opened : option str) (port_name : str) (m : t)
  : bool * t * list signal * list io :=
  let '(m0, sig0, io0) := disconnect m in
  match opened with
  | None =>
    (true,
     mk (Some (mkSerial port_name (baud m0) true)) (baud m0) (_buf m0)
        (Some port_name) true,
     sig0 ++ [status_changed true
                (u "Connected: " ++ port_name ++ u " @ "
                   ++ str_of_N (baud m0))],
     io0 ++ [io_open port_name (baud m0)])
  | Some e =>
    (false,
     mk None (baud m0) (_buf m0) (_last_port m0) (poll_timer_active m0),
     sig0 ++ [status_changed false (u "Connection failed: " ++ e)],
     io0 ++ [io_open port_name (baud m0)])
  end.

Definition LF_char : N := 0x0A%N.

Definition endswith_newline (text : str) : bool :=
  match rev text with
  | c :: _ => N.eqb c LF_char
  | [] => false
  end.

(** What [write] followed by [flush] does on the open port. *)
Inductive write_outcome : Type :=
| Written                        (* both return *)
| WriteRaises (e : str)          (* [write] raises with text [e] *)
| FlushRaises (e : str).         (* [write] returns, [flush] raises *)

(** [send_line(text)].  No attribute of the manager is assigned in this
    method. *)
Definition send_line (written : write_outcome) (text : str) (m : t)
  : (exn + unit) * t * list io :=
  if negb (is_connected m) then
    (inl RuntimeError_not_connected, m, [])
  else
    let text := if endswith_newline text then text
                else text ++ [LF_char] in
    match encode_utf8 text with
    | None => (inl (RuntimeError_write_failed UnicodeEncodeError), m, [])
    | Some data =>
      match written with
      | Written => (inr tt, m, [io_write data; io_flush])
      | WriteRaises e =>
        (inl (RuntimeError_write_failed (PortError e)), m, [io_write data])
      | FlushRaises e =>
        (inl (RuntimeError_write_failed (PortError e)), m,
         [io_write data; io_flush])
      end
    end.

(** [bytearray.partition(sep)] for a one-byte separator. *)
Fixpoint partition (sep : byte) (s : bytes) : bytes * bytes * bytes :=
  match s with
  | [] => ([], [], [])
  | c :: s' =>
    if Byte.eqb c sep then ([], [sep], s')
    else let '(h, m, t) := partition sep s' in (c :: h, m, t)
  end.

(** [sep in s] *)
Definition contains (sep : byte) (s : bytes) : bool :=
  existsb (fun c => Byte.eqb c sep) s.

(** The decoded, stripped line; the signal is emitted when it is not
    empty. *)
Definition decoded_line (line : bytes) : str :=
  strip (decode_utf8_replace line).

Definition emit_line (line : bytes) : list str :=
  match decoded_line line with
  | [] => []
  | d => [d]
  end.

(** The [while b"\n" in self._buf] loop of [_poll_serial]: the lines it
    emits, in order, and the buffer it leaves. *)
Equations? drain (buf : bytes) : list str * bytes
  by wf (List.length buf) lt :=
  drain buf with inspect (contains LF buf) := {
    | exist _ true _ =>
      let line := fst (fst (partition LF buf)) in
      let rest := snd (partition LF buf) in
      let r := drain rest in
      (emit_line line ++ fst r, snd r)
    | exist _ false _ => ([], buf) }.
Proof.
  subst rest. clear line drain. revert e. unfold contains.
  induction buf as [|c s IH]; simpl; [discriminate|].
  destruct (Byte.eqb c LF); simpl; [lia|].
  intros e. specialize (IH e).
  destruct (partition LF s) as [[h m] t]. simpl in *. lia.
Qed.

(** The buffer part of [_poll_serial] for the bytes of one read: nothing
    happens on an empty read, otherwise the bytes extend [_buf] and the
    loop runs. *)
Definition feed (buf data : bytes) : list str * bytes :=
  match data with
  | [] => ([], buf)
  | _ => drain (buf ++ data)
  end.

(** What [self._ser.read(8192)] does. *)
Inductive read_outcome : Type :=
| ReadBytes (data : bytes)
| ReadRaises (e : str).

(** [_poll_serial] *)
Definition _poll_serial (rd : read_outcome) (m : t)
  : t * list signal * list io :=
  if negb (is_connected m) then (m, [], [])
  else
    match rd with
    | ReadBytes data =>
      let r := feed (_buf m) data in
      (mk (_ser m) (baud m) (snd r) (_last_port m) (poll_timer_active m),
       map line_received (fst r), [io_read 8192])
    | ReadRaises e =>
      let '(m', sigs, ios) := disconnect m in
      (m', error_occurred (u "Serial error: " ++ e) :: sigs,
       io_read 8192 :: ios)
    end.

(** [needle in hay] for two str. *)
Fixpoint startswith (needle hay : str) : bool :=
  match needle, hay with
  | [], _ => true
  | _ :: _, [] => false
  | x :: needle', y :: hay' => N.eqb x y && startswith needle' hay'
  end.

Fixpoint str_in (needle hay : str) : bool :=
  startswith needle hay
  || match hay with
     | [] => false
     | _ :: hay' => str_in needle hay'
     end.

(** [port_priority] of [list_serial_ports].  [port_name.lower()] is taken
    character by character on ASCII letters: no code point outside ASCII
    lower-cases to a text containing a letter of [acm], [usb] or [com], so
    the three tests see the same occurrences. *)
Definition port_priority (port_name : str) : nat :=
  let port_lower := map Py_TOLOWER port_name in
  if str_in (u "acm") port_lower || str_in (u "usb") port_lower then 0
  else if str_in (u "com") port_lower then 1
  else 2.

(** [a <= b] on str: lexicographic on code points. *)
Fixpoint str_leb (a b : str) : bool :=
  match a, b with
  | [], _ => true
  | _ :: _, [] => false
  | x :: a', y :: b' =>
    if N.ltb x y then true else if N.ltb y x then false else str_leb a' b'
  end.

(** [(port_priority(a), a) <= (port_priority(b), b)] on tuples. *)
Definition key_leb (a b : str) : bool :=
  Nat.ltb (port_priority a) (port_priority b)
  || (Nat.eqb (port_priority a) (port_priority b) && str_leb a b).

(** [names.sort(key=...)]: a stable ascending sort; a name is put in front
    of the first name whose key is not smaller. *)
Fixpoint sort_insert (x : str) (l : list str) : list str :=
  match l with
  | [] => [x]
  | y :: l' => if key_leb x y then x :: l else y :: sort_insert x l'
  end.

Fixpoint sort_names (names : list str) : list str :=
  match names with
  | [] => []
  | x :: names' => sort_insert x (sort_names names')
  end.

(** [list_serial_ports]; [comports] is the list of the device names
    [list_ports.comports()] gives, or [None] when the enumeration
    raises. *)
Definition list_serial_ports (comports : option (list str)) : list str :=
  match comports with
  | Some names => sort_names names
  | None => []
  end.

End SerialManager.

(** ** class PlanetTable *)

Module PlanetTable.

Import Py.

Definition MAX_PLANETS : nat := 5.

(** One table row: [item(r, c)] for the five columns, [None] when the
    cell holds no item, its text otherwise. *)
Record row : Type := mkRow
  { name_item : option str;
    dip_item : option str;
    orbit_item : option str;
    transit_item : option str;
    phase_item : option str }.

(** A validated row: [(name[:11], dip, orbit_s, transit_s, phase_ms)]. *)
Record planet : Type := mkPlanet
  { name : str;
    dip : float;
    orbit_s : float;
    transit_s : float;
    phase_ms : Z }.

(** The exceptions that leave [get_planet_rows]; [row] is [r+1]. *)
Inductive exn : Type :=
| ValueError_invalid_numeric (row : nat)
| ValueError_dip (row : nat)
| ValueError_positive (row : nat)
| ValueError_transit (row : nat)
| OverflowError.

(** __init__: every row has an empty name and the default numbers. *)
Definition default_row : row :=
  mkRow (Some []) (Some (u "0.1")) (Some (u "10.0")) (Some (u "2.0"))
        (Some (u "0")).

Definition init : list row := repeat default_row MAX_PLANETS.

(** [int(x)] for a float: truncation towards zero; [ValueError] on a NaN,
    [OverflowError] on an infinity. *)
Inductive int_result : Type :=
| Int (z : Z)
| IntValueError
| IntOverflowError.

Definition int_of_float (x : float) : int_result :=
  match Prim2SF x with
  | S754_zero _ => Int 0
  | S754_finite s m e =>
    let a := match e with
             | Zneg pe => Z.shiftr (Zpos m) (Zpos pe)
             | _ => (Zpos m * 2 ^ e)%Z
             end in
    Int (if s then - a else a)%Z
  | S754_infinity _ => IntOverflowError
  | S754_nan => IntValueError
  end.

(** [float(self.item(r, c).text())]: [None] for the [AttributeError] of a
    missing item and for the [ValueError] of [float]. *)
Definition cell_float (item : option str) : option float :=
  match item with
  | Some text => float_of_str text
  | None => None
  end.

(** The body of the loop of [get_planet_rows] for row [r]: [inr None]
    when the row is skipped. *)
Definition check_row (r : nat) (rw : row) : exn + option planet :=
  let name := match name_item rw with
              | Some text => strip text
              | None => []
              end in
  match name with
  | [] => inr None
  | _ =>
    match cell_float (dip_item rw), cell_float (orbit_item rw),
          cell_float (transit_item rw), cell_float (phase_item rw) with
    | Some dip, Some orbit_s, Some transit_s, Some phase =>
      match int_of_float phase with
      | IntValueError => inl (ValueError_invalid_numeric (S r))
      | IntOverflowError => inl OverflowError
      | Int phase_ms =>
        if negb ((0.0 <=? dip)%float && (dip <=? 1.0)%float)
        then inl (ValueError_dip (S r))
        else if (orbit_s <=? 0)%float || (transit_s <=? 0)%float
        then inl (ValueError_positive (S r))
        else if (orbit_s <=? transit_s)%float
        then inl (ValueError_transit (S r))
        else inr (Some (mkPlanet (firstn 11 name) dip orbit_s transit_s
                                 phase_ms))
      end
    | _, _, _, _ => inl (ValueError_invalid_numeric (S r))
    end
  end.

(** The loop over the rows from index [r] on. *)
Fixpoint rows_from (r : nat) (table : list row) : exn + list planet :=
  match table with
  | [] => inr []
  | rw :: table' =>
    match check_row r rw with
    | inl e => inl e
    | inr None => rows_from (S r) table'
    | inr (Some p) =>
      match rows_from (S r) table' with
      | inl e => inl e
      | inr ps => inr (p :: ps)
      end
    end
  end.

(** [get_planet_rows]: the rows [0 .. MAX_PLANETS-1] of the table. *)
Definition get_planet_rows (table : list row) : exn + list planet :=
  rows_from 0 (firstn MAX_PLANETS table).

End PlanetTable.

(** ** class MainWindow: the data path *)

Module MainWindow.

Import Py.
Import Deque.

Record t : Type := mk
  { serial : SerialManager.t;
    seconds_window : float;
    x_times : deque float;
    y_vals : deque float;
    t0 : float;
    log : list str }.

Inductive exn : Type :=
| IndexError.                    (* pop from an empty deque *)

(** [__init__]; [clock] is the reading of [time.monotonic()]. *)
Definition init (clock : float) : t :=
  mk (SerialManager.init SerialManager.DEFAULT_BAUD)
     30.0%float (Deque.new 1000) (Deque.new 1000) clock [].

(** [^Total\s*:\s*] under [re.IGNORECASE] *)
Definition TOTAL_PREFIX : Re.regex :=
  Re.Cat (Re.lit_ignorecase 0x74)                       (* T *)
    (Re.Cat (Re.lit_ignorecase 0x6F)                    (* o *)
      (Re.Cat (Re.lit_ignorecase 0x74)                  (* t *)
        (Re.Cat (Re.lit_ignorecase 0x61)                (* a *)
          (Re.Cat (Re.lit_ignorecase 0x6C)              (* l *)
            (Re.Cat (Re.Star Re.whitespace)
              (Re.Cat (Re.lit COLON) (Re.Star Re.whitespace))))))).

(** [[0-9]+(?:\.[0-9]+)?], the body of group 1 *)
Definition TOTAL_NUMBER : Re.regex :=
  Re.Cat (Re.Plus Re.digit)
         (Re.Opt (Re.Cat (Re.lit DOT) (Re.Plus Re.digit))).

(** [total_match.group(1)], or [None] when the pattern does not match. *)
Definition total_match (line : str) : option str :=
  Re.match_group1 TOTAL_PREFIX TOTAL_NUMBER line.

(** The two attempts of [on_serial_line]: the value handed to
    [append_data_point], or [None] when the line goes to the log. *)
Definition line_value (line : str) : option float :=
  match match total_match line with
        | Some g => float_of_str g
        | None => None
        end with
  | Some value => Some value
  | None => float_of_str (strip line)
  end.

(** The [while] loop of [append_data_point] over the items of
    [x_times]. *)
Fixpoint trim_old (cutoff_time : float) (xs : list float) (nx : nat)
         (ys : deque float) : exn + (deque float * deque float) :=
  match xs with
  | [] => inr (Deque.mk [] nx, ys)
  | x0 :: xs' =>
    if (x0 <? cutoff_time)%float then
      match popleft ys with
      | Some (_, ys') => trim_old cutoff_time xs' nx ys'
      | None => inl IndexError
      end
    else inr (Deque.mk xs nx, ys)
  end.

(** [append_data_point(value)]; [clock] is the reading of
    [time.monotonic()]. *)
Definition append_data_point (clock value : float) (w : t) : exn + t :=
  let current_time := (clock - t0 w)%float in
  let xs := append (x_times w) current_time in
  let ys := append (y_vals w) value in
  let cutoff_time := (current_time - seconds_window w)%float in
  match trim_old cutoff_time (items xs) (maxlen xs) ys with
  | inr (xs', ys') =>
    inr (mk (serial w) (seconds_window w) xs' ys' (t0 w) (log w))
  | inl e => inl e
  end.

(** The log is a [QPlainTextEdit] with [setMaximumBlockCount(500)]
    ([_setup_ui]); the field [log] holds the blocks (paragraphs) of its
    document, oldest first, [[]] for the empty document. *)
Definition LOG_MAXIMUM_BLOCK_COUNT : nat := 500.

(** The characters at which inserted plain text starts a new block: LF,
    CR, U+2029 and the frame marks U+FDD0 and U+FDD1. *)
Definition is_block_separator (c : N) : bool :=
  (c =? 0x0A)%N || (c =? 0x0D)%N || (c =? 0x2029)%N
  || (c =? 0xFDD0)%N || (c =? 0xFDD1)%N.

(** The blocks an inserted [text] makes after the characters [current]
    of the block it continues; CR LF separates once. *)
Fixpoint blocks_from (current : str) (text : str) : list str :=
  match text with
  | [] => [current]
  | c :: text' =>
    if (c =? 0x0D)%N then
      match text' with
      | c' :: text'' =>
        if (c' =? 0x0A)%N then current :: blocks_from [] text''
        else current :: blocks_from [] text'
      | [] => current :: blocks_from [] text'
      end
    else if is_block_separator c then current :: blocks_from [] text'
    else blocks_from (current ++ [c]) text'
  end.

(** [log.appendPlainText(text)]: the text starts a new block, unless the
    document is empty (one block without characters); then the document
    keeps its last 500 blocks. *)
Definition appendPlainText (text : str) (blocks : list str) : list str :=
  let document := match blocks with
                  | [] | [[]] => blocks_from [] text
                  | _ => blocks ++ blocks_from [] text
                  end in
  skipn (List.length document - LOG_MAXIMUM_BLOCK_COUNT) document.

(** [on_serial_line(line)] *)
Definition on_serial_line (clock : float) (line : str) (w : t) : exn + t :=
  match line_value line with
  | Some value => append_data_point clock value w
  | None =>
    inr (mk (serial w) (seconds_window w) (x_times w) (y_vals w) (t0 w)
            (appendPlainText line (log w)))
  end.

(** [set_window_seconds(seconds)] *)
Definition set_window_seconds (seconds : float) (w : t) : t :=
  mk (serial w) seconds (x_times w) (y_vals w) (t0 w) (log w).

Definition str_eqb (a b : str) : bool :=
  if list_eq_dec N.eq_dec a b then true else false.

(** [toggle_connect]; [port_text] is the text of the port combo box,
    [clock] the reading of [time.monotonic()] taken after a successful
    connect.  The exception of the [HELP] greeting is swallowed. *)
Definition toggle_connect (clock : float) (port_text : str)
           (opened : option str) (written : SerialManager.write_outcome)
           (w : t)
  : t * list SerialManager.signal * list SerialManager.io :=
  if SerialManager.is_connected (serial w) then
    let '(m, sigs, ios) := SerialManager.disconnect (serial w) in
    (mk m (seconds_window w) (x_times w) (y_vals w) (t0 w) (log w),
     sigs, ios)
  else
    let port := strip port_text in
    if match port with [] => true | _ => false end
       || str_eqb port (u "(no ports found)")
    then (w, [], [])
    else
      let '(ok, m, sigs, ios) :=
        SerialManager.connect opened port (serial w) in
      if ok then
        let '(_, m', ios') :=
          SerialManager.send_line written (u "HELP") m in
        (mk m' (seconds_window w) (clear (x_times w)) (clear (y_vals w))
            clock [],
         sigs, ios ++ ios')
      else
        (mk m (seconds_window w) (x_times w) (y_vals w) (t0 w) (log w),
         sigs, ios).

(** [str(z)] for an int. *)
Definition str_of_Z (z : Z) : str :=
  match z with
  | Zneg pz => MINUS :: SerialManager.str_of_N (Npos pz)
  | _ => SerialManager.str_of_N (Z.to_N z)
  end.

(** The six digits after the point. *)
Definition pad6 (n : N) : str :=
  let ds := SerialManager.str_of_N n in
  repeat 0x30%N (6 - List.length ds) ++ ds.

(** The integer nearest to [m * 2^e], ties to even. *)
Definition round_half_even (m : positive) (e : Z) : N :=
  match e with
  | Zneg pe =>
    let den := Z.pow_pos 2 pe in
    let q := (Zpos m / den)%Z in
    let r2 := (2 * (Zpos m mod den))%Z in
    Z.to_N (if (r2 <? den)%Z then q
            else if (den <? r2)%Z then q + 1
            else if Z.even q then q else q + 1)%Z
  | _ => Z.to_N (Zpos m * 2 ^ e)
  end.

(** [f"{x:.6f}"]: the decimal with six digits after the point nearest to
    the exact value of [x], ties to even. *)
Definition format_f6 (x : float) : str :=
  match Prim2SF x with
  | S754_nan => u "nan"
  | S754_infinity s => if s then u "-inf" else u "inf"
  | S754_zero s => (if s then [MINUS] else []) ++ u "0.000000"
  | S754_finite s m e =>
    let scaled := round_half_even (m * 1000000) e in
    (if s then [MINUS] else [])
      ++ SerialManager.str_of_N (scaled / 1000000) ++ [DOT]
      ++ pad6 (scaled mod 1000000)
  end.

Definition COMMA : N := 0x2C%N.

(** The command line of one planet in [send_planets]; [None] when
    [int(orbit_s * 1000.0)] or [int(transit_s * 1000.0)] raises. *)
Definition planet_command (p : PlanetTable.planet) : option str :=
  match PlanetTable.int_of_float (PlanetTable.orbit_s p * 1000.0)%float,
        PlanetTable.int_of_float (PlanetTable.transit_s p * 1000.0)%float
  with
  | PlanetTable.Int orbit_ms, PlanetTable.Int transit_ms =>
    Some (PlanetTable.name p ++ [COMMA]
            ++ format_f6 (PlanetTable.dip p) ++ [COMMA]
            ++ str_of_Z orbit_ms ++ [COMMA]
            ++ str_of_Z transit_ms ++ [COMMA]
            ++ str_of_Z (PlanetTable.phase_ms p))
  | _, _ => None
  end.

(** The message boxes the send actions open. *)
Inductive dialog : Type :=
| Warning_not_connected
| Critical_input_error (e : PlanetTable.exn)
| Critical_send_error
| Information_no_planets
| Information_success (n : nat)
| Information_saved
| Information_loaded.

(** How a slot ends: it returns after the dialogs it showed, or an
    exception leaves it. *)
Inductive outcome : Type :=
| Returned (dialogs : list dialog)
| Unhandled (e : PlanetTable.exn).

(** The [for] loop of [send_planets]; the [k]-th [send_line] of the call
    meets the port behaviour [wr k].  [false] when an exception ended the
    loop. *)
Fixpoint send_each (wr : nat -> SerialManager.write_outcome) (k : nat)
         (planets : list PlanetTable.planet) (m : SerialManager.t)
  : bool * list SerialManager.io :=
  match planets with
  | [] => (true, [])
  | p :: planets' =>
    match planet_command p with
    | None => (false, [])
    | Some command =>
      match SerialManager.send_line (wr k) command m with
      | (inl _, _, ios) => (false, ios)
      | (inr _, _, ios) =>
        let (ok, ios') := send_each wr (S k) planets' m in
        (ok, ios ++ ios')
      end
    end
  end.

(** [send_planets] *)
Definition send_planets (table : list PlanetTable.row)
           (wr : nat -> SerialManager.write_outcome) (m : SerialManager.t)
  : outcome * list SerialManager.io :=
  if negb (SerialManager.is_connected m)
  then (Returned [Warning_not_connected], [])
  else
    match PlanetTable.get_planet_rows table with
    | inl PlanetTable.OverflowError =>
      (Unhandled PlanetTable.OverflowError, [])
    | inl e => (Returned [Critical_input_error e], [])
    | inr [] => (Returned [Information_no_planets], [])
    | inr planets =>
      let count := Nat.min (List.length planets) PlanetTable.MAX_PLANETS in
      match SerialManager.send_line (wr O)
              (u "SETNUM:" ++ SerialManager.str_of_N (N.of_nat count)) m with
      | (inl _, _, ios) => (Returned [Critical_send_error], ios)
      | (inr _, _, ios) =>
        let (ok, ios') :=
          send_each wr 1 (firstn PlanetTable.MAX_PLANETS planets) m in
        (Returned [if ok then Information_success (List.length planets)
                   else Critical_send_error],
         ios ++ ios')
      end
    end.

(** [send_planet_count] *)
Definition send_planet_count (table : list PlanetTable.row)
           (wr : SerialManager.write_outcome) (m : SerialManager.t)
  : outcome * list SerialManager.io :=
  if negb (SerialManager.is_connected m)
  then (Returned [Warning_not_connected], [])
  else
    match PlanetTable.get_planet_rows table with
    | inl PlanetTable.OverflowError => (Returned [Critical_send_error], [])
    | inl e => (Returned [Critical_input_error e], [])
    | inr planets =>
      let count := Nat.min (List.length planets) PlanetTable.MAX_PLANETS in
      match SerialManager.send_line wr
              (u "SETNUM:" ++ SerialManager.str_of_N (N.of_nat count)) m with
      | (inl _, _, ios) => (Returned [Critical_send_error], ios)
      | (inr _, _, ios) => (Returned [], ios)
      end
    end.

(** [send_star_config]; the color components and the brightness come from
    the widgets. *)
Definition send_star_config (red green blue brightness : N)
           (wr : SerialManager.write_outcome) (m : SerialManager.t)
  : outcome * list SerialManager.io :=
  if negb (SerialManager.is_connected m)
  then (Returned [Warning_not_connected], [])
  else
    let command :=
      u "SETSTAR:" ++ SerialManager.str_of_N red ++ [COMMA]
        ++ SerialManager.str_of_N green ++ [COMMA]
        ++ SerialManager.str_of_N blue ++ [COMMA]
        ++ SerialManager.str_of_N brightness in
    match SerialManager.send_line wr command m with
    | (inl _, _, ios) => (Returned [Critical_send_error], ios)
    | (inr _, _, ios) => (Returned [], ios)
    end.

(** [_send_command] *)
Definition _send_command (command : str)
           (wr : SerialManager.write_outcome) (m : SerialManager.t)
  : outcome * list SerialManager.io :=
  if negb (SerialManager.is_connected m)
  then (Returned [Warning_not_connected], [])
  else
    match SerialManager.send_line wr command m with
    | (inl _, _, ios) => (Returned [Critical_send_error], ios)
    | (inr _, _, ios) =>
      (Returned (if str_eqb command (u "SAVE") then [Information_saved]
                 else if str_eqb command (u "LOAD") then [Information_loaded]
                 else []),
       ios)
    end.

(** [refresh_ports]: the items of the port combo box after the call; the
    current item is the first one. *)
Definition refresh_ports (comports : option (list str)) : list str :=
  match SerialManager.list_serial_ports comports with
  | [] => [u "(no ports found)"]
  | ports => ports
  end.

(** Python's [min(a, b)] and [max(a, b)]: the second argument replaces
    the first only when it is strictly smaller (larger). *)
Definition min2 (a b : float) : float := if (b <? a)%float then b else a.
Definition max2 (a b : float) : float := if (a <? b)%float then b else a.

(** [min(ys)] and [max(ys)] for a list with first item [y0]. *)
Definition min_list (y0 : float) (ys : list float) : float :=
  fold_left min2 ys y0.
Definition max_list (y0 : float) (ys : list float) : float :=
  fold_left max2 ys y0.

(** The calls [update_plot] makes on the line and the canvas. *)
Inductive plot_call : Type :=
| set_data (xs ys : list float)
| set_xlim (left right : float)
| set_ylim (bottom top : float)
| draw_idle.

(** [set_xlim] and [set_ylim] raise
    [ValueError("Axis limits cannot be NaN or Inf")] on a limit that is not
    finite. *)
Inductive plot_exn : Type :=
| ValueError_axis_limits.

Definition valid_limits (a b : float) : bool :=
  is_finite a && is_finite b.

(** [update_plot]: the calls that returned, in order, and the exception
    that ended it, if any.  Nothing catches the [ValueError] of a limit
    that is not finite: the calls after it are not made. *)
Definition update_plot (w : t) : list plot_call * option plot_exn :=
  match items (x_times w) with
  | [] => ([], None)
  | x0 :: xs' =>
    let xs := x0 :: xs' in
    let ys := items (y_vals w) in
    let latest_time := last xs x0 in
    let x_min := max2 0.0%float (latest_time - seconds_window w)%float in
    let x_max := max2 (x_min + 1.0)%float latest_time in
    if negb (valid_limits x_min x_max)
    then ([set_data xs ys], Some ValueError_axis_limits)
    else
      match ys with
      | [] => ([set_data xs ys; set_xlim x_min x_max; draw_idle], None)
      | y0 :: ys' =>
        let y_min := min2 0%float (min_list y0 ys' - 10)%float in
        let y_max := max2 260%float (max_list y0 ys' + 10)%float in
        if negb (valid_limits y_min y_max)
        then ([set_data xs ys; set_xlim x_min x_max],
              Some ValueError_axis_limits)
        else ([set_data xs ys; set_xlim x_min x_max; set_ylim y_min y_max;
               draw_idle], None)
      end
  end.

End MainWindow.

(** ** The vocabulary of the specification *)

Module Spec.

Import Py.

(** *** ByteFramer *)

(** Successive [feed] calls, one per chunk: all lines in order, and the
    final buffer. *)
Fixpoint feed_chunks (buf : bytes) (chunks : list bytes)
  : list str * bytes :=
  match chunks with
  | [] => ([], buf)
  | c :: cs =>
    let r := SerialManager.feed buf c in
    let r' := feed_chunks (snd r) cs in
    (fst r ++ fst r', snd r')
  end.

(** The newline-terminated runs of a byte sequence (terminator removed)
    and the unterminated run that follows the last newline. *)
Fixpoint split_LF (s : bytes) : list bytes * bytes :=
  match s with
  | [] => ([], [])
  | c :: s' =>
    let (ls, tail) := split_LF s' in
    if Byte.eqb c LF then ([] :: ls, tail)
    else match ls with
         | [] => ([], c :: tail)
         | l :: ls' => ((c :: l) :: ls', tail)
         end
  end.

(** *** LineClassifier *)

Inductive ClassifiedEvent : Type :=
| Sample (value timestamp : float)
| LogLine (text : str).

(** [classify(text, nowSeconds)]: what [on_serial_line] does with a line,
    seen as a value. *)
Definition classify (text : str) (nowSeconds : float) : ClassifiedEvent :=
  match MainWindow.line_value text with
  | Some value => Sample value nowSeconds
  | None => LogLine text
  end.

Definition all_digits (ds : str) : bool := forallb isdigit ds.
Definition all_space (ws : str) : bool := forallb Py_UNICODE_ISSPACE ws.

(** The five letters of [Total] in any mix of ASCII cases. *)
Definition is_total_word (w : str) : bool :=
  MainWindow.str_eqb (map Py_TOLOWER w) (u "total").

(** The text does not go on with a digit. *)
Definition no_digit_ahead (rest : str) : bool :=
  match rest with
  | c :: _ => negb (isdigit c)
  | [] => true
  end.

(** The text does not go on with a fraction ([.] and a digit). *)
Definition no_fraction_ahead (rest : str) : bool :=
  match rest with
  | c :: d :: _ => negb ((c =? DOT)%N && isdigit d)
  | _ => true
  end.

(** The text of a decimal literal: integer digits, then a point and the
    fraction digits when there are any. *)
Definition number_text (ip fp : str) : str :=
  ip ++ match fp with [] => [] | _ => DOT :: fp end.

(** What follows the literal does not continue it: no digit, and after
    a literal without fraction no point followed by a digit. *)
Definition number_ends (fp rest : str) : bool :=
  no_digit_ahead rest
  && match fp with [] => no_fraction_ahead rest | _ => true end.

(** An optional sign: none, [+] or [-]. *)
Definition sign_text (sg : option bool) : str :=
  match sg with
  | None => []
  | Some false => [PLUS]
  | Some true => [MINUS]
  end.

Definition is_minus (sg : option bool) : bool :=
  match sg with Some true => true | _ => false end.

(** The characters a text accepted by [float()] can start with, blanks
    apart: a digit, a sign, a point, or the first letter of [inf] or
    [nan] in either case. *)
Definition may_start_float (c : N) : bool :=
  isdigit c || (c =? PLUS)%N || (c =? MINUS)%N || (c =? DOT)%N
  || (Py_TOLOWER c =? 0x69)%N || (Py_TOLOWER c =? 0x6E)%N.

(** The characters of a signed decimal literal. *)
Definition literal_char (c : N) : bool :=
  isdigit c || (c =? DOT)%N || (c =? PLUS)%N || (c =? MINUS)%N.

(** The binary64 value of the unsigned or signed decimal literal with
    integer digits [ip] and fraction digits [fp]. *)
Definition decimal_value (neg : bool) (ip fp : str) : float :=
  round_decimal neg (digits_value (ip ++ fp))
                (- Z.of_nat (List.length fp)).

(** A finite decimal number, signed or unsigned, with an optional
    fraction: [[+-]?[0-9]+(\.[0-9]+)?]. *)
Definition is_plain_decimal (s : str) : bool :=
  let (_, s1) := parse_sign s in
  let (ip, s2) := span isdigit s1 in
  match ip, s2 with
  | [], _ => false
  | _, [] => true
  | _, c :: fp =>
    (c =? DOT)%N && all_digits fp
    && match fp with [] => false | _ => true end
  end.

(** The [Total] form: the word in any letter case, blanks, a colon,
    blanks, an unsigned decimal, then any text. *)
Definition total_form (line : str) : Prop :=
  exists word ws1 ws2 ip fp rest,
    line = word ++ ws1 ++ COLON :: ws2 ++ number_text ip fp ++ rest
    /\ is_total_word word = true
    /\ all_space ws1 = true /\ all_space ws2 = true
    /\ ip <> [] /\ all_digits ip = true /\ all_digits fp = true.

(** *** SampleWindow *)

Definition timestamps (w : MainWindow.t) : list float :=
  Deque.items (MainWindow.x_times w).

Definition values (w : MainWindow.t) : list float :=
  Deque.items (MainWindow.y_vals w).

(** The window's two sequences have the same length and fit the cap. *)
Definition paired (w : MainWindow.t) : Prop :=
  List.length (timestamps w) = List.length (values w)
  /\ Deque.maxlen (MainWindow.x_times w) = Deque.maxlen (MainWindow.y_vals w).

(** [append(sample)]: the two [deque.append] calls of
    [append_data_point]. *)
Definition append (t v : float) (w : MainWindow.t) : MainWindow.t :=
  MainWindow.mk (MainWindow.serial w) (MainWindow.seconds_window w)
    (Deque.append (MainWindow.x_times w) t)
    (Deque.append (MainWindow.y_vals w) v)
    (MainWindow.t0 w) (MainWindow.log w).

(** Timestamp of the most recently appended sample. *)
Definition latest (w : MainWindow.t) : option float :=
  match rev (timestamps w) with
  | t :: _ => Some t
  | [] => None
  end.

(** The trimming loop of [append_data_point] run for a given cutoff. *)
Definition trim (cutoff : float) (w : MainWindow.t)
  : MainWindow.exn + MainWindow.t :=
  match MainWindow.trim_old cutoff (timestamps w)
          (Deque.maxlen (MainWindow.x_times w)) (MainWindow.y_vals w) with
  | inr (xs, ys) =>
    inr (MainWindow.mk (MainWindow.serial w) (MainWindow.seconds_window w)
           xs ys (MainWindow.t0 w) (MainWindow.log w))
  | inl e => inl e
  end.

(** [evict(retentionSeconds)]: the trimming loop with the cutoff taken
    from the latest timestamp; nothing to do on an empty window. *)
Definition evict (retentionSeconds : float) (w : MainWindow.t)
  : MainWindow.exn + MainWindow.t :=
  match latest w with
  | Some t => trim (t - retentionSeconds)%float w
  | None => inr w
  end.

(** Non-decreasing timestamps. *)
Fixpoint nondecreasing (ts : list float) : Prop :=
  match ts with
  | [] => True
  | t :: ts' =>
    match ts' with
    | [] => True
    | t' :: _ => (t <=? t')%float = true
    end /\ nondecreasing ts'
  end.

(** Number of leading timestamps strictly below the cutoff. *)
Fixpoint expired (cutoff : float) (ts : list float) : nat :=
  match ts with
  | t :: ts' => if (t <? cutoff)%float then S (expired cutoff ts') else O
  | [] => O
  end.

(** The samples as (timestamp, value) pairs. *)
Definition samples (w : MainWindow.t) : list (float * float) :=
  combine (timestamps w) (values w).

(** What can happen to the window between two looks at it. *)
Inductive action : Type :=
| SerialLine (clock : float) (line : str)
| SetWindowSeconds (seconds : float)
| ToggleConnect (clock : float) (port_text : str) (opened : option str)
                (written : SerialManager.write_outcome)
| Poll (rd : SerialManager.read_outcome).

Definition step (a : action) (w : MainWindow.t)
  : MainWindow.exn + MainWindow.t :=
  match a with
  | SerialLine clock line => MainWindow.on_serial_line clock line w
  | SetWindowSeconds seconds =>
    inr (MainWindow.set_window_seconds seconds w)
  | ToggleConnect clock port_text opened written =>
    inr (fst (fst (MainWindow.toggle_connect clock port_text opened
                                             written w)))
  | Poll rd =>
    inr (MainWindow.mk
           (fst (fst (SerialManager._poll_serial rd (MainWindow.serial w))))
           (MainWindow.seconds_window w) (MainWindow.x_times w)
           (MainWindow.y_vals w) (MainWindow.t0 w) (MainWindow.log w))
  end.

Fixpoint run (actions : list action) (w : MainWindow.t)
  : MainWindow.exn + MainWindow.t :=
  match actions with
  | [] => inr w
  | a :: rest =>
    match step a w with
    | inr w' => run rest w'
    | inl e => inl e
    end
  end.

(** The states the window can be in: those some sequence of actions
    reaches from [__init__]. *)
Definition reachable (w : MainWindow.t) : Prop :=
  exists (actions : list action) (clock0 : float),
    run actions (MainWindow.init clock0) = inr w.

(** The invariant of the window: two sequences of one length under one
    bound of 1000. *)
Definition window_inv (w : MainWindow.t) : Prop :=
  paired w
  /\ (Deque.len (MainWindow.x_times w)
      <= Deque.maxlen (MainWindow.x_times w))%nat
  /\ Deque.maxlen (MainWindow.x_times w) = 1000%nat.

(** [Connected] / [Disconnected] *)
Definition Connected (m : SerialManager.t) : Prop :=
  SerialManager.is_connected m = true.
Definition Disconnected (m : SerialManager.t) : Prop :=
  SerialManager.is_connected m = false.

(** The order of the sort keys of [list_serial_ports]. *)
Definition key_le (a b : str) : Prop := SerialManager.key_leb a b = true.

(** A manager connected to [/dev/ttyACM0], for the examples. *)
Definition connected_manager : SerialManager.t :=
  snd (fst (fst (SerialManager.connect None (u "/dev/ttyACM0")
                   (SerialManager.init SerialManager.DEFAULT_BAUD)))).

(** *** The log *)

(** The blocks of the log document: an empty document is one block
    without characters. *)
Definition document (blocks : list str) : list str :=
  match blocks with
  | [[]] => []
  | _ => blocks
  end.

(** The last [n] items. *)
Definition keep_last {A : Type} (n : nat) (l : list A) : list A :=
  skipn (List.length l - n) l.

(** A text that stays in one block. *)
Definition one_block (text : str) : Prop :=
  forallb (fun c => negb (MainWindow.is_block_separator c)) text = true.

(** *** Commands on the wire *)

(** The byte strings handed to the port's [write], in order. *)
Definition writes (ios : list SerialManager.io) : list bytes :=
  flat_map (fun a => match a with
                     | SerialManager.io_write data => [data]
                     | _ => []
                     end) ios.

(** One command as one line: its UTF-8 bytes and a single LF; [None] when
    the text cannot be encoded. *)
Definition wire_line (command : str) : option bytes :=
  encode_utf8 (command ++ [SerialManager.LF_char]).

(** The [SETNUM] command announcing [n] planets. *)
Definition setnum (n : nat) : str :=
  u "SETNUM:" ++ SerialManager.str_of_N (N.of_nat n).

(** What the checks of [get_planet_rows] establish for one row. *)
Definition row_checked (p : PlanetTable.planet) : Prop :=
  PlanetTable.name p <> []
  /\ (List.length (PlanetTable.name p) <= 11)%nat
  /\ (0 <=? PlanetTable.dip p)%float = true
  /\ (PlanetTable.dip p <=? 1)%float = true
  /\ (PlanetTable.orbit_s p <=? 0)%float = false
  /\ (PlanetTable.transit_s p <=? 0)%float = false
  /\ (PlanetTable.orbit_s p <=? PlanetTable.transit_s p)%float = false.

(** [P] holds of every number below [k]. *)
Definition all_below (P : N -> bool) (k : N) : bool :=
  snd (N.iter k (fun st => (N.succ (fst st), snd st && P (fst st))%bool)
              (0%N, true)).

(** Six digits. *)
Definition dip_fraction_ok (n : N) : bool :=
  (List.length (MainWindow.pad6 n) =? 6)%nat
  && forallb isdigit (MainWindow.pad6 n).

(** A table row with the given cell texts. *)
Definition table_row (name dip orbit transit phase : string)
  : PlanetTable.row :=
  PlanetTable.mkRow (Some (u name)) (Some (u dip)) (Some (u orbit))
                    (Some (u transit)) (Some (u phase)).

End Spec.

(** * Proofs *)

(** ** ByteFramer: the loop of [_poll_serial] *)

Section Framer.

Import Py SerialManager Spec.

Lemma drain_eq (buf : bytes) :
  drain buf =
  if contains LF buf then
    (emit_line (fst (fst (partition LF buf)))
       ++ fst (drain (snd (partition LF buf))),
     snd (drain (snd (partition LF buf))))
  else ([], buf).
Proof.
  rewrite drain_equation_1.
  destruct (inspect (contains LF buf)) as [[] e]; simpl; rewrite e;
    reflexivity.
Qed.

Lemma partition_rest_length (s : bytes) :
  contains LF s = true ->
  (List.length (snd (partition LF s)) < List.length s)%nat.
Proof.
  unfold contains. induction s as [|c s IH]; simpl; [discriminate|].
  destruct (Byte.eqb c LF); simpl; [lia|].
  intros e. specialize (IH e).
  destruct (partition LF s) as [[h m] t]. simpl in *. lia.
Qed.

Lemma split_LF_found (s : bytes) :
  contains LF s = true ->
  split_LF s =
  (fst (fst (partition LF s)) :: fst (split_LF (snd (partition LF s))),
   snd (split_LF (snd (partition LF s)))).
Proof.
  unfold contains. induction s as [|c s IH]; simpl; [discriminate|].
  destruct (Byte.eqb c LF); simpl.
  - intros _. destruct (split_LF s); reflexivity.
  - intros e. rewrite (IH e).
    destruct (partition LF s) as [[h m] t]. reflexivity.
Qed.

Lemma split_LF_none (s : bytes) :
  contains LF s = false -> split_LF s = ([], s).
Proof.
  unfold contains. induction s as [|c s IH]; simpl; [reflexivity|].
  destruct (Byte.eqb c LF); simpl; [discriminate|].
  intros e. rewrite (IH e). reflexivity.
Qed.

(** The loop emits the terminated runs and keeps the unterminated one. *)
Lemma drain_split_LF (s : bytes) :
  drain s = (flat_map emit_line (fst (split_LF s)), snd (split_LF s)).
Proof.
  remember (List.length s) as n eqn:Hn.
  revert s Hn. induction n as [n IH] using lt_wf_ind. intros s Hn.
  rewrite drain_eq. destruct (contains LF s) eqn:E.
  - rewrite (split_LF_found s E). simpl.
    pose proof (partition_rest_length s E) as Hlt.
    rewrite (IH _ (eq_ind_r (fun k => (_ < k)%nat) Hlt Hn) _ eq_refl).
    reflexivity.
  - rewrite (split_LF_none s E). reflexivity.
Qed.

Lemma split_LF_app (x y : bytes) :
  split_LF (x ++ y) =
  (fst (split_LF x) ++ fst (split_LF (snd (split_LF x) ++ y)),
   snd (split_LF (snd (split_LF x) ++ y))).
Proof.
  induction x as [|c x IH]; simpl.
  - destruct (split_LF y); reflexivity.
  - rewrite IH. clear IH. destruct (split_LF x) as [lsx tx]. simpl.
    destruct (Byte.eqb c LF) eqn:E; simpl; [reflexivity|].
    destruct lsx as [|l lsx]; simpl; [|reflexivity].
    destruct (split_LF (tx ++ y)) as [ls2 t2]. simpl. rewrite E.
    destruct ls2; reflexivity.
Qed.

Lemma drain_app (x y : bytes) :
  drain (x ++ y) =
  (fst (drain x) ++ fst (drain (snd (drain x) ++ y)),
   snd (drain (snd (drain x) ++ y))).
Proof.
  rewrite !drain_split_LF, split_LF_app. simpl.
  rewrite flat_map_app. reflexivity.
Qed.

Lemma feed_app (buf a c : bytes) :
  feed buf (a ++ c) =
  (fst (feed buf a) ++ fst (feed (snd (feed buf a)) c),
   snd (feed (snd (feed buf a)) c)).
Proof.
  destruct a as [|a0 a]; simpl.
  - destruct (feed buf c); reflexivity.
  - destruct c as [|c0 c]; simpl.
    + rewrite !app_nil_r. destruct (drain (buf ++ a0 :: a)); reflexivity.
    + change (a0 :: a ++ c0 :: c) with ((a0 :: a) ++ c0 :: c).
      rewrite app_assoc. apply drain_app.
Qed.

Lemma feed_chunks_concat (buf : bytes) (chunks : list bytes) :
  feed_chunks buf chunks = feed buf (List.concat chunks).
Proof.
  revert buf. induction chunks as [|c cs IH]; intros buf; simpl.
  - reflexivity.
  - rewrite IH, feed_app. reflexivity.
Qed.

(** [split_LF] cuts at every newline and nowhere else. *)
Lemma split_LF_join (s : bytes) :
  s = List.concat (map (fun l => l ++ [LF]) (fst (split_LF s)))
        ++ snd (split_LF s).
Proof.
  induction s as [|c s IH]; simpl; [reflexivity|].
  destruct (split_LF s) as [ls tail]. simpl in IH.
  destruct (Byte.eqb c LF) eqn:E; simpl.
  - apply Byte.byte_dec_bl in E. subst c. f_equal. exact IH.
  - destruct ls as [|l ls]; simpl in *; f_equal; exact IH.
Qed.

Lemma split_LF_no_LF (s : bytes) :
  Forall (fun l => contains LF l = false) (fst (split_LF s))
  /\ contains LF (snd (split_LF s)) = false.
Proof.
  induction s as [|c s IH]; simpl; [split; [constructor|reflexivity]|].
  destruct (split_LF s) as [ls tail]. simpl in IH. destruct IH as [Hl Ht].
  destruct (Byte.eqb c LF) eqn:E; simpl.
  - split; [constructor; [reflexivity|exact Hl]|exact Ht].
  - destruct ls as [|l ls]; simpl.
    + split; [constructor|]. unfold contains in *. simpl. rewrite E. exact Ht.
    + inversion Hl; subst. split; [|exact Ht].
      constructor; [|assumption]. unfold contains in *. simpl. rewrite E.
      assumption.
Qed.

End Framer.

(** C2. Feeding a byte sequence chunk by chunk emits the same decoded
    lines, in the same order, and leaves the same buffer as feeding it in
    one call, whatever the buffer held before.  From an empty buffer the
    lines are the decoded, stripped, non-empty newline-terminated runs of
    the input, and the bytes after the last newline stay in the buffer. *)
Theorem C2_chunk_boundary_independence
        (buf : Py.bytes) (chunks : list Py.bytes) :
  Spec.feed_chunks buf chunks = SerialManager.feed buf (List.concat chunks)
  /\ let runs := fst (Spec.split_LF (List.concat chunks)) in
     let tail := snd (Spec.split_LF (List.concat chunks)) in
     Spec.feed_chunks [] chunks
     = (flat_map SerialManager.emit_line runs, tail)
     /\ List.concat chunks = List.concat (map (fun l => l ++ [Py.LF]) runs) ++ tail
     /\ Forall (fun l => SerialManager.contains Py.LF l = false) runs
     /\ SerialManager.contains Py.LF tail = false.
Proof.
  split; [apply feed_chunks_concat|]. cbv zeta.
  split; [|split; [apply split_LF_join|apply split_LF_no_LF]].
  rewrite feed_chunks_concat. unfold SerialManager.feed.
  destruct (List.concat chunks) as [|c0 s] eqn:E; [reflexivity|].
  apply drain_split_LF.
Qed.

(** The reassembly scenario: a line split across two reads. *)
Example feed_split_across_reads :
  let chunk1 := Py.b "Total: 180.5" ++ [Py.LF] ++ Py.b "foo" ++ [Py.LF]
                     ++ Py.b "12" in
  let chunk2 := Py.b "3.4" ++ [Py.LF] in
  SerialManager.feed [] chunk1
  = ([Py.u "Total: 180.5"; Py.u "foo"], Py.b "12")
  /\ SerialManager.feed (Py.b "12") chunk2 = ([Py.u "123.4"], [])
  /\ map (fun l => Spec.classify l 0%float)
         (fst (Spec.feed_chunks [] [chunk1; chunk2]))
     = [Spec.Sample 180.5%float 0%float; Spec.LogLine (Py.u "foo");
        Spec.Sample 123.4%float 0%float].
Proof. vm_compute. repeat split. Qed.


(** ** Order of binary64 values *)

Section FloatOrder.

Local Open Scope float_scope.

Lemma SFcompare_refl_not_Lt (x : spec_float) :
  SFltb x x = false.
Proof.
  unfold SFltb. destruct x as [s|s| |s m e]; simpl; try reflexivity.
  - destruct s; reflexivity.
  - destruct s; rewrite Z.compare_refl;
      change (Pos.compare_cont Eq m m) with (Pos.compare m m);
      rewrite Pos.compare_refl; reflexivity.
Qed.

Lemma SFleb_SFltb_trans (x y z : spec_float) :
  SFleb x y = true -> SFltb y z = true -> SFltb x z = true.
Proof.
  unfold SFleb, SFltb.
  destruct x as [sx|sx| |sx mx ex], y as [sy|sy| |sy my ey],
           z as [sz|sz| |sz mz ez]; simpl;
    try discriminate; try (destruct sx, sy, sz; simpl; congruence);
    try (destruct sx, sy; simpl; congruence);
    try (destruct sx, sz; simpl; congruence);
    try (destruct sy, sz; simpl; congruence).
  all: change (Pos.compare_cont Eq) with Pos.compare.
  all: destruct sx, sy, sz; simpl; try congruence.
  all: destruct (Z.compare_spec ex ey), (Z.compare_spec ey ez),
         (Z.compare_spec ex ez); try lia; try congruence; subst.
  all: destruct (Pos.compare_spec mx my), (Pos.compare_spec my mz),
         (Pos.compare_spec mx mz); simpl; try lia; try congruence.
Qed.

Lemma ltb_irrefl (x : float) : (x <? x) = false.
Proof. rewrite ltb_spec. apply SFcompare_refl_not_Lt. Qed.

Lemma leb_ltb_trans (x y z : float) :
  (x <=? y) = true -> (y <? z) = true -> (x <? z) = true.
Proof. rewrite leb_spec, !ltb_spec. apply SFleb_SFltb_trans. Qed.

End FloatOrder.

(** ** SampleWindow: [append_data_point] *)

Section Window.

Import Py Deque MainWindow Spec.
Local Open Scope float_scope.

Lemma expired_le (c : float) (ts : list float) :
  (expired c ts <= List.length ts)%nat.
Proof. induction ts as [|t ts IH]; simpl; [|destruct (t <? c)]; lia. Qed.

(** The loop removes the expired head of both sequences. *)
Lemma trim_old_skipn (c : float) (xs : list float) (n : nat)
      (ys : deque float) :
  (expired c xs <= len ys)%nat ->
  trim_old c xs n ys
  = inr (Deque.mk (skipn (expired c xs) xs) n,
         Deque.mk (skipn (expired c xs) (items ys)) (maxlen ys)).
Proof.
  revert ys. induction xs as [|x xs IH]; intros [ys my]; simpl.
  - reflexivity.
  - destruct (x <? c); [|reflexivity].
    unfold len, popleft. simpl. destruct ys as [|y ys]; simpl; [lia|].
    intros H. rewrite IH by (unfold len; simpl; lia). reflexivity.
Qed.

(** Without its partner the loop stops with [IndexError] only when the
    values run out first. *)
Lemma trim_old_fails (c : float) (xs : list float) (n : nat)
      (ys : deque float) :
  (len ys < expired c xs)%nat -> trim_old c xs n ys = inl IndexError.
Proof.
  revert ys. induction xs as [|x xs IH]; intros [ys my]; unfold len; simpl.
  - lia.
  - destruct (x <? c); [|lia].
    unfold popleft. simpl. destruct ys as [|y ys]; simpl; [reflexivity|].
    intros H. apply IH. unfold len. simpl. lia.
Qed.

Lemma expired_skipn (c : float) (ts : list float) :
  expired c (skipn (expired c ts) ts) = O.
Proof.
  induction ts as [|t ts IH]; simpl; [reflexivity|].
  destruct (t <? c) eqn:E; simpl; [exact IH|rewrite E; reflexivity].
Qed.

Lemma expired_firstn (c : float) (ts : list float) :
  Forall (fun t => (t <? c) = true) (firstn (expired c ts) ts).
Proof.
  induction ts as [|t ts IH]; simpl; [constructor|].
  destruct (t <? c) eqn:E; simpl; constructor; assumption.
Qed.

Lemma nondecreasing_tail (t : float) (ts : list float) :
  nondecreasing (t :: ts) -> nondecreasing ts.
Proof. simpl. tauto. Qed.

Lemma nondecreasing_all_kept (c t : float) (ts : list float) :
  nondecreasing (t :: ts) -> (t <? c) = false ->
  Forall (fun t' => (t' <? c) = false) (t :: ts).
Proof.
  revert t. induction ts as [|t' ts IH]; intros t Hs Ht.
  - constructor; [assumption|constructor].
  - constructor; [assumption|]. destruct Hs as [Hle Hs].
    apply IH; [exact Hs|].
    destruct (t' <? c) eqn:E; [|reflexivity].
    rewrite (leb_ltb_trans Hle E) in Ht. discriminate.
Qed.

(** On non-decreasing timestamps nothing below the cutoff survives. *)
Lemma skipn_expired_kept (c : float) (ts : list float) :
  nondecreasing ts ->
  Forall (fun t => (t <? c) = false) (skipn (expired c ts) ts).
Proof.
  induction ts as [|t ts IH]; intros Hs; [constructor|].
  simpl expired. destruct (t <? c) eqn:E.
  - simpl. apply IH. exact (nondecreasing_tail Hs).
  - simpl. apply nondecreasing_all_kept; assumption.
Qed.

Lemma filter_all_false {A} (p : A -> bool) (l : list A) :
  Forall (fun x => p x = false) l -> filter p l = [].
Proof.
  induction 1 as [|x l Hx _ IH]; simpl; [reflexivity|].
  rewrite Hx. exact IH.
Qed.

Lemma filter_all_true {A} (p : A -> bool) (l : list A) :
  Forall (fun x => p x = true) l -> filter p l = l.
Proof.
  induction 1 as [|x l Hx _ IH]; simpl; [reflexivity|].
  rewrite Hx, IH. reflexivity.
Qed.

Lemma skipn_expired_filter (c : float) (ts : list float) :
  nondecreasing ts ->
  skipn (expired c ts) ts = filter (fun t => negb (t <? c)) ts.
Proof.
  intros Hs.
  rewrite <- (firstn_skipn (expired c ts) ts) at 3.
  rewrite filter_app, filter_all_false, filter_all_true; [reflexivity| |].
  - eapply Forall_impl; [|apply skipn_expired_kept; exact Hs].
    simpl. intros a ->. reflexivity.
  - eapply Forall_impl; [|apply expired_firstn].
    simpl. intros a ->. reflexivity.
Qed.

Lemma latest_skipn (k : nat) (xs : list float) (t l : float)
      (r1 r2 : list float) :
  rev (skipn k xs) = t :: r1 -> rev xs = l :: r2 -> t = l.
Proof.
  intros H1 H2. rewrite <- (firstn_skipn k xs), rev_app_distr, H1 in H2.
  simpl in H2. congruence.
Qed.

Lemma trim_fixed (c : float) (w : MainWindow.t) (k : nat) :
  let w' := MainWindow.mk (serial w) (seconds_window w)
              (Deque.mk (skipn (expired c (timestamps w)) (timestamps w))
                        (maxlen (x_times w)))
              (Deque.mk (skipn k (values w)) (maxlen (y_vals w)))
              (t0 w) (log w) in
  trim c w' = inr w'.
Proof.
  intros w'. unfold trim. cbn [timestamps w' x_times y_vals items maxlen].
  rewrite trim_old_skipn; rewrite expired_skipn; [reflexivity|lia].
Qed.

Lemma trim_result (c : float) (w : MainWindow.t) :
  (expired c (timestamps w) <= List.length (values w))%nat ->
  trim c w
  = inr (MainWindow.mk (serial w) (seconds_window w)
           (Deque.mk (skipn (expired c (timestamps w)) (timestamps w))
                     (maxlen (x_times w)))
           (Deque.mk (skipn (expired c (timestamps w)) (values w))
                     (maxlen (y_vals w)))
           (t0 w) (log w)).
Proof.
  intros H. unfold trim. rewrite trim_old_skipn by exact H. reflexivity.
Qed.

Lemma trim_error (c : float) (w : MainWindow.t) :
  (List.length (values w) < expired c (timestamps w))%nat ->
  trim c w = inl IndexError.
Proof.
  intros H. unfold trim. rewrite trim_old_fails by exact H. reflexivity.
Qed.

(** [append_data_point] is the spec's [append] followed by the trimming
    loop at [current_time - seconds_window]. *)
Lemma append_data_point_trim (clock value : float) (w : MainWindow.t) :
  append_data_point clock value w
  = trim (clock - t0 w - seconds_window w)
         (Spec.append (clock - t0 w) value w).
Proof. reflexivity. Qed.

Lemma deque_append_length {A} (d : deque A) (x : A) :
  (len d <= maxlen d)%nat ->
  len (Deque.append d x) = Nat.min (S (len d)) (maxlen d).
Proof.
  unfold len, Deque.append. destruct d as [l n].
  cbn [items maxlen]. intros H.
  pose proof (length_app l [x]) as E. cbn [List.length] in E.
  destruct (Nat.ltb_spec n (List.length (l ++ [x]))) as [Hlt|Hge].
  - destruct l as [|a l]; cbn [tl app List.length] in *; [lia|].
    rewrite length_app in *. cbn [List.length] in *. lia.
  - lia.
Qed.

Lemma window_inv_init (clock : float) : window_inv (MainWindow.init clock).
Proof. repeat split; unfold len, Deque.new; simpl; lia. Qed.

Lemma append_data_point_inv (clock value : float) (w : MainWindow.t) :
  window_inv w ->
  exists w', append_data_point clock value w = inr w' /\ window_inv w'.
Proof.
  intros [[Hlen Hmax] [Hcap H1000]].
  rewrite append_data_point_trim.
  set (c := (clock - t0 w - seconds_window w)%float).
  set (t := (clock - t0 w)%float).
  assert (Hxy : len (x_times w) = len (y_vals w)) by exact Hlen.
  pose proof (deque_append_length (x_times w) t Hcap) as Hx.
  assert (Hy : len (Deque.append (y_vals w) value)
               = Nat.min (S (len (y_vals w))) (maxlen (y_vals w)))
    by (apply deque_append_length; lia).
  pose proof (expired_le c (timestamps (Spec.append t value w))) as Hk.
  set (k := expired c (timestamps (Spec.append t value w))) in *.
  change (List.length (timestamps (Spec.append t value w)))
    with (len (Deque.append (x_times w) t)) in Hk.
  rewrite trim_result.
  2:{ change (List.length (values (Spec.append t value w)))
        with (len (Deque.append (y_vals w) value)). fold k. lia. }
  eexists. split; [reflexivity|]. fold k.
  unfold window_inv, paired, timestamps, values, len.
  cbn [x_times y_vals items maxlen]. rewrite !length_skipn.
  change (List.length (items (x_times (Spec.append t value w))))
    with (len (Deque.append (x_times w) t)).
  change (List.length (items (y_vals (Spec.append t value w))))
    with (len (Deque.append (y_vals w) value)).
  change (maxlen (x_times (Spec.append t value w)))
    with (maxlen (x_times w)).
  change (maxlen (y_vals (Spec.append t value w)))
    with (maxlen (y_vals w)).
  repeat split; lia.
Qed.

Lemma step_inv (a : action) (w : MainWindow.t) :
  window_inv w -> exists w', step a w = inr w' /\ window_inv w'.
Proof.
  intros Hw. destruct a as [clock line|seconds|clock p o wr|rd]; simpl.
  - unfold on_serial_line. destruct (line_value line).
    + apply append_data_point_inv. exact Hw.
    + eexists. split; [reflexivity|]. exact Hw.
  - eexists. split; [reflexivity|]. exact Hw.
  - eexists. split; [reflexivity|].
    unfold toggle_connect.
    destruct (SerialManager.is_connected (serial w)); [exact Hw|].
    destruct (_ || _); [exact Hw|].
    destruct o; simpl; [exact Hw|].
    destruct Hw as [[_ Hm] [_ H1000]].
    destruct (SerialManager.send_line _ _ _) as [[? ?] ?].
    unfold window_inv, paired, timestamps, values, len, clear.
    cbn [fst x_times y_vals items maxlen List.length]. repeat split; lia.
  - eexists. split; [reflexivity|]. exact Hw.
Qed.

Lemma run_inv (actions : list action) (w : MainWindow.t) :
  window_inv w -> exists w', run actions w = inr w' /\ window_inv w'.
Proof.
  revert w. induction actions as [|a rest IH]; intros w Hw; simpl.
  - exists w. split; [reflexivity|exact Hw].
  - destruct (step_inv a Hw) as [w1 [-> H1]]. apply IH. exact H1.
Qed.

Lemma reachable_inv (w : MainWindow.t) : reachable w -> window_inv w.
Proof.
  intros [actions [clock0 H]].
  destruct (@run_inv actions (MainWindow.init clock0)
                     (window_inv_init clock0)) as [w' [H' Hw]].
  congruence.
Qed.

End Window.


(** On a window whose timestamps are non-decreasing, the trimming loop
    run at [latest - r] removes a head of the two sequences, in lockstep,
    made of exactly the samples whose timestamp is strictly below
    [latest - r]. *)
Lemma evict_on_nondecreasing (r l : float) (w : MainWindow.t) :
  Spec.paired w ->
  Spec.nondecreasing (Spec.timestamps w) ->
  Spec.latest w = Some l ->
  exists (w' : MainWindow.t) (k : nat),
    Spec.evict r w = inr w'
    /\ Spec.timestamps w' = skipn k (Spec.timestamps w)
    /\ Spec.values w' = skipn k (Spec.values w)
    /\ Forall (fun t => (t <? l - r)%float = true)
              (firstn k (Spec.timestamps w))
    /\ Spec.timestamps w'
       = filter (fun t => negb (t <? l - r)%float) (Spec.timestamps w)
    /\ (forall t, In t (Spec.timestamps w) -> t = (l - r)%float ->
                  In t (Spec.timestamps w')).
Proof.
  intros [Hlen _] Hs Hl. unfold Spec.evict. rewrite Hl.
  set (c := (l - r)%float).
  pose proof (expired_le c (Spec.timestamps w)) as Hk.
  rewrite trim_result by lia.
  eexists. exists (Spec.expired c (Spec.timestamps w)).
  split; [reflexivity|].
  unfold Spec.timestamps at 1 5 7, Spec.values at 1. cbn [MainWindow.x_times MainWindow.y_vals Deque.items].
  split; [reflexivity|]. split; [reflexivity|].
  split; [apply expired_firstn|].
  split; [apply skipn_expired_filter; exact Hs|].
  intros t Ht ->. rewrite (@skipn_expired_filter c _ Hs).
  apply filter_In. split; [exact Ht|]. rewrite ltb_irrefl. reflexivity.
Qed.

(** The sample [append_data_point] has just appended is the latest one. *)
Lemma latest_append (t v : float) (w : MainWindow.t) :
  Spec.window_inv w -> Spec.latest (Spec.append t v w) = Some t.
Proof.
  intros [_ [_ H1000]]. unfold Spec.latest, Spec.timestamps, Spec.append.
  cbn [MainWindow.x_times]. unfold Deque.append. cbn [Deque.items].
  rewrite H1000.
  destruct (1000 <? _)%nat eqn:E.
  - destruct (Deque.items (MainWindow.x_times w)) as [|x xs].
    + cbn in E. discriminate E.
    + cbn [app tl]. rewrite rev_app_distr. reflexivity.
  - rewrite rev_app_distr. reflexivity.
Qed.

Lemma append_paired (t v : float) (w : MainWindow.t) :
  Spec.window_inv w -> Spec.paired (Spec.append t v w).
Proof.
  intros [[Hlen Hmax] [Hcap _]]. split; [|exact Hmax].
  change (Deque.len (Deque.append (MainWindow.x_times w) t)
          = Deque.len (Deque.append (MainWindow.y_vals w) v)).
  assert (Hxy : Deque.len (MainWindow.x_times w)
                = Deque.len (MainWindow.y_vals w)) by exact Hlen.
  rewrite !deque_append_length by lia. lia.
Qed.

(** C3. In every state the window can reach, [append_data_point] appends
    the sample stamped [now = clock - t0], which is then the latest, and
    evicts with retention [r = seconds_window]: it is [evict r] after the
    two appends.  When the timestamps are non-decreasing, what it removes
    is a head of the two sequences, in lockstep, made of exactly the samples
    whose timestamp is strictly below [now - r]; a sample stamped
    [now - r] stays. *)
Theorem C3_append_evicts_strictly_older
        (clock value : float) (w : MainWindow.t) :
  Spec.reachable w ->
  let now := (clock - MainWindow.t0 w)%float in
  let r := MainWindow.seconds_window w in
  let ts := Deque.items (Deque.append (MainWindow.x_times w) now) in
  let vs := Deque.items (Deque.append (MainWindow.y_vals w) value) in
  Spec.nondecreasing ts ->
  exists (w' : MainWindow.t) (k : nat),
    MainWindow.append_data_point clock value w = inr w'
    /\ Spec.latest (Spec.append now value w) = Some now
    /\ Spec.evict r (Spec.append now value w) = inr w'
    /\ Spec.timestamps w' = skipn k ts
    /\ Spec.values w' = skipn k vs
    /\ Forall (fun t => (t <? now - r)%float = true) (firstn k ts)
    /\ Spec.timestamps w' = filter (fun t => negb (t <? now - r)%float) ts
    /\ (forall t, In t ts -> t = (now - r)%float ->
                  In t (Spec.timestamps w')).
Proof.
  intros Hr now r ts vs Hs. pose proof (reachable_inv Hr) as Hw.
  pose proof (latest_append now value Hw) as Hl.
  destruct (@evict_on_nondecreasing r now (Spec.append now value w)
              (append_paired now value Hw) Hs Hl)
    as (w' & k & He & Ht & Hv & Hf & Hfl & Hin).
  exists w', k. split; [|split; [exact Hl|split; [exact He|]]].
  - rewrite append_data_point_trim. fold now r. rewrite <- He.
    unfold Spec.evict. rewrite Hl. reflexivity.
  - repeat split; assumption.
Qed.

(** The retention scenario: samples at 0.0, 1.0 and 2.5 in the window
    (put there by three lines), the retention then set to 2.0, and a
    fourth sample appended at 3.0: the sample at 0.0 goes, the one at
    1.0 = 3.0 - 2.0 stays. *)
Lemma C3_retention_scenario :
  let w := MainWindow.mk (SerialManager.init SerialManager.DEFAULT_BAUD)
             2.0%float
             (Deque.mk [0.0; 1.0; 2.5]%float 1000)
             (Deque.mk [200.0; 180.5; 180.5]%float 1000)
             0.0%float [] in
  Spec.reachable w
  /\ exists (w' : MainWindow.t) (k : nat),
      MainWindow.append_data_point 3.0%float 200.0%float w = inr w'
      /\ Spec.latest (Spec.append 3.0%float 200.0%float w) = Some 3.0%float
      /\ Spec.evict 2.0%float (Spec.append 3.0%float 200.0%float w) = inr w'
      /\ Spec.timestamps w' = skipn k [0.0; 1.0; 2.5; 3.0]%float
      /\ Spec.values w' = skipn k [200.0; 180.5; 180.5; 200.0]%float
      /\ Forall (fun t => (t <? 3.0 - 2.0)%float = true)
                (firstn k [0.0; 1.0; 2.5; 3.0]%float)
      /\ Spec.timestamps w' = [1.0; 2.5; 3.0]%float
      /\ (forall t, In t [0.0; 1.0; 2.5; 3.0]%float ->
                    t = (3.0 - 2.0)%float -> In t (Spec.timestamps w')).
Proof.
  intros w.
  assert (Hr : Spec.reachable w).
  { exists [Spec.SerialLine 0.0%float (Py.u "Total: 200");
            Spec.SerialLine 1.0%float (Py.u "180.5");
            Spec.SerialLine 2.5%float (Py.u "total:180.5 dip");
            Spec.SetWindowSeconds 2.0%float], 0.0%float.
    vm_compute. reflexivity. }
  split; [exact Hr|].
  apply (@C3_append_evicts_strictly_older 3.0%float 200.0%float w Hr).
  simpl. repeat split; reflexivity.
Defined.

(** The same scenario through [append_data_point], from a fresh window
    with the retention set to 2.0 seconds. *)
Example append_data_point_scenario :
  let w0 := MainWindow.set_window_seconds 2.0%float
              (MainWindow.init 0.0%float) in
  match Spec.run [Spec.SerialLine 0.0%float (Py.u "Total: 200");
                  Spec.SerialLine 1.0%float (Py.u "180.5");
                  Spec.SerialLine 2.5%float (Py.u "total:180.5 dip");
                  Spec.SerialLine 3.0%float (Py.u "TOTAL : 200")] w0 with
  | inr w => Spec.samples w
             = [(1.0, 180.5); (2.5, 180.5); (3.0, 200.0)]%float
  | inl _ => False
  end.
Proof. vm_compute. reflexivity. Qed.

(** C5. Evicting twice with the same retention is evicting once, also when
    the first run stops with an exception. *)
Theorem C5_evict_idempotent (r : float) (w : MainWindow.t) :
  match Spec.evict r w with
  | inr w' => Spec.evict r w'
  | inl e => inl e
  end = Spec.evict r w.
Proof.
  unfold Spec.evict at 1 3. destruct (Spec.latest w) as [l|] eqn:Hl.
  2:{ unfold Spec.evict. rewrite Hl. reflexivity. }
  set (c := (l - r)%float).
  destruct (Nat.le_gt_cases (Spec.expired c (Spec.timestamps w))
                            (List.length (Spec.values w))) as [Hk|Hk].
  2:{ rewrite trim_error by exact Hk. reflexivity. }
  rewrite trim_result by exact Hk.
  set (w' := MainWindow.mk _ _ _ _ _ _).
  unfold Spec.evict.
  destruct (Spec.latest w') as [t|] eqn:Ht; [|reflexivity].
  assert (t = l) as ->.
  { unfold Spec.latest in Ht, Hl.
    unfold w', Spec.timestamps in Ht. cbn [MainWindow.x_times Deque.items] in Ht.
    fold (Spec.timestamps w) in Ht.
    destruct (rev (skipn _ _)) eqn:E1; [discriminate|].
    destruct (rev (Spec.timestamps w)) eqn:E2; [discriminate|].
    injection Ht as <-. injection Hl as <-.
    exact (latest_skipn _ _ E1 E2). }
  fold c. unfold w'.
  exact (trim_fixed c w (Spec.expired c (Spec.timestamps w))).
Qed.

(** C4. In every state the window can reach, one more
    [append_data_point] leaves at most 1000 timestamps and 1000 values;
    when the window already holds 1000 samples the oldest one is dropped by
    the append itself, also when no sample, old or new, is below the
    cutoff, whatever the retention is. *)
Theorem C4_count_cap (clock value : float) (w : MainWindow.t) :
  Spec.reachable w ->
  exists w' : MainWindow.t,
    MainWindow.append_data_point clock value w = inr w'
    /\ (List.length (Spec.timestamps w') <= 1000)%nat
    /\ (List.length (Spec.values w') <= 1000)%nat
    /\ (let now := (clock - MainWindow.t0 w)%float in
        let cutoff := (now - MainWindow.seconds_window w)%float in
        List.length (Spec.timestamps w) = 1000%nat ->
        forallb (fun t => negb (t <? cutoff)%float)
                (Spec.timestamps w ++ [now]) = true ->
        Spec.timestamps w' = tl (Spec.timestamps w) ++ [now]
        /\ Spec.values w' = tl (Spec.values w) ++ [value]).
Proof.
  intros Hr. pose proof (reachable_inv Hr) as Hw.
  destruct (append_data_point_inv clock value Hw) as [w' [E Hw']].
  exists w'. split; [exact E|].
  destruct Hw' as [[Hlen' Hmax'] [Hcap' H1000']].
  unfold Deque.len in Hcap'. fold (Spec.timestamps w') in Hcap'.
  split; [lia|]. split; [lia|].
  intros now cutoff Hfull Hkeep.
  destruct Hw as [[Hlen Hmax] [Hcap H1000]].
  rewrite append_data_point_trim in E. fold now cutoff in E.
  assert (Hx : Spec.timestamps (Spec.append now value w)
               = tl (Spec.timestamps w) ++ [now]).
  { unfold Spec.timestamps, Spec.append, Deque.append.
    cbn [MainWindow.x_times Deque.items].
    rewrite length_app. fold (Spec.timestamps w). rewrite Hfull, H1000.
    cbn [List.length]. destruct (Spec.timestamps w); [discriminate|].
    reflexivity. }
  assert (Hy : Spec.values (Spec.append now value w)
               = tl (Spec.values w) ++ [value]).
  { unfold Spec.values, Spec.append, Deque.append.
    cbn [MainWindow.y_vals Deque.items].
    rewrite length_app. fold (Spec.values w).
    rewrite <- Hlen, <- Hmax, Hfull, H1000.
    cbn [List.length]. destruct (Spec.values w); [cbn in Hlen; lia|].
    reflexivity. }
  assert (Hk : Spec.expired cutoff (Spec.timestamps (Spec.append now value w))
               = O).
  { rewrite Hx. destruct (Spec.timestamps w) as [|t0 ts]; [discriminate|].
    cbn [tl]. simpl in Hkeep. apply andb_prop in Hkeep. destruct Hkeep as [_ Hkeep].
    destruct (ts ++ [now]) as [|t1 ts1]; [reflexivity|].
    simpl in Hkeep. simpl. destruct (t1 <? cutoff)%float; [discriminate|].
    reflexivity. }
  rewrite trim_result in E by (rewrite Hk; lia).
  injection E as <-. rewrite Hk.
  unfold Spec.timestamps at 1, Spec.values at 1.
  cbn [MainWindow.x_times MainWindow.y_vals Deque.items skipn].
  split; assumption.
Qed.

(** C9. Whatever happens to the window from [__init__] on, no action
    raises, and the timestamps and the values have the same length. *)
Theorem C9_sequences_in_lockstep
        (actions : list Spec.action) (clock0 : float) :
  exists w : MainWindow.t,
    Spec.run actions (MainWindow.init clock0) = inr w
    /\ List.length (Spec.timestamps w) = List.length (Spec.values w)
    /\ List.length (Spec.samples w) = List.length (Spec.timestamps w).
Proof.
  destruct (@run_inv actions (MainWindow.init clock0)
                     (window_inv_init clock0)) as [w [E [[Hlen _] _]]].
  exists w. split; [exact E|]. split; [exact Hlen|].
  unfold Spec.samples. rewrite length_combine. lia.
Qed.

(** A window that holds 1000 samples, all stamped 1.0: it is reached by
    1000 lines, and the next sample, well inside the retention of 30
    seconds, pushes the oldest one out. *)
Lemma C4_full_window_drops_oldest :
  let w := MainWindow.mk (SerialManager.init SerialManager.DEFAULT_BAUD)
             30.0%float
             (Deque.mk (repeat 1.0%float 1000) 1000)
             (Deque.mk (repeat 5.0%float 1000) 1000)
             0.0%float [] in
  Spec.reachable w
  /\ exists w' : MainWindow.t,
       MainWindow.append_data_point 2.0%float 7.0%float w = inr w'
       /\ Spec.timestamps w' = repeat 1.0%float 999 ++ [2.0%float]
       /\ Spec.values w' = repeat 5.0%float 999 ++ [7.0%float].
Proof.
  intros w.
  assert (Hr : Spec.reachable w).
  { exists (repeat (Spec.SerialLine 1.0%float (Py.u "5")) 1000), 0.0%float.
    vm_compute. reflexivity. }
  split; [exact Hr|].
  destruct (@C4_count_cap 2.0%float 7.0%float w Hr) as [w' [E [_ [_ H]]]].
  exists w'. split; [exact E|]. apply H; vm_compute; reflexivity.
Defined.

(** ** SerialTransport: connect, send *)

(** C6. While the manager is disconnected, [send_line] raises
    [RuntimeError("Serial not connected")] whatever the text, does nothing
    to the link, and returns the manager as it was; the window is not an
    argument of the call. *)
Theorem C6_send_while_disconnected
        (written : SerialManager.write_outcome) (text : Py.str)
        (w : MainWindow.t) :
  Spec.Disconnected (MainWindow.serial w) ->
  SerialManager.send_line written text (MainWindow.serial w)
  = (inl SerialManager.RuntimeError_not_connected, MainWindow.serial w, []).
Proof.
  unfold Spec.Disconnected, SerialManager.send_line. intros ->. reflexivity.
Qed.

Lemma C6_send_save_on_fresh_window :
  SerialManager.send_line SerialManager.Written (Py.u "SAVE")
    (MainWindow.serial (MainWindow.init 0.0%float))
  = (inl SerialManager.RuntimeError_not_connected,
     MainWindow.serial (MainWindow.init 0.0%float), []).
Proof.
  apply (@C6_send_while_disconnected SerialManager.Written (Py.u "SAVE")
           (MainWindow.init 0.0%float)).
  reflexivity.
Defined.



Section SendLine.

Import Py SerialManager.

Lemma endswith_newline_app (text : str) :
  endswith_newline (text ++ [LF_char]) = true.
Proof. unfold endswith_newline. rewrite rev_app_distr. reflexivity. Qed.

Lemma encode_utf8_newline (text : str) :
  encode_utf8 (text ++ [LF_char])
  = option_map (fun body => body ++ [LF]) (encode_utf8 text).
Proof.
  unfold encode_utf8. rewrite existsb_app, flat_map_app.
  cbn [existsb flat_map]. change (is_surrogate LF_char) with false.
  rewrite !orb_false_r. destruct (existsb is_surrogate text); reflexivity.
Qed.

End SendLine.

(** C7, as stated, fails: a write that raises leaves the manager
    connected. *)
Lemma C7_write_failure_keeps_connection :
  let m := Spec.connected_manager in
  let r := SerialManager.send_line
             (SerialManager.WriteRaises (Py.u "Write timeout"))
             (Py.u "SAVE") m in
  Spec.Connected m
  /\ fst (fst r)
     = inl (SerialManager.RuntimeError_write_failed
              (SerialManager.PortError (Py.u "Write timeout")))
  /\ ~ Spec.Disconnected (snd (fst r)).
Proof.
  cbv zeta. split; [reflexivity|]. split; [reflexivity|].
  unfold Spec.Disconnected. vm_compute. discriminate.
Qed.

(** C7, amended. While connected, a send whose text cannot be encoded
    (it holds a surrogate) or whose [write] or [flush] raises fails with
    [RuntimeError("Serial write failed: ...")] carrying the cause; the
    manager is returned as it was, still connected, its port not closed.
    Every other send returns. *)
Theorem C7_write_failure_is_reported
        (written : SerialManager.write_outcome) (text : Py.str)
        (m : SerialManager.t) :
  Spec.Connected m ->
  exists (result : SerialManager.exn + unit) (ios : list SerialManager.io),
    SerialManager.send_line written text m = (result, m, ios)
    /\ ~ In SerialManager.io_close ios
    /\ Spec.Connected m
    /\ (written <> SerialManager.Written \/ Py.encode_utf8 text = None ->
        exists c : SerialManager.cause,
          result = inl (SerialManager.RuntimeError_write_failed c))
    /\ (written = SerialManager.Written -> Py.encode_utf8 text <> None ->
        result = inr tt).
Proof.
  unfold Spec.Connected, SerialManager.send_line. intros Hc. rewrite Hc.
  cbn [negb].
  set (sent := if SerialManager.endswith_newline text then text
               else text ++ [SerialManager.LF_char]).
  assert (He : Py.encode_utf8 sent = None <-> Py.encode_utf8 text = None).
  { unfold sent. destruct (SerialManager.endswith_newline text);
      [reflexivity|].
    rewrite encode_utf8_newline.
    destruct (Py.encode_utf8 text); cbn [option_map];
      split; intros H; (discriminate H || reflexivity). }
  destruct (Py.encode_utf8 sent) as [data|].
  - assert (Hs : Py.encode_utf8 text <> None).
    { intros E. apply He in E. discriminate E. }
    destruct written as [|e|e]; eexists; eexists;
      (split; [reflexivity|]);
      (split; [simpl; intuition discriminate|]);
      (split; [reflexivity|]); split.
    + intros [H|H]; congruence.
    + reflexivity.
    + intros _. eexists. reflexivity.
    + intros H. discriminate H.
    + intros _. eexists. reflexivity.
    + intros H. discriminate H.
  - assert (Hs : Py.encode_utf8 text = None) by (apply He; reflexivity).
    eexists. exists []. split; [reflexivity|]. split; [intros []|].
    split; [reflexivity|]. split.
    + intros _. eexists. reflexivity.
    + intros _ H. congruence.
Qed.

(** A text with a lone surrogate on a port that works: the encoding
    fails, the send is reported as a write failure and the manager stays
    connected. *)
Lemma C7_unencodable_text_on_connected_manager :
  exists (result : SerialManager.exn + unit) (ios : list SerialManager.io),
    SerialManager.send_line SerialManager.Written [0x53; 0xD800]%N
      Spec.connected_manager
    = (result, Spec.connected_manager, ios)
    /\ ~ In SerialManager.io_close ios
    /\ Spec.Connected Spec.connected_manager
    /\ (SerialManager.Written <> SerialManager.Written
        \/ Py.encode_utf8 [0x53; 0xD800]%N = None ->
        exists c : SerialManager.cause,
          result = inl (SerialManager.RuntimeError_write_failed c))
    /\ (SerialManager.Written = SerialManager.Written ->
        Py.encode_utf8 [0x53; 0xD800]%N <> None ->
        result = inr tt).
Proof.
  apply (@C7_write_failure_is_reported
           SerialManager.Written [0x53; 0xD800]%N Spec.connected_manager).
  reflexivity.
Defined.

(** C8. On a successful connect [toggle_connect] restarts [t0], empties
    [x_times] and [y_vals] and clears the log, but [_buf] is not reset:
    bytes left over from one connection are still there after the next
    [connect].  After [12] was received without its newline, a disconnect
    and a new connect, the bytes [3.4] and a newline make [_poll_serial]
    emit the line [123.4], and [on_serial_line] appends the sample 123.4,
    which the device never sent. *)
Lemma C8_stale_bytes_survive_reconnect :
  let port := Py.u "/dev/ttyACM0" in
  match Spec.run
          [Spec.ToggleConnect 0.0%float port None SerialManager.Written;
           Spec.Poll (SerialManager.ReadBytes (Py.b "12"));
           Spec.ToggleConnect 1.0%float port None SerialManager.Written;
           Spec.ToggleConnect 2.0%float port None SerialManager.Written]
          (MainWindow.init 0.0%float) with
  | inr w =>
    Spec.Connected (MainWindow.serial w)
    /\ Spec.samples w = [] /\ MainWindow.t0 w = 2.0%float
    /\ SerialManager._buf (MainWindow.serial w) = Py.b "12"
    /\ SerialManager._buf (MainWindow.serial w) <> []
    /\ snd (fst (SerialManager._poll_serial
                   (SerialManager.ReadBytes (Py.b "3.4
"))
                   (MainWindow.serial w)))
       = [SerialManager.line_received (Py.u "123.4")]
    /\ match MainWindow.on_serial_line 3.0%float (Py.u "123.4") w with
       | inr w' => Spec.samples w' = [(1.0, 123.4)]%float
       | inl _ => False
       end
  | inl _ => False
  end.
Proof. vm_compute. repeat split. discriminate. Qed.

(** From a disconnected manager and a usable port name,
    [toggle_connect] calls [connect].  When the port does not open,
    [connect] returns [False] and announces the failure; the manager stays
    disconnected with its timer stopped and the window is as before.  When
    it opens, [connect] returns [True]; the manager is connected to the
    port at its baud rate, the poll timer runs, the window is emptied and
    [t0] restarts at the clock.  In both cases [_buf] keeps the bytes it
    held. *)
Theorem toggle_connect_outcomes
        (clock : float) (port_text : Py.str) (opened : option Py.str)
        (written : SerialManager.write_outcome) (w : MainWindow.t) :
  Spec.Disconnected (MainWindow.serial w) ->
  Py.strip port_text <> [] ->
  Py.strip port_text <> Py.u "(no ports found)" ->
  let port := Py.strip port_text in
  let m := MainWindow.serial w in
  let c := SerialManager.connect opened port m in
  let r := MainWindow.toggle_connect clock port_text opened written w in
  let w' := fst (fst r) in
  let m' := MainWindow.serial w' in
  m' = snd (fst (fst c))
  /\ SerialManager._buf m' = SerialManager._buf m
  /\ match opened with
     | Some e =>
       fst (fst (fst c)) = false
       /\ In (SerialManager.status_changed false
                (Py.u "Connection failed: " ++ e)) (snd (fst r))
       /\ Spec.Disconnected m'
       /\ SerialManager.poll_timer_active m' = false
       /\ MainWindow.x_times w' = MainWindow.x_times w
       /\ MainWindow.y_vals w' = MainWindow.y_vals w
       /\ MainWindow.t0 w' = MainWindow.t0 w
       /\ MainWindow.log w' = MainWindow.log w
     | None =>
       fst (fst (fst c)) = true
       /\ Spec.Connected m'
       /\ SerialManager._ser m'
          = Some (SerialManager.mkSerial port (SerialManager.baud m) true)
       /\ SerialManager.poll_timer_active m' = true
       /\ In (SerialManager.io_open port (SerialManager.baud m)) (snd r)
       /\ Spec.timestamps w' = [] /\ Spec.values w' = []
       /\ MainWindow.t0 w' = clock
       /\ MainWindow.log w' = []
     end.
Proof.
  intros Hd Hne Hnp. cbv zeta. unfold MainWindow.toggle_connect.
  unfold Spec.Disconnected in Hd. rewrite Hd.
  destruct (Py.strip port_text) as [|p0 ps] eqn:Ep; [congruence|].
  cbn [orb]. unfold MainWindow.str_eqb.
  destruct (list_eq_dec N.eq_dec (p0 :: ps) (Py.u "(no ports found)"))
    as [E|_]; [congruence|].
  destruct opened as [e|].
  - cbn. repeat split; try reflexivity. auto.
  - unfold SerialManager.connect. cbn [SerialManager.disconnect].
    unfold SerialManager.send_line. cbn.
    destruct written; cbn; repeat split; try reflexivity; auto;
      apply in_or_app; left; apply in_or_app; right; left; reflexivity.
Qed.

Lemma toggle_connect_on_fresh_window :
  let w := MainWindow.init 0.0%float in
  let r := MainWindow.toggle_connect 5.0%float (Py.u " /dev/ttyACM0 ") None
             SerialManager.Written w in
  Spec.Connected (MainWindow.serial (fst (fst r)))
  /\ MainWindow.t0 (fst (fst r)) = 5.0%float.
Proof.
  cbv zeta.
  pose proof (@toggle_connect_outcomes 5.0%float (Py.u " /dev/ttyACM0 ") None
                SerialManager.Written (MainWindow.init 0.0%float)) as H.
  cbv zeta in H.
  destruct H as [_ [_ [_ [Hc [_ [_ [_ [_ [_ [Ht _]]]]]]]]]].
  - reflexivity.
  - vm_compute. discriminate.
  - vm_compute. discriminate.
  - split; [exact Hc|exact Ht].
Defined.


(** ** LineClassifier: the pattern and [float()] *)

Section Matcher.

Import Py Re.
Local Open Scope N_scope.

Context {A : Type}.

Lemma span_app (p : N -> bool) (ds rest : str) :
  forallb p ds = true ->
  match rest with c :: _ => p c = false | [] => True end ->
  span p (ds ++ rest) = (ds, rest).
Proof.
  intros Hd Hr. induction ds as [|d ds IH]; simpl in *.
  - destruct rest as [|c rest]; [reflexivity|]. simpl. rewrite Hr. reflexivity.
  - apply andb_prop in Hd. destruct Hd as [-> Hd]. rewrite (IH Hd).
    reflexivity.
Qed.

(** A greedy run over a character class: when the continuation cannot
    succeed inside the run, or succeeds right after it, the run is taken
    whole. *)
Lemma star_chr (p : N -> bool) (k : str -> option A) (ws tail : str) :
  forallb p ws = true ->
  match tail with c :: _ => p c = false | [] => True end ->
  k tail <> None \/ (forall c t, p c = true -> k (c :: t) = None) ->
  accept (Star (Chr p)) (ws ++ tail) k = k tail.
Proof.
  intros Hws Htail Hk. cbn [accept].
  generalize (Nat.le_refl (List.length (ws ++ tail))).
  generalize (List.length (ws ++ tail)) at 2 3 as n.
  intros n. revert ws Hws.
  induction n as [|n IH]; intros ws Hws Hn.
  - destruct ws; [reflexivity|simpl in Hn; lia].
  - cbn [star_loop]. destruct ws as [|c ws]; cbn [app].
    + destruct tail as [|c t]; [reflexivity|].
      cbn [accept]. rewrite Htail. reflexivity.
    + simpl in Hws. apply andb_prop in Hws. destruct Hws as [Hc Hws].
      cbn [accept]. rewrite Hc.
      replace (List.length (ws ++ tail) <? List.length (c :: ws ++ tail))%nat
        with true by (symmetry; apply Nat.ltb_lt; simpl; lia).
      fold (star_loop (A:=A) (accept (Chr p)) k).
      rewrite IH by (try assumption; simpl in Hn; lia).
      destruct (k tail) eqn:E; [reflexivity|].
      destruct Hk as [Hk|Hk]; [congruence|].
      rewrite (Hk c (ws ++ tail) Hc). reflexivity.
Qed.

End Matcher.

(** Comparisons of code points, turned into arithmetic. *)
Ltac nprop :=
  repeat first
    [ rewrite orb_true_iff in *
    | rewrite andb_true_iff in *
    | rewrite orb_false_iff in *
    | rewrite andb_false_iff in *
    | rewrite negb_true_iff in *
    | rewrite negb_false_iff in *
    | rewrite N.leb_le in *
    | rewrite N.ltb_lt in *
    | rewrite N.eqb_eq in *
    | rewrite N.leb_gt in *
    | rewrite N.ltb_ge in *
    | rewrite N.eqb_neq in * ].

Ltac nsolve :=
  match goal with
  | |- ?b = false => destruct b eqn:?; [exfalso|reflexivity]
  | |- ?b = true => destruct b eqn:?; [reflexivity|exfalso]
  | _ => idtac
  end; nprop; lia.

Section Characters.

Import Py.
Local Open Scope N_scope.

Lemma space_not_digit (c : N) :
Py_UNICODE_ISSPACE c = true -> isdigit c = false.
Proof. unfold Py_UNICODE_ISSPACE, isdigit. intros H. nsolve. Qed.

Lemma digit_not_space (c : N) :
isdigit c = true -> Py_UNICODE_ISSPACE c = false.
Proof. unfold Py_UNICODE_ISSPACE, isdigit. intros H. nsolve. Qed.

Lemma digit_not_c_space (c : N) : isdigit c = true -> Py_ISSPACE c = false.
Proof. unfold Py_ISSPACE, isdigit. intros H. nsolve. Qed.

Lemma digit_is_ascii (c : N) : isdigit c = true -> (c <? 128) = true.
Proof. unfold isdigit. intros H. nsolve. Qed.

Lemma digit_not_underscore (c : N) :
isdigit c = true -> (UNDERSCORE =? c) = false.
Proof. unfold isdigit, UNDERSCORE. intros H. nsolve. Qed.

Lemma digit_not_sign (c : N) :
isdigit c = true -> (c =? MINUS) = false /\ (c =? PLUS) = false.
Proof. unfold isdigit, MINUS, PLUS. intros H. split; nsolve. Qed.

Lemma digit_not_dot (c : N) : isdigit c = true -> (c =? DOT) = false.
Proof. unfold isdigit, DOT. intros H. nsolve. Qed.

Lemma tolower_cases (c x : N) :
97 <= x -> x <= 122 ->
(Py_TOLOWER c =? x) = true -> ((c =? x) || (c =? x - 32)) = true.
Proof.
unfold Py_TOLOWER. intros H1 H2 H.
destruct ((65 <=? c) && (c <=? 90)) eqn:E; nsolve.
Qed.

End Characters.

Section AcceptEquations.

Import Py Re.

Context {A : Type}.

Lemma accept_Chr_cons (p : N -> bool) (c : N) (s : str)
      (k : str -> option A) :
  accept (Chr p) (c :: s) k = if p c then k s else None.
Proof. reflexivity. Qed.

Lemma accept_Chr_nil (p : N -> bool) (k : str -> option A) :
  accept (Chr p) [] k = None.
Proof. reflexivity. Qed.

Lemma accept_Cat (r1 r2 : regex) (s : str) (k : str -> option A) :
  accept (Cat r1 r2) s k = accept r1 s (fun s' => accept r2 s' k).
Proof. reflexivity. Qed.

Lemma accept_Opt (r : regex) (s : str) (k : str -> option A) :
  accept (Opt r) s k
  = match accept r s k with Some x => Some x | None => k s end.
Proof. reflexivity. Qed.

End AcceptEquations.

Section TotalPattern.

Import Py Re MainWindow Spec.
Local Open Scope N_scope.

Context {A : Type}.

Lemma no_digit_ahead_head (rest : str) :
  no_digit_ahead rest = true ->
  match rest with c :: _ => isdigit c = false | [] => True end.
Proof.
  destruct rest as [|c rest]; simpl; [trivial|].
  destruct (isdigit c); [discriminate|reflexivity].
Qed.

(** [\.[0-9]+] does not match a text that does not start with a point and
    a digit. *)
Lemma accept_fraction_none (K : str -> option A) (rest : str) :
  no_fraction_ahead rest = true ->
  accept (Cat (lit DOT) (Plus digit)) rest K = None.
Proof.
  intros H. unfold lit, Plus, digit. rewrite accept_Cat.
  destruct rest as [|c rest]; [reflexivity|].
  rewrite accept_Chr_cons. destruct (DOT =? c) eqn:Ec; [|reflexivity].
  rewrite accept_Cat. destruct rest as [|c2 rest]; [reflexivity|].
  rewrite accept_Chr_cons. simpl in H. rewrite N.eqb_sym, Ec in H.
  simpl in H. destruct (isdigit c2); [discriminate|reflexivity].
Qed.

(** [[0-9]+] takes a run of digits whole when the continuation accepts
    what follows. *)
Lemma accept_digits (K : str -> option A) (ds rest : str) :
  ds <> [] -> all_digits ds = true -> no_digit_ahead rest = true ->
  K rest <> None ->
  accept (Plus digit) (ds ++ rest) K = K rest.
Proof.
  intros Hne Hds Hnd HK. unfold Plus, digit.
  destruct ds as [|d ds]; [congruence|].
  simpl in Hds. apply andb_prop in Hds. destruct Hds as [Hd Hds].
  rewrite accept_Cat. cbn [app]. rewrite accept_Chr_cons, Hd.
  apply star_chr; [exact Hds|apply no_digit_ahead_head; exact Hnd|].
  left. exact HK.
Qed.

End TotalPattern.

Section TotalNumber.

Import Py Re MainWindow Spec.
Local Open Scope N_scope.

Context {A : Type}.

(** [[0-9]+(?:\.[0-9]+)?] in front of a text that does not continue the
    number consumes the number and nothing else. *)
Lemma accept_total_number (K : str -> option A) (ip fp rest : str) :
  ip <> [] -> all_digits ip = true -> all_digits fp = true ->
  number_ends fp rest = true ->
  (forall t, K t <> None) ->
  accept TOTAL_NUMBER (number_text ip fp ++ rest) K = K rest.
Proof.
  intros Hne Hip Hfp Hend HK.
  apply andb_prop in Hend. destruct Hend as [Hnd Hnf].
  unfold TOTAL_NUMBER, number_text. rewrite accept_Cat, <- app_assoc.
  destruct fp as [|f fp].
  - cbn [app]. rewrite accept_digits; try assumption.
    + rewrite accept_Opt, accept_fraction_none by exact Hnf. reflexivity.
    + rewrite accept_Opt, accept_fraction_none by exact Hnf. apply HK.
  - assert (Hfrac : accept (Cat (lit DOT) (Plus digit))
                           ((DOT :: f :: fp) ++ rest) K = K rest).
    { unfold lit. rewrite accept_Cat. cbn [app].
      rewrite accept_Chr_cons, N.eqb_refl.
      change (f :: fp ++ rest) with ((f :: fp) ++ rest).
      apply accept_digits; try assumption; [discriminate|apply HK]. }
    assert (Hopt : accept (Opt (Cat (lit DOT) (Plus digit)))
                          ((DOT :: f :: fp) ++ rest) K = K rest).
    { rewrite accept_Opt, Hfrac. destruct (K rest) eqn:E; [reflexivity|].
      exfalso. exact (HK rest E). }
    cbn [app] in *. rewrite accept_digits; try assumption.
    cbv beta. rewrite Hopt. apply HK.
Qed.

Lemma isspace_colon : Py_UNICODE_ISSPACE COLON = false.
Proof. reflexivity. Qed.

(** [^Total\s*:\s*] in front of a text that does not start with
    whitespace consumes the label and the blanks around the colon. *)
Lemma accept_total_prefix (k : str -> option A)
      (word ws1 ws2 tail : str) :
  is_total_word word = true ->
  all_space ws1 = true -> all_space ws2 = true ->
  match tail with
  | c :: _ => Py_UNICODE_ISSPACE c = false
  | [] => True
  end ->
  (forall c t, Py_UNICODE_ISSPACE c = true -> k (c :: t) = None) ->
  accept TOTAL_PREFIX (word ++ ws1 ++ COLON :: ws2 ++ tail) k = k tail.
Proof.
  intros Hw H1 H2 Ht Hk.
  unfold is_total_word, str_eqb in Hw.
  destruct (list_eq_dec N.eq_dec (map Py_TOLOWER word) (u "total"))
    as [E|]; [clear Hw|discriminate].
  destruct word as [|c1 [|c2 [|c3 [|c4 [|c5 [|c6 word]]]]]];
    try discriminate E.
  injection E as E1 E2 E3 E4 E5.
  unfold TOTAL_PREFIX, lit_ignorecase, lit, whitespace. cbn [app].
  do 5 (rewrite accept_Cat, accept_Chr_cons).
  rewrite (@tolower_cases c1 0x74), (@tolower_cases c2 0x6F),
    (@tolower_cases c3 0x74), (@tolower_cases c4 0x61),
    (@tolower_cases c5 0x6C)
    by (try lia; apply N.eqb_eq; assumption).
  rewrite accept_Cat.
  rewrite star_chr; try assumption; try reflexivity.
  - rewrite accept_Cat, accept_Chr_cons, N.eqb_refl.
    apply star_chr; try assumption. right. exact Hk.
  - right. intros c t Hc. rewrite accept_Cat, accept_Chr_cons.
    destruct (N.eqb_spec COLON c) as [<-|]; [discriminate Hc|reflexivity].
Qed.

End TotalNumber.

Section Classifier.

Import Py Re MainWindow Spec.
Local Open Scope N_scope.

Lemma firstn_length_app {T} (l r : list T) :
  firstn (List.length (l ++ r) - List.length r) (l ++ r) = l.
Proof.
  rewrite length_app, Nat.add_sub.
  induction l as [|x l IH]; simpl; [|rewrite IH; reflexivity].
  destruct r; reflexivity.
Qed.

Lemma number_text_head (ip fp rest : str) :
  ip <> [] -> all_digits ip = true ->
  exists d t, number_text ip fp ++ rest = d :: t /\ isdigit d = true.
Proof.
  intros Hne Hip. destruct ip as [|d ip]; [congruence|].
  simpl in Hip. apply andb_prop in Hip. destruct Hip as [Hd _].
  exists d. eexists. split; [reflexivity|exact Hd].
Qed.

(** The pattern on a [Total] line: group 1 is the number. *)
Lemma total_match_number (word ws1 ws2 ip fp rest : str) :
  is_total_word word = true ->
  all_space ws1 = true -> all_space ws2 = true ->
  ip <> [] -> all_digits ip = true -> all_digits fp = true ->
  number_ends fp rest = true ->
  total_match (word ++ ws1 ++ COLON :: ws2 ++ number_text ip fp ++ rest)
  = Some (number_text ip fp).
Proof.
  intros Hw H1 H2 Hne Hip Hfp Hend.
  unfold total_match, match_group1.
  destruct (@number_text_head ip fp rest Hne Hip) as [d [t [Et Hd]]].
  rewrite accept_total_prefix; try assumption.
  - rewrite accept_total_number; try assumption; [|discriminate].
    rewrite firstn_length_app. reflexivity.
  - rewrite Et. apply digit_not_space. exact Hd.
  - intros c s Hc. unfold TOTAL_NUMBER, Plus, digit.
    rewrite !accept_Cat, accept_Chr_cons, (@space_not_digit c Hc).
    reflexivity.
Qed.

(** A line that does not start with [t] or [T] does not match. *)
Lemma total_match_other_head (c : N) (s : str) :
  c <> 0x74 -> c <> 0x54 -> total_match (c :: s) = None.
Proof.
  intros H1 H2. unfold total_match, match_group1, TOTAL_PREFIX,
                lit_ignorecase.
  rewrite accept_Cat, accept_Chr_cons.
  destruct (N.eqb_spec c 0x74); [congruence|].
  destruct (N.eqb_spec c (0x74 - 32)) as [e|]; [exfalso; exact (H2 e)|].
  reflexivity.
Qed.

Lemma total_match_empty : total_match [] = None.
Proof. reflexivity. Qed.

Lemma literal_char_ascii (c : N) :
  literal_char c = true -> (c <? 128) = true.
Proof.
  unfold literal_char, isdigit, DOT, PLUS, MINUS. intros H. nsolve.
Qed.

Lemma literal_char_not_underscore (c : N) :
  literal_char c = true -> (UNDERSCORE =? c) = false.
Proof.
  unfold literal_char, isdigit, DOT, PLUS, MINUS, UNDERSCORE. intros H.
  nsolve.
Qed.

Lemma digits_literal (ds : str) :
  all_digits ds = true -> forallb literal_char ds = true.
Proof.
  unfold all_digits. induction ds as [|d ds IH]; simpl; [reflexivity|].
  intros H. apply andb_prop in H. destruct H as [Hd H].
  unfold literal_char at 1. rewrite Hd, (IH H). reflexivity.
Qed.

Lemma literal_text_chars (sg : option bool) (ip fp : str) :
  all_digits ip = true -> all_digits fp = true ->
  forallb literal_char (sign_text sg ++ number_text ip fp) = true.
Proof.
  intros Hip Hfp. unfold number_text.
  rewrite !forallb_app, (@digits_literal ip Hip).
  assert (forallb literal_char (sign_text sg) = true) as ->
      by (destruct sg as [[]|]; reflexivity).
  destruct fp as [|f fp]; [reflexivity|].
  change (forallb literal_char (DOT :: f :: fp))
    with (literal_char DOT && forallb literal_char (f :: fp)).
  rewrite (@digits_literal (f :: fp) Hfp). reflexivity.
Qed.

Lemma forallb_impl {T} (p q : T -> bool) (l : list T) :
  (forall x, p x = true -> q x = true) ->
  forallb p l = true -> forallb q l = true.
Proof.
  intros H. induction l as [|x l IH]; simpl; [reflexivity|].
  intros Hl. apply andb_prop in Hl. destruct Hl as [Hx Hl].
  rewrite (H x Hx), (IH Hl). reflexivity.
Qed.

Lemma existsb_none {T} (p q : T -> bool) (l : list T) :
  (forall x, p x = true -> q x = false) ->
  forallb p l = true -> existsb q l = false.
Proof.
  intros H. induction l as [|x l IH]; simpl; [reflexivity|].
  intros Hl. apply andb_prop in Hl. destruct Hl as [Hx Hl].
  rewrite (H x Hx), (IH Hl). reflexivity.
Qed.

Lemma lstrip_head (p : N -> bool) (c : N) (s : str) :
  p c = false -> lstrip p (c :: s) = c :: s.
Proof. intros H. simpl. rewrite H. reflexivity. Qed.

Lemma rstrip_last (p : N -> bool) (c : N) (s : str) :
  p c = false -> rstrip p (s ++ [c]) = s ++ [c].
Proof.
  intros H. unfold rstrip. rewrite rev_app_distr. simpl. rewrite H.
  simpl. rewrite rev_involutive. reflexivity.
Qed.

Lemma digits_last (ds : str) :
  ds <> [] -> all_digits ds = true ->
  exists ds' d, ds = ds' ++ [d] /\ isdigit d = true.
Proof.
  intros Hne Hd. destruct (exists_last Hne) as [ds' [d E]].
  exists ds', d. split; [exact E|]. subst ds. unfold all_digits in Hd.
  rewrite forallb_app in Hd. apply andb_prop in Hd. destruct Hd as [_ Hd].
  simpl in Hd. rewrite andb_true_r in Hd. exact Hd.
Qed.

(** A signed decimal literal starts with a sign or a digit and ends with
    a digit. *)
Lemma literal_text_ends (sg : option bool) (ip fp : str) :
  ip <> [] -> all_digits ip = true -> all_digits fp = true ->
  exists s d, sign_text sg ++ number_text ip fp = s ++ [d]
              /\ isdigit d = true.
Proof.
  intros Hne Hip Hfp. unfold number_text.
  destruct fp as [|f fp].
  - destruct (@digits_last ip Hne Hip) as [ip' [d [E Hd]]].
    exists (sign_text sg ++ ip'), d. split; [|exact Hd].
    rewrite app_nil_r, E, app_assoc. reflexivity.
  - assert (Hn : f :: fp <> []) by discriminate.
    destruct (@digits_last (f :: fp) Hn Hfp) as [fp' [d [E Hd]]].
    exists (sign_text sg ++ ip ++ DOT :: fp'), d. split; [|exact Hd].
    rewrite E, <- !app_assoc. reflexivity.
Qed.

Lemma literal_text_starts (sg : option bool) (ip fp : str) :
  ip <> [] -> all_digits ip = true ->
  exists c s, sign_text sg ++ number_text ip fp = c :: s
              /\ (isdigit c = true \/ c = PLUS \/ c = MINUS).
Proof.
  intros Hne Hip. destruct ip as [|d ip]; [congruence|].
  simpl in Hip. apply andb_prop in Hip. destruct Hip as [Hd _].
  destruct sg as [[]|]; eexists; eexists; (split; [reflexivity|]); auto.
Qed.

Lemma parse_sign_literal (sg : option bool) (ip fp : str) :
  ip <> [] -> all_digits ip = true ->
  parse_sign (sign_text sg ++ number_text ip fp)
  = (is_minus sg, number_text ip fp).
Proof.
  intros Hne Hip. destruct sg as [[]|]; try reflexivity.
  destruct ip as [|d ip]; [congruence|].
  simpl in Hip. apply andb_prop in Hip. destruct Hip as [Hd _].
  destruct (@digit_not_sign d Hd) as [Hm Hp].
  simpl. rewrite Hm, Hp. reflexivity.
Qed.

(** [_Py_dg_strtod] reads a signed decimal literal to its end. *)
Lemma strtod_literal (sg : option bool) (ip fp : str) :
  ip <> [] -> all_digits ip = true -> all_digits fp = true ->
  strtod (sign_text sg ++ number_text ip fp)
  = Some (decimal_value (is_minus sg) ip fp, []).
Proof.
  intros Hne Hip Hfp. unfold strtod.
  rewrite parse_sign_literal by assumption. unfold number_text.
  rewrite span_app; [|exact Hip|destruct fp; [trivial|reflexivity]].
  destruct fp as [|f fp].
  - destruct ip as [|d ip]; [congruence|].
    unfold decimal_value. cbn [app parse_exponent]. reflexivity.
  - rewrite N.eqb_refl.
    rewrite <- (app_nil_r (f :: fp)) at 1.
    rewrite span_app; [|exact Hfp|trivial].
    destruct ip as [|d ip]; [congruence|].
    unfold decimal_value. cbn [app parse_exponent]. reflexivity.
Qed.

(** [float()] accepts every signed decimal literal. *)
Lemma float_of_str_literal (sg : option bool) (ip fp : str) :
  ip <> [] -> all_digits ip = true -> all_digits fp = true ->
  float_of_str (sign_text sg ++ number_text ip fp)
  = Some (decimal_value (is_minus sg) ip fp).
Proof.
  intros Hne Hip Hfp.
  pose proof (literal_text_chars sg ip fp Hip Hfp) as Hc.
  unfold float_of_str, TransformDecimalAndSpaceToASCII.
  rewrite (@forallb_impl _ _ _ _ literal_char_ascii Hc).
  rewrite (@existsb_none _ _ _ _ literal_char_not_underscore Hc).
  unfold float_from_string_inner.
  destruct (@literal_text_starts sg ip fp Hne Hip) as [c [s [Es Hs]]].
  destruct (@literal_text_ends sg ip fp Hne Hip Hfp) as [s' [d [Ee Hd]]].
  assert (Hcs : Py_ISSPACE c = false).
  { destruct Hs as [Hs|[->| ->]]; [|reflexivity|reflexivity].
    apply digit_not_c_space. exact Hs. }
  rewrite Es, (@lstrip_head _ _ _ Hcs), <- Es, Ee.
  rewrite (@rstrip_last _ _ _ (@digit_not_c_space d Hd)), <- Ee.
  unfold string_to_double. rewrite strtod_literal by assumption.
  reflexivity.
Qed.

(** [str.strip()] leaves a signed decimal literal as it is. *)
Lemma strip_literal (sg : option bool) (ip fp : str) :
  ip <> [] -> all_digits ip = true -> all_digits fp = true ->
  strip (sign_text sg ++ number_text ip fp)
  = sign_text sg ++ number_text ip fp.
Proof.
  intros Hne Hip Hfp. unfold strip.
  destruct (@literal_text_starts sg ip fp Hne Hip) as [c [s [Es Hs]]].
  destruct (@literal_text_ends sg ip fp Hne Hip Hfp) as [s' [d [Ee Hd]]].
  assert (Hcs : Py_UNICODE_ISSPACE c = false).
  { destruct Hs as [Hs|[->| ->]]; [|reflexivity|reflexivity].
    apply digit_not_space. exact Hs. }
  rewrite Es, (@lstrip_head _ _ _ Hcs), <- Es, Ee.
  apply rstrip_last. apply digit_not_space. exact Hd.
Qed.

(** A [Total] line carries its number to [append_data_point]. *)
Lemma line_value_total (word ws1 ws2 ip fp rest : str) :
  is_total_word word = true ->
  all_space ws1 = true -> all_space ws2 = true ->
  ip <> [] -> all_digits ip = true -> all_digits fp = true ->
  number_ends fp rest = true ->
  line_value (word ++ ws1 ++ COLON :: ws2 ++ number_text ip fp ++ rest)
  = Some (decimal_value false ip fp).
Proof.
  intros Hw H1 H2 Hne Hip Hfp Hend. unfold line_value.
  rewrite total_match_number by assumption.
  pose proof (@float_of_str_literal None ip fp Hne Hip Hfp) as E.
  cbn [sign_text app is_minus] in E. rewrite E. reflexivity.
Qed.

(** A bare signed decimal carries its value to [append_data_point]. *)
Lemma line_value_bare (sg : option bool) (ip fp : str) :
  ip <> [] -> all_digits ip = true -> all_digits fp = true ->
  line_value (sign_text sg ++ number_text ip fp)
  = Some (decimal_value (is_minus sg) ip fp).
Proof.
  intros Hne Hip Hfp. unfold line_value.
  destruct (@literal_text_starts sg ip fp Hne Hip) as [c [s [Es Hs]]].
  assert (Hm : total_match (sign_text sg ++ number_text ip fp) = None).
  { rewrite Es. apply total_match_other_head.
    - destruct Hs as [Hs|[->| ->]]; try discriminate.
      intros ->. discriminate Hs.
    - destruct Hs as [Hs|[->| ->]]; try discriminate.
      intros ->. discriminate Hs. }
  rewrite Hm, strip_literal by assumption.
  apply float_of_str_literal; assumption.
Qed.

End Classifier.

Section ClassifierComplete.

Import Py Re MainWindow Spec.
Local Open Scope N_scope.

Lemma span_decompose (p : N -> bool) (s : str) :
  s = fst (span p s) ++ snd (span p s)
  /\ forallb p (fst (span p s)) = true
  /\ match snd (span p s) with c :: _ => p c = false | [] => True end.
Proof.
  induction s as [|c s IH]; simpl; [repeat split|].
  destruct (p c) eqn:E.
  - destruct (span p s) as [h t]. simpl in *. destruct IH as [E1 [E2 E3]].
    rewrite E, E2. repeat split; [f_equal; exact E1|exact E3].
  - simpl. repeat split. exact E.
Qed.

(** A greedy run followed by a continuation that cannot succeed inside
    the run, or succeeds right after it, on any text. *)
Lemma star_chr_span {A} (p : N -> bool) (k : str -> option A) (s : str) :
  k (snd (span p s)) <> None
  \/ (forall c t, p c = true -> k (c :: t) = None) ->
  accept (Star (Chr p)) s k = k (snd (span p s)).
Proof.
  intros Hk. destruct (span_decompose p s) as [E [H1 H2]].
  rewrite E at 1. apply star_chr; assumption.
Qed.

(** What [[0-9]+] takes from any text. *)
Lemma accept_digits_any {A} (K : str -> option A) (s : str) :
  (forall t, K t <> None) ->
  accept (Plus digit) s K
  = match s with
    | d :: s1 => if isdigit d then K (snd (span isdigit s1)) else None
    | [] => None
    end.
Proof.
  intros HK. unfold Plus, digit. rewrite accept_Cat.
  destruct s as [|d s1]; [reflexivity|].
  rewrite accept_Chr_cons. destruct (isdigit d); [|reflexivity].
  apply star_chr_span. left. apply HK.
Qed.

Lemma digits_span_shape (d : N) (s1 : str) :
  isdigit d = true ->
  d :: s1 = (d :: fst (span isdigit s1)) ++ snd (span isdigit s1)
  /\ all_digits (d :: fst (span isdigit s1)) = true.
Proof.
  intros Hd. destruct (span_decompose isdigit s1) as [E [H _]].
  split; [simpl; f_equal; exact E|]. simpl. rewrite Hd. exact H.
Qed.

(** What the number part of the pattern takes from any text: a decimal
    literal, and the continuation runs on what follows it. *)
Lemma accept_total_number_any {A} (K : str -> option A) (s : str) (x : A) :
  (forall t, K t <> None) ->
  accept TOTAL_NUMBER s K = Some x ->
  exists ip fp rest,
    s = number_text ip fp ++ rest /\ ip <> [] /\ all_digits ip = true
    /\ all_digits fp = true /\ K rest = Some x.
Proof.
  intros HK. unfold TOTAL_NUMBER. rewrite accept_Cat.
  set (F := Cat (lit DOT) (Plus digit)).
  assert (HK' : forall t, accept (Opt F) t K <> None).
  { intros t. rewrite accept_Opt. destruct (accept F t K); [discriminate|].
    apply HK. }
  rewrite (accept_digits_any (fun s' => accept (Opt F) s' K) s HK').
  destruct s as [|d s1]; [discriminate|].
  destruct (isdigit d) eqn:Hd; [|discriminate].
  destruct (digits_span_shape d s1 Hd) as [E1 Hip].
  set (ip := d :: fst (span isdigit s1)) in *.
  set (s2 := snd (span isdigit s1)) in *.
  assert (Hplain : K s2 = Some x ->
                   exists ip fp rest,
                     d :: s1 = number_text ip fp ++ rest /\ ip <> []
                     /\ all_digits ip = true /\ all_digits fp = true
                     /\ K rest = Some x).
  { intros Hx. exists ip, [], s2. unfold number_text. rewrite app_nil_r.
    repeat split; try assumption. discriminate. }
  rewrite accept_Opt. unfold F, lit. rewrite accept_Cat.
  destruct s2 as [|c s3] eqn:Es2; [exact Hplain|].
  rewrite accept_Chr_cons. destruct (N.eqb_spec DOT c) as [<-|]; [|exact Hplain].
  rewrite (accept_digits_any K s3 HK).
  destruct s3 as [|f s4]; [exact Hplain|].
  destruct (isdigit f) eqn:Hf; [|exact Hplain].
  destruct (digits_span_shape f s4 Hf) as [E4 Hfp].
  destruct (K (snd (span isdigit s4))) as [y|] eqn:Ey;
    [|exfalso; exact (HK _ Ey)].
  intros Hx. injection Hx as <-.
  exists ip, (f :: fst (span isdigit s4)), (snd (span isdigit s4)).
  split; [|split; [discriminate|split; [exact Hip|split; [exact Hfp|exact Ey]]]].
  unfold number_text. rewrite E1, E4, <- !app_assoc. reflexivity.
Qed.

(** What [^Total\s*:\s*] takes from any text: when the continuation
    refuses leading whitespace, it runs on what follows the label, the
    colon and the blanks. *)
Lemma accept_total_prefix_any {A} (k : str -> option A) (line : str) (x : A) :
  (forall c t, Py_UNICODE_ISSPACE c = true -> k (c :: t) = None) ->
  accept TOTAL_PREFIX line k = Some x ->
  exists word ws1 ws2 tail,
    line = word ++ ws1 ++ COLON :: ws2 ++ tail
    /\ is_total_word word = true
    /\ all_space ws1 = true /\ all_space ws2 = true
    /\ k tail = Some x.
Proof.
  intros Hk. unfold TOTAL_PREFIX, lit_ignorecase, lit, whitespace.
  destruct line as [|c1 line]; rewrite accept_Cat; [discriminate|].
  rewrite accept_Chr_cons.
  destruct ((c1 =? 116) || (c1 =? 116 - 32)) eqn:E1; [|discriminate].
  destruct line as [|c2 line]; rewrite accept_Cat; [discriminate|].
  rewrite accept_Chr_cons.
  destruct ((c2 =? 111) || (c2 =? 111 - 32)) eqn:E2; [|discriminate].
  destruct line as [|c3 line]; rewrite accept_Cat; [discriminate|].
  rewrite accept_Chr_cons.
  destruct ((c3 =? 116) || (c3 =? 116 - 32)) eqn:E3; [|discriminate].
  destruct line as [|c4 line]; rewrite accept_Cat; [discriminate|].
  rewrite accept_Chr_cons.
  destruct ((c4 =? 97) || (c4 =? 97 - 32)) eqn:E4; [|discriminate].
  destruct line as [|c5 s]; rewrite accept_Cat; [discriminate|].
  rewrite accept_Chr_cons.
  destruct ((c5 =? 108) || (c5 =? 108 - 32)) eqn:E5; [|discriminate].
  rewrite accept_Cat, star_chr_span.
  2:{ right. intros c t Hc. rewrite accept_Cat, accept_Chr_cons.
      destruct (N.eqb_spec COLON c) as [<-|]; [discriminate Hc|].
      reflexivity. }
  destruct (span_decompose Py_UNICODE_ISSPACE s) as [Es [Hw1 _]].
  destruct (snd (span Py_UNICODE_ISSPACE s)) as [|c s1] eqn:Et;
    rewrite accept_Cat; [discriminate|].
  rewrite accept_Chr_cons.
  destruct (N.eqb_spec COLON c) as [<-|]; [|discriminate].
  rewrite star_chr_span by (right; exact Hk).
  destruct (span_decompose Py_UNICODE_ISSPACE s1) as [Es1 [Hw2 _]].
  intros Hx.
  exists [c1; c2; c3; c4; c5], (fst (span Py_UNICODE_ISSPACE s)),
    (fst (span Py_UNICODE_ISSPACE s1)), (snd (span Py_UNICODE_ISSPACE s1)).
  split; [|split; [|split; [exact Hw1|split; [exact Hw2|exact Hx]]]].
  - cbn [app]. do 5 f_equal. rewrite Es at 1. f_equal. f_equal. exact Es1.
  - unfold is_total_word, str_eqb.
    destruct (list_eq_dec N.eq_dec (map Py_TOLOWER [c1; c2; c3; c4; c5])
                          (u "total")) as [|Hn]; [reflexivity|].
    exfalso. apply Hn. cbn [map]. unfold Py_TOLOWER.
    repeat match goal with
           | H : (_ || _) = true |- _ =>
             apply orb_prop in H; destruct H as [H|H];
             apply N.eqb_eq in H; subst
           end; reflexivity.
Qed.

Lemma total_number_refuses_space {A} (K : str -> option A) (c : N)
      (t : str) :
  Py_UNICODE_ISSPACE c = true -> accept TOTAL_NUMBER (c :: t) K = None.
Proof.
  intros Hc. unfold TOTAL_NUMBER, Plus, digit.
  rewrite !accept_Cat, accept_Chr_cons, (@space_not_digit c Hc).
  reflexivity.
Qed.

(** Whenever the pattern matches, the line is a [Total] line and group 1
    is its unsigned decimal literal. *)
Lemma total_match_inv (line g : str) :
  total_match line = Some g ->
  exists word ws1 ws2 ip fp rest,
    line = word ++ ws1 ++ COLON :: ws2 ++ number_text ip fp ++ rest
    /\ is_total_word word = true
    /\ all_space ws1 = true /\ all_space ws2 = true
    /\ ip <> [] /\ all_digits ip = true /\ all_digits fp = true
    /\ g = number_text ip fp.
Proof.
  unfold total_match, match_group1. intros H.
  apply accept_total_prefix_any in H;
    [|intros c t Hc; apply total_number_refuses_space; exact Hc].
  destruct H as [word [ws1 [ws2 [tail [El [Hw [H1 [H2 H]]]]]]]].
  apply accept_total_number_any in H; [|discriminate].
  destruct H as [ip [fp [rest [Et [Hne [Hip [Hfp Hg]]]]]]].
  exists word, ws1, ws2, ip, fp, rest.
  repeat split; try assumption.
  - rewrite El, Et. reflexivity.
  - injection Hg as <-. rewrite Et. apply firstn_length_app.
Qed.

(** The [except ValueError] of the [Total] attempt is never taken: the
    text of group 1 always converts. *)
Lemma total_match_value (line g : str) :
  total_match line = Some g ->
  exists ip fp,
    g = number_text ip fp /\ ip <> [] /\ all_digits ip = true
    /\ all_digits fp = true
    /\ float_of_str g = Some (decimal_value false ip fp)
    /\ line_value line = Some (decimal_value false ip fp).
Proof.
  intros Hm. destruct (@total_match_inv line g Hm)
    as [_ [_ [_ [ip [fp [_ [_ [_ [_ [_ [Hne [Hip [Hfp Eg]]]]]]]]]]]]].
  pose proof (@float_of_str_literal None ip fp Hne Hip Hfp) as E.
  cbn [sign_text app is_minus] in E.
  exists ip, fp. repeat split; try assumption.
  - rewrite Eg. exact E.
  - unfold line_value. rewrite Hm, Eg, E. reflexivity.
Qed.

Lemma is_plain_decimal_literal (sg : option bool) (ip fp : str) :
  ip <> [] -> all_digits ip = true -> all_digits fp = true ->
  is_plain_decimal (sign_text sg ++ number_text ip fp) = true.
Proof.
  intros Hne Hip Hfp. unfold is_plain_decimal.
  rewrite parse_sign_literal by assumption. unfold number_text.
  rewrite span_app; [|exact Hip|destruct fp; [trivial|reflexivity]].
  destruct ip as [|d ip]; [congruence|].
  destruct fp as [|f fp]; [reflexivity|].
  rewrite N.eqb_refl, Hfp. reflexivity.
Qed.

End ClassifierComplete.

(** ** Further properties of [on_serial_line] *)

(** A [Total] line (the label in any letter case, blanks around the colon,
    an unsigned decimal, then any text that does not continue the number)
    is handed to [append_data_point] with the binary64 value of the
    decimal; nothing is logged. *)
Theorem on_serial_line_total
        (clock : float) (w : MainWindow.t)
        (word ws1 ws2 ip fp rest : Py.str) :
  Spec.is_total_word word = true ->
  Spec.all_space ws1 = true -> Spec.all_space ws2 = true ->
  ip <> [] -> Spec.all_digits ip = true -> Spec.all_digits fp = true ->
  Spec.number_ends fp rest = true ->
  MainWindow.on_serial_line clock
    (word ++ ws1 ++ Py.COLON :: ws2 ++ Spec.number_text ip fp ++ rest) w
  = MainWindow.append_data_point clock (Spec.decimal_value false ip fp) w.
Proof.
  intros Hw H1 H2 Hne Hip Hfp Hend. unfold MainWindow.on_serial_line.
  rewrite line_value_total by assumption. reflexivity.
Qed.

Lemma on_serial_line_total_with_unit :
  MainWindow.on_serial_line 1.0%float (Py.u "total : 180.5 dip")
    (MainWindow.init 0.0%float)
  = MainWindow.append_data_point 1.0%float 180.5%float
      (MainWindow.init 0.0%float).
Proof.
  apply (@on_serial_line_total 1.0%float (MainWindow.init 0.0%float)
           (Py.u "total") (Py.u " ") (Py.u " ") (Py.u "180") (Py.u "5")
           (Py.u " dip")); try reflexivity.
  discriminate.
Defined.

(** Whenever the pattern of [on_serial_line] matches, the line has the
    [Total] form and group 1 is its unsigned decimal, which [float()]
    always converts: the [except ValueError] of the first attempt is never
    taken. *)
Theorem total_match_never_raises (line g : Py.str) :
  MainWindow.total_match line = Some g ->
  exists word ws1 ws2 ip fp rest,
    line = word ++ ws1 ++ Py.COLON :: ws2 ++ Spec.number_text ip fp ++ rest
    /\ Spec.is_total_word word = true
    /\ Spec.all_space ws1 = true /\ Spec.all_space ws2 = true
    /\ ip <> [] /\ Spec.all_digits ip = true /\ Spec.all_digits fp = true
    /\ g = Spec.number_text ip fp
    /\ Py.float_of_str g = Some (Spec.decimal_value false ip fp).
Proof.
  intros Hm. destruct (@total_match_inv line g Hm)
    as [word [ws1 [ws2 [ip [fp [rest [El [Hw [H1 [H2 [Hne [Hip [Hfp Eg]]]]]]]]]]]]].
  exists word, ws1, ws2, ip, fp, rest. repeat split; try assumption.
  pose proof (@float_of_str_literal None ip fp Hne Hip Hfp) as E.
  cbn [Spec.sign_text app Spec.is_minus] in E. rewrite Eg. exact E.
Qed.

Lemma total_match_never_raises_on_units :
  exists word ws1 ws2 ip fp rest,
    Py.u "Total: 1.5 units"
    = word ++ ws1 ++ Py.COLON :: ws2 ++ Spec.number_text ip fp ++ rest
    /\ Spec.is_total_word word = true
    /\ Spec.all_space ws1 = true /\ Spec.all_space ws2 = true
    /\ ip <> [] /\ Spec.all_digits ip = true /\ Spec.all_digits fp = true
    /\ Py.u "1.5" = Spec.number_text ip fp
    /\ Py.float_of_str (Py.u "1.5") = Some (Spec.decimal_value false ip fp).
Proof.
  apply (@total_match_never_raises (Py.u "Total: 1.5 units") (Py.u "1.5")).
  vm_compute. reflexivity.
Defined.

(** A line that is a decimal number, with or without sign, is handed to
    [append_data_point] with its binary64 value. *)
Theorem on_serial_line_bare_decimal
        (clock : float) (w : MainWindow.t) (sg : option bool)
        (ip fp : Py.str) :
  ip <> [] -> Spec.all_digits ip = true -> Spec.all_digits fp = true ->
  MainWindow.on_serial_line clock
    (Spec.sign_text sg ++ Spec.number_text ip fp) w
  = MainWindow.append_data_point clock
      (Spec.decimal_value (Spec.is_minus sg) ip fp) w.
Proof.
  intros Hne Hip Hfp. unfold MainWindow.on_serial_line.
  rewrite line_value_bare by assumption. reflexivity.
Qed.

Lemma on_serial_line_negative_reading :
  MainWindow.on_serial_line 1.0%float (Py.u "-12.25")
    (MainWindow.init 0.0%float)
  = MainWindow.append_data_point 1.0%float (-12.25)%float
      (MainWindow.init 0.0%float).
Proof.
  apply (@on_serial_line_bare_decimal 1.0%float (MainWindow.init 0.0%float)
           (Some true) (Py.u "12") (Py.u "25")); try reflexivity.
  discriminate.
Defined.

Section NonFinite.

Import Py Spec.
Local Open Scope N_scope.

Lemma tolower_two_cases (c x : N) :
  97 <= x -> x <= 122 -> Py_TOLOWER c = x -> c = x \/ c = x - 32.
Proof.
  intros H1 H2 H. apply N.eqb_eq in H.
  apply (@tolower_cases c x H1 H2) in H. apply orb_prop in H.
  destruct H as [H|H]; apply N.eqb_eq in H; auto.
Qed.

End NonFinite.

(** The two ASCII spellings of a letter whose lower case is known. *)
Ltac spelling H :=
  apply tolower_two_cases in H; [destruct H as [H|H]; subst|lia|lia].

(** A line that spells [inf], [infinity] or [nan] in any letter case,
    with or without sign, is not logged: [float()] accepts it and
    [append_data_point] receives an infinity or a NaN. *)
Theorem on_serial_line_inf_nan
        (clock : float) (w : MainWindow.t) (sg : option bool)
        (word : Py.str) :
  (map Py.Py_TOLOWER word = Py.u "inf"
   \/ map Py.Py_TOLOWER word = Py.u "infinity" ->
   MainWindow.on_serial_line clock (Spec.sign_text sg ++ word) w
   = MainWindow.append_data_point clock
       (if Spec.is_minus sg then neg_infinity else infinity) w)
  /\ (map Py.Py_TOLOWER word = Py.u "nan" ->
      MainWindow.on_serial_line clock (Spec.sign_text sg ++ word) w
      = MainWindow.append_data_point clock nan w).
Proof.
  unfold MainWindow.on_serial_line. split.
  - intros [H|H].
    + destruct word as [|c1 [|c2 [|c3 [|c4 word]]]]; try discriminate H.
      injection H as H1 H2 H3. spelling H1; spelling H2; spelling H3;
        destruct sg as [[]|]; reflexivity.
    + destruct word as [|c1 [|c2 [|c3 [|c4 [|c5 [|c6 [|c7 [|c8 [|c9 word]]]]]]]]];
        try discriminate H.
      injection H as H1 H2 H3 H4 H5 H6 H7 H8.
      spelling H1; spelling H2; spelling H3; spelling H4; spelling H5;
        spelling H6; spelling H7; spelling H8;
        destruct sg as [[]|]; vm_compute; reflexivity.
  - intros H.
    destruct word as [|c1 [|c2 [|c3 [|c4 word]]]]; try discriminate H.
    injection H as H1 H2 H3. spelling H1; spelling H2; spelling H3;
      destruct sg as [[]|]; reflexivity.
Qed.

Section LogLines.

Import Py Spec.
Local Open Scope N_scope.

Lemma lstrip_keeps_last (p : N -> bool) (l : str) (c : N) :
  p c = false -> exists l', lstrip p (l ++ [c]) = l' ++ [c].
Proof.
  intros Hc. induction l as [|x l IH]; simpl.
  - rewrite Hc. exists []. reflexivity.
  - destruct (p x); [exact IH|]. exists (x :: l). reflexivity.
Qed.

(** Stripping on the right keeps a first character that is not blank. *)
Lemma rstrip_keeps_head (p : N -> bool) (c : N) (t : str) :
  p c = false -> exists t', rstrip p (c :: t) = c :: t'.
Proof.
  intros Hc. unfold rstrip. simpl rev.
  destruct (lstrip_keeps_last p (rev t) c Hc) as [l' E].
  rewrite E, rev_app_distr. exists (rev l'). reflexivity.
Qed.

Lemma c_space_is_space (c : N) :
  Py_UNICODE_ISSPACE c = false -> Py_ISSPACE c = false.
Proof. unfold Py_UNICODE_ISSPACE, Py_ISSPACE. intros H. nsolve. Qed.

Lemma may_start_float_false (c : N) :
  may_start_float c = false ->
  isdigit c = false /\ (c =? PLUS) = false /\ (c =? MINUS) = false
  /\ (c =? DOT) = false /\ (Py_TOLOWER c =? 0x69) = false
  /\ (Py_TOLOWER c =? 0x6E) = false.
Proof.
  unfold may_start_float. intros H.
  repeat (apply orb_false_elim in H; destruct H as [H ?]).
  repeat split; assumption.
Qed.

(** Neither a decimal literal nor [inf] or [nan] starts with such a
    character. *)
Lemma string_to_double_other_head (c : N) (t : str) :
  may_start_float c = false -> string_to_double (c :: t) = None.
Proof.
  intros H. destruct (may_start_float_false c H)
    as [Hd [Hp [Hm [Hdot [Hi Hn]]]]].
  unfold string_to_double, strtod, parse_inf_or_nan.
  cbn [parse_sign]. rewrite Hm, Hp. cbn [span]. rewrite Hd, Hdot.
  cbn [app case_insensitive_match u map list_byte_of_string].
  simpl. rewrite Hi, Hn. reflexivity.
Qed.

Lemma float_from_string_inner_other_head (c : N) (t : str) :
  Py_ISSPACE c = false -> may_start_float c = false ->
  float_from_string_inner (c :: t) = None.
Proof.
  intros Hs H. unfold float_from_string_inner.
  rewrite (@lstrip_head _ _ _ Hs).
  destruct (rstrip_keeps_head Py_ISSPACE c t Hs) as [t' ->].
  rewrite string_to_double_other_head by exact H. reflexivity.
Qed.

Lemma remove_underscores_head (c : N) (t d : str) :
  (c =? UNDERSCORE) = false ->
  remove_underscores 0 (c :: t) = Some d -> exists d', d = c :: d'.
Proof.
  intros Hc. cbn [remove_underscores]. rewrite Hc.
  change (0 =? UNDERSCORE) with false. cbn [andb].
  destruct (remove_underscores c t) as [d'|]; [|discriminate].
  simpl. intros E. injection E as <-. exists d'. reflexivity.
Qed.

Lemma transform_head (c : N) (s : str) :
  (c <? 127) = true ->
  exists s', TransformDecimalAndSpaceToASCII (c :: s) = c :: s'.
Proof.
  intros Hc. unfold TransformDecimalAndSpaceToASCII.
  destruct (forallb _ (c :: s)); [exists s; reflexivity|].
  cbn [transform_loop]. rewrite Hc. eexists. reflexivity.
Qed.

(** [float()] raises on every text that starts with such a character. *)
Lemma float_of_str_other_head (c : N) (s : str) :
  (c <? 127) = true -> Py_ISSPACE c = false ->
  (c =? UNDERSCORE) = false -> may_start_float c = false ->
  float_of_str (c :: s) = None.
Proof.
  intros Ha Hs Hu H. unfold float_of_str.
  destruct (transform_head c s Ha) as [s' ->].
  destruct (existsb _ (c :: s')).
  - destruct (remove_underscores 0 (c :: s')) as [d|] eqn:E; [|reflexivity].
    destruct (remove_underscores_head c s' Hu E) as [d' ->].
    apply float_from_string_inner_other_head; assumption.
  - apply float_from_string_inner_other_head; assumption.
Qed.

End LogLines.

Section LogBlocks.

Import Py MainWindow Spec.

Lemma blocks_from_one_block (text : str) :
  one_block text ->
  forall current, blocks_from current text = [current ++ text].
Proof.
  unfold one_block. induction text as [|c text IH]; intros H current.
  - cbn. rewrite app_nil_r. reflexivity.
  - cbn [forallb] in H. apply andb_prop in H. destruct H as [Hc H].
    apply negb_true_iff in Hc. cbn [blocks_from].
    assert (Hcr : (c =? 13)%N = false).
    { unfold is_block_separator in Hc.
      do 3 (apply orb_false_elim in Hc; destruct Hc as [Hc _]).
      apply orb_false_elim in Hc. destruct Hc as [_ Hc]. exact Hc. }
    rewrite Hcr, Hc, (IH H), <- app_assoc. reflexivity.
Qed.

Lemma appendPlainText_length (text : str) (blocks : list str) :
  (List.length (appendPlainText text blocks) <= LOG_MAXIMUM_BLOCK_COUNT)%nat.
Proof. unfold appendPlainText. rewrite length_skipn. lia. Qed.

Lemma appendPlainText_one_block (text : str) (blocks : list str) :
  one_block text ->
  appendPlainText text blocks
  = keep_last LOG_MAXIMUM_BLOCK_COUNT (document blocks ++ [text]).
Proof.
  intros H. unfold appendPlainText, keep_last, document.
  rewrite (blocks_from_one_block H []). cbn [app].
  destruct blocks as [|[|c0 b0] [|b1 bs]]; reflexivity.
Qed.

End LogBlocks.

(** A line that does not match the [Total] pattern and starts with an
    ASCII character no number can start with (not a digit, sign, point,
    underscore, blank, nor [i], [n] in either case) goes to the log by
    [appendPlainText]; the plot data are not touched.  The log then holds
    at most 500 blocks; a line without block separators is its last block,
    unchanged, behind the blocks that were there, of which the oldest are
    dropped beyond 500. *)
Theorem on_serial_line_logs_text
        (clock : float) (w : MainWindow.t) (c : N) (s : Py.str) :
  (c <? 127)%N = true ->
  Py.Py_UNICODE_ISSPACE c = false ->
  (c =? Py.UNDERSCORE)%N = false ->
  Spec.may_start_float c = false ->
  MainWindow.total_match (c :: s) = None ->
  exists blocks,
    MainWindow.on_serial_line clock (c :: s) w
    = inr (MainWindow.mk (MainWindow.serial w) (MainWindow.seconds_window w)
             (MainWindow.x_times w) (MainWindow.y_vals w) (MainWindow.t0 w)
             blocks)
    /\ blocks = MainWindow.appendPlainText (c :: s) (MainWindow.log w)
    /\ (List.length blocks <= 500)%nat
    /\ (Spec.one_block (c :: s) ->
        blocks = Spec.keep_last 500
                   (Spec.document (MainWindow.log w) ++ [c :: s])).
Proof.
  intros Ha Hs Hu Hf Hm. eexists. split; [|split; [reflexivity|split]].
  - unfold MainWindow.on_serial_line, MainWindow.line_value. rewrite Hm.
    unfold Py.strip. rewrite (@lstrip_head _ _ _ Hs).
    destruct (rstrip_keeps_head Py.Py_UNICODE_ISSPACE c s Hs) as [t' ->].
    rewrite float_of_str_other_head; try assumption; [reflexivity|].
    apply c_space_is_space. exact Hs.
  - apply appendPlainText_length.
  - intros H. apply appendPlainText_one_block. exact H.
Qed.

(** A full log: the new line pushes the oldest block out. *)
Lemma on_serial_line_logs_status_line :
  let w := MainWindow.mk (SerialManager.init SerialManager.DEFAULT_BAUD)
             30.0%float (Deque.new 1000) (Deque.new 1000) 0.0%float
             (Py.u "first" :: repeat (Py.u "ok") 499) in
  exists blocks,
    MainWindow.on_serial_line 1.0%float (Py.u "Transit of b: 12 %") w
    = inr (MainWindow.mk (MainWindow.serial w) 30.0%float
             (Deque.new 1000) (Deque.new 1000) 0.0%float blocks)
    /\ blocks = MainWindow.appendPlainText (Py.u "Transit of b: 12 %")
                  (MainWindow.log w)
    /\ (List.length blocks <= 500)%nat
    /\ (Spec.one_block (Py.u "Transit of b: 12 %") ->
        blocks = repeat (Py.u "ok") 499 ++ [Py.u "Transit of b: 12 %"]).
Proof.
  intros w.
  apply (@on_serial_line_logs_text 1.0%float w 0x54%N
           (Py.u "ransit of b: 12 %")); reflexivity.
Defined.

Lemma on_serial_line_minus_infinity :
  MainWindow.on_serial_line 1.0%float (Py.u "-Infinity")
    (MainWindow.init 0.0%float)
  = MainWindow.append_data_point 1.0%float neg_infinity
      (MainWindow.init 0.0%float).
Proof.
  apply (proj1 (@on_serial_line_inf_nan 1.0%float (MainWindow.init 0.0%float)
                  (Some true) (Py.u "Infinity"))).
  right. reflexivity.
Defined.

(** ** Further properties of the byte framer *)

Section Trimmed.

Import Py.

Lemma lstrip_head_cases (p : N -> bool) (s : str) :
  match lstrip p s with c :: _ => p c = false | [] => True end.
Proof.
  induction s as [|c s IH]; simpl; [trivial|].
  destruct (p c) eqn:E; [exact IH|exact E].
Qed.

Lemma rstrip_head_cases (p : N -> bool) (s : str) :
  match s with c :: _ => p c = false | [] => True end ->
  match rstrip p s with c :: _ => p c = false | [] => True end.
Proof.
  destruct s as [|c t]; [intros _; reflexivity|]. intros Hc.
  destruct (rstrip_keeps_head p c t Hc) as [t' ->]. exact Hc.
Qed.

Lemma rstrip_last_cases (p : N -> bool) (s : str) :
  match rev (rstrip p s) with c :: _ => p c = false | [] => True end.
Proof.
  unfold rstrip. rewrite rev_involutive. apply lstrip_head_cases.
Qed.

Lemma rstrip_noop (p : N -> bool) (s : str) :
  match rev s with c :: _ => p c = false | [] => True end ->
  rstrip p s = s.
Proof.
  unfold rstrip. destruct (rev s) as [|c t] eqn:E.
  - intros _. apply (f_equal (@rev N)) in E. rewrite rev_involutive in E.
    subst s. reflexivity.
  - intros Hc. simpl. rewrite Hc, <- E. apply rev_involutive.
Qed.

Lemma lstrip_noop (p : N -> bool) (s : str) :
  match s with c :: _ => p c = false | [] => True end -> lstrip p s = s.
Proof. destruct s as [|c t]; simpl; [reflexivity|]. intros ->. reflexivity. Qed.

(** [s.strip().strip() == s.strip()] *)
Lemma strip_idempotent (s : str) : strip (strip s) = strip s.
Proof.
  unfold strip at 1.
  rewrite lstrip_noop.
  - apply rstrip_noop. unfold strip. apply rstrip_last_cases.
  - unfold strip. apply rstrip_head_cases. apply lstrip_head_cases.
Qed.

End Trimmed.

(** Every line [_poll_serial] emits is non-empty and already stripped, so
    the [line.strip()] of [on_serial_line] returns it unchanged. *)
Theorem emitted_lines_are_trimmed
        (buf data : Py.bytes) (line : Py.str) :
  In line (fst (SerialManager.feed buf data)) ->
  line <> [] /\ Py.strip line = line.
Proof.
  unfold SerialManager.feed.
  destruct data as [|d0 data]; [intros []|].
  rewrite drain_split_LF. cbn [fst]. intros H.
  apply in_flat_map in H. destruct H as [run [_ H]].
  unfold SerialManager.emit_line, SerialManager.decoded_line in H.
  destruct (Py.strip (Py.decode_utf8_replace run)) as [|c t] eqn:E;
    [destruct H|].
  destruct H as [<-|[]]. split; [discriminate|].
  rewrite <- E. apply strip_idempotent.
Qed.

Lemma emitted_lines_are_trimmed_example :
  Py.u "Total: 7" <> [] /\ Py.strip (Py.u "Total: 7") = Py.u "Total: 7".
Proof.
  apply (@emitted_lines_are_trimmed (Py.b "  Tot")
           (Py.b "al: 7 " ++ [Py.LF]) (Py.u "Total: 7")).
  vm_compute. left. reflexivity.
Defined.

(** ** Invariants of the serial manager *)

Section ManagerInvariants.

Import Py SerialManager Spec.

Lemma send_line_state (wr : write_outcome) (text : str) (m : t) :
  snd (fst (send_line wr text m)) = m.
Proof.
  unfold send_line. destruct (negb (is_connected m)); [reflexivity|].
  destruct (encode_utf8 _); [|reflexivity]. destruct wr; reflexivity.
Qed.

Lemma on_serial_line_serial (clock : float) (line : str)
      (w w' : MainWindow.t) :
  MainWindow.on_serial_line clock line w = inr w' ->
  MainWindow.serial w' = MainWindow.serial w.
Proof.
  unfold MainWindow.on_serial_line, MainWindow.append_data_point.
  destruct (MainWindow.line_value line).
  - destruct (MainWindow.trim_old _ _ _ _) as [e|[xs ys]]; [discriminate|].
    intros H. injection H as <-. reflexivity.
  - intros H. injection H as <-. reflexivity.
Qed.

(** A property of the manager that [__init__] establishes and that
    [disconnect], [connect] and [_poll_serial] keep holds in every state
    the window can reach. *)
Lemma reachable_manager (P : t -> Prop) :
  P (init DEFAULT_BAUD) ->
  (forall m, P m -> P (fst (fst (disconnect m)))) ->
  (forall o p m, P m -> P (snd (fst (fst (connect o p m))))) ->
  (forall rd m, P m -> P (fst (fst (_poll_serial rd m)))) ->
  forall w, reachable w -> P (MainWindow.serial w).
Proof.
  intros Hinit Hdis Hcon Hpoll w [actions [clock0 Hrun]].
  assert (H0 : P (MainWindow.serial (MainWindow.init clock0))) by exact Hinit.
  revert Hrun H0. generalize (MainWindow.init clock0) as w0.
  induction actions as [|a rest IH]; intros w0 Hrun H0; simpl in Hrun.
  - injection Hrun as <-. exact H0.
  - destruct (step a w0) as [e|w1] eqn:Es; [discriminate|].
    apply (IH w1 Hrun). clear IH Hrun.
    destruct a as [clock line|seconds|clock pt o wr|rd]; simpl in Es.
    + rewrite (on_serial_line_serial _ _ _ Es). exact H0.
    + injection Es as <-. exact H0.
    + injection Es as <-. unfold MainWindow.toggle_connect.
      destruct (is_connected (MainWindow.serial w0)).
      * pose proof (Hdis _ H0) as H.
        destruct (disconnect (MainWindow.serial w0)) as [[m s] i]. exact H.
      * destruct (_ || _); [exact H0|].
        pose proof (Hcon o (strip pt) _ H0) as H.
        destruct (connect o (strip pt) (MainWindow.serial w0))
          as [[[ok m] s] i].
        cbn [fst snd] in H. destruct ok; [|exact H].
        pose proof (send_line_state wr (u "HELP") m) as E.
        destruct (send_line wr (u "HELP") m) as [[r m'] i'].
        cbn [fst snd] in E. subst m'. exact H.
    + injection Es as <-. apply Hpoll. exact H0.
Qed.

End ManagerInvariants.

(** In every state the window can reach, the receive buffer holds no
    newline: what [_poll_serial] leaves there is at most one unterminated
    line. *)
Theorem buffer_holds_no_newline (w : MainWindow.t) :
  Spec.reachable w ->
  SerialManager.contains Py.LF (SerialManager._buf (MainWindow.serial w))
  = false.
Proof.
  apply (@reachable_manager
           (fun m => SerialManager.contains Py.LF (SerialManager._buf m)
                     = false)).
  - reflexivity.
  - intros m H. exact H.
  - intros o p m H. destruct o; exact H.
  - intros rd m H. unfold SerialManager._poll_serial.
    destruct (negb (SerialManager.is_connected m)); [exact H|].
    destruct rd as [data|e]; [|exact H]. cbn [fst SerialManager._buf].
    unfold SerialManager.feed. destruct data as [|d0 data]; [exact H|].
    rewrite drain_split_LF. apply split_LF_no_LF.
Qed.

(** In every state the window can reach, the poll timer runs exactly when
    the manager is connected. *)
Theorem poll_timer_runs_iff_connected (w : MainWindow.t) :
  Spec.reachable w ->
  SerialManager.poll_timer_active (MainWindow.serial w)
  = SerialManager.is_connected (MainWindow.serial w).
Proof.
  apply (@reachable_manager
           (fun m => SerialManager.poll_timer_active m
                     = SerialManager.is_connected m)).
  - reflexivity.
  - intros m _. reflexivity.
  - intros o p m _. destruct o; reflexivity.
  - intros rd m H. unfold SerialManager._poll_serial.
    destruct (SerialManager.is_connected m) eqn:E; cbn [negb];
      [|cbn [fst]; rewrite E; exact H].
    destruct rd as [data|e]; [|reflexivity].
    cbn [fst]. unfold SerialManager.is_connected in *.
    cbn [SerialManager._ser SerialManager.poll_timer_active].
    rewrite E. exact H.
Qed.

Lemma buffer_holds_no_newline_after_reads :
  match Spec.run
          [Spec.ToggleConnect 0.0%float (Py.u "COM3") None
                              SerialManager.Written;
           Spec.Poll (SerialManager.ReadBytes
                        (Py.b "Total: 1" ++ [Py.LF] ++ Py.b "Tot"))]
          (MainWindow.init 0.0%float) with
  | inr w =>
    SerialManager.contains Py.LF (SerialManager._buf (MainWindow.serial w))
    = false
  | inl _ => True
  end.
Proof.
  destruct (Spec.run _ _) as [e|w] eqn:E; [trivial|].
  apply (@buffer_holds_no_newline w).
  eexists. eexists. exact E.
Defined.

Lemma poll_timer_runs_after_connect :
  match Spec.run
          [Spec.ToggleConnect 0.0%float (Py.u "COM3") None
                              SerialManager.Written;
           Spec.Poll (SerialManager.ReadRaises (Py.u "device gone"))]
          (MainWindow.init 0.0%float) with
  | inr w =>
    SerialManager.poll_timer_active (MainWindow.serial w)
    = SerialManager.is_connected (MainWindow.serial w)
  | inl _ => True
  end.
Proof.
  destruct (Spec.run _ _) as [e|w] eqn:E; [trivial|].
  apply (@poll_timer_runs_iff_connected w).
  eexists. eexists. exact E.
Defined.

(** [disconnect] always ends disconnected with the timer stopped and keeps
    the buffer; calling it again changes nothing and closes nothing, it
    only announces [DISCONNECTED] once more. *)
Theorem disconnect_idempotent (m : SerialManager.t) :
  let m1 := fst (fst (SerialManager.disconnect m)) in
  Spec.Disconnected m1
  /\ SerialManager.poll_timer_active m1 = false
  /\ SerialManager._buf m1 = SerialManager._buf m
  /\ SerialManager.disconnect m1
     = (m1, [SerialManager.status_changed false (Py.u "DISCONNECTED")], []).
Proof. cbv zeta. repeat split. Qed.

(** While connected, a read that raises ends the connection: the error is
    announced first, then [DISCONNECTED]; the port is closed, the timer
    stopped, and the bytes already buffered stay.  A poll on a
    disconnected manager does not even read. *)
Theorem poll_read_error_disconnects
        (e : Py.str) (m : SerialManager.t) :
  (Spec.Connected m ->
   exists m',
     SerialManager._poll_serial (SerialManager.ReadRaises e) m
     = (m',
        [SerialManager.error_occurred (Py.u "Serial error: " ++ e);
         SerialManager.status_changed false (Py.u "DISCONNECTED")],
        [SerialManager.io_read 8192; SerialManager.io_close])
     /\ Spec.Disconnected m'
     /\ SerialManager.poll_timer_active m' = false
     /\ SerialManager._buf m' = SerialManager._buf m)
  /\ (Spec.Disconnected m ->
      forall rd, SerialManager._poll_serial rd m = (m, [], [])).
Proof.
  unfold Spec.Connected, Spec.Disconnected, SerialManager._poll_serial.
  split; intros H.
  - rewrite H. cbn [negb SerialManager.disconnect].
    unfold SerialManager.is_connected in H.
    destruct (SerialManager._ser m) as [ser|]; [|discriminate].
    eexists. split; [reflexivity|]. repeat split.
  - intros rd. rewrite H. reflexivity.
Qed.

Lemma poll_read_error_on_connected_manager :
  exists m',
    SerialManager._poll_serial
      (SerialManager.ReadRaises (Py.u "device gone")) Spec.connected_manager
    = (m',
       [SerialManager.error_occurred
          (Py.u "Serial error: " ++ Py.u "device gone");
        SerialManager.status_changed false (Py.u "DISCONNECTED")],
       [SerialManager.io_read 8192; SerialManager.io_close])
    /\ Spec.Disconnected m'
    /\ SerialManager.poll_timer_active m' = false
    /\ SerialManager._buf m' = SerialManager._buf Spec.connected_manager.
Proof.
  apply (proj1 (@poll_read_error_disconnects (Py.u "device gone")
                  Spec.connected_manager)).
  reflexivity.
Defined.

(** ** Further properties of [send_line] *)

(** [send_line] writes the text with exactly one newline after it: a text
    given without its newline is sent as if it had one, and whatever is
    written is the UTF-8 of the text followed by the newline byte. *)
Theorem send_line_appends_the_newline
        (wr : SerialManager.write_outcome) (text : Py.str)
        (m : SerialManager.t) :
  SerialManager.endswith_newline text = false ->
  SerialManager.send_line wr text m
  = SerialManager.send_line wr (text ++ [SerialManager.LF_char]) m
  /\ forall data,
       In (SerialManager.io_write data)
          (snd (SerialManager.send_line wr text m)) ->
       exists body, Py.encode_utf8 text = Some body
                    /\ data = body ++ [Py.LF].
Proof.
  intros He. unfold SerialManager.send_line.
  rewrite He, endswith_newline_app. split; [reflexivity|].
  destruct (negb (SerialManager.is_connected m)); [intros data []|].
  rewrite encode_utf8_newline.
  destruct (Py.encode_utf8 text) as [body|]; cbn [option_map];
    [|intros data []].
  intros data H. exists body. split; [reflexivity|].
  destruct wr; cbn [snd In] in H;
    repeat match goal with
           | H : _ \/ _ |- _ => destruct H as [H|H]
           | H : False |- _ => destruct H
           end; try discriminate; injection H as <-; reflexivity.
Qed.

Lemma send_line_appends_the_newline_to_save :
  SerialManager.send_line SerialManager.Written (Py.u "SAVE")
    Spec.connected_manager
  = SerialManager.send_line SerialManager.Written
      (Py.u "SAVE" ++ [SerialManager.LF_char]) Spec.connected_manager
  /\ forall data,
       In (SerialManager.io_write data)
          (snd (SerialManager.send_line SerialManager.Written (Py.u "SAVE")
                  Spec.connected_manager)) ->
       exists body, Py.encode_utf8 (Py.u "SAVE") = Some body
                    /\ data = body ++ [Py.LF].
Proof.
  apply (@send_line_appends_the_newline SerialManager.Written (Py.u "SAVE")
           Spec.connected_manager).
  reflexivity.
Defined.

(** ** [update_plot] *)

Section FloatOrderMore.

Local Open Scope float_scope.

Lemma ltb_leb (x y : float) : (x <? y) = true -> (x <=? y) = true.
Proof.
  rewrite ltb_spec, leb_spec. unfold SFltb, SFleb.
  destruct (SFcompare (Prim2SF x) (Prim2SF y)) as [[]|];
    try discriminate; reflexivity.
Qed.

Lemma min2_le (a b : float) : (a <=? a) = true -> (MainWindow.min2 a b <=? a) = true.
Proof.
  intros Ha. unfold MainWindow.min2. destruct (b <? a) eqn:E; [|exact Ha].
  apply ltb_leb. exact E.
Qed.

Lemma max2_ge (a b : float) : (a <=? a) = true -> (a <=? MainWindow.max2 a b) = true.
Proof.
  intros Ha. unfold MainWindow.max2. destruct (a <? b) eqn:E; [|exact Ha].
  apply ltb_leb. exact E.
Qed.

End FloatOrderMore.

(** Whenever the window holds samples, [update_plot] hands all of them
    to the line and computes limits with [x_min >= 0], [y_min <= 0] and
    [y_max >= 260], whatever the values are.  When the four limits are
    finite it sets them and asks for a redraw.  A limit that is not finite
    (an infinite sample makes one) is refused by [set_xlim] or [set_ylim]
    with a ValueError that nothing catches: [update_plot] ends there, the
    later calls are not made and [draw_idle] is not reached. *)
Theorem update_plot_limits (w : MainWindow.t) :
  Spec.reachable w ->
  Spec.timestamps w <> [] ->
  exists (x_min x_max y_min y_max : float),
    (0 <=? x_min)%float = true
    /\ (y_min <=? 0)%float = true
    /\ (260 <=? y_max)%float = true
    /\ MainWindow.update_plot w
       = if negb (is_finite x_min && is_finite x_max)
         then ([MainWindow.set_data (Spec.timestamps w) (Spec.values w)],
               Some MainWindow.ValueError_axis_limits)
         else if negb (is_finite y_min && is_finite y_max)
         then ([MainWindow.set_data (Spec.timestamps w) (Spec.values w);
                MainWindow.set_xlim x_min x_max],
               Some MainWindow.ValueError_axis_limits)
         else ([MainWindow.set_data (Spec.timestamps w) (Spec.values w);
                MainWindow.set_xlim x_min x_max;
                MainWindow.set_ylim y_min y_max;
                MainWindow.draw_idle], None).
Proof.
  intros Hr Hne. destruct (reachable_inv Hr) as [[Hlen _] _].
  unfold MainWindow.update_plot, MainWindow.valid_limits,
    Spec.timestamps, Spec.values in *.
  destruct (Deque.items (MainWindow.x_times w)) as [|x0 xs]; [congruence|].
  destruct (Deque.items (MainWindow.y_vals w)) as [|y0 ys];
    [discriminate Hlen|].
  do 4 eexists.
  split; [apply max2_ge; reflexivity|].
  split; [apply min2_le; reflexivity|].
  split; [apply max2_ge; reflexivity|]. reflexivity.
Qed.

(** A reading of [-inf] in the window: the x limits are set, [set_ylim]
    raises, nothing is redrawn. *)
Lemma update_plot_limits_after_two_lines :
  match Spec.run [Spec.SerialLine 1.0%float (Py.u "Total: 180.5");
                  Spec.SerialLine 2.0%float (Py.u "-inf")]
                 (MainWindow.init 0.0%float) with
  | inr w =>
    MainWindow.update_plot w
    = ([MainWindow.set_data [1.0; 2.0]%float [180.5%float; neg_infinity];
        MainWindow.set_xlim 0.0%float 2.0%float],
       Some MainWindow.ValueError_axis_limits)
    /\ exists (x_min x_max y_min y_max : float),
        (0 <=? x_min)%float = true
        /\ (y_min <=? 0)%float = true
        /\ (260 <=? y_max)%float = true
        /\ MainWindow.update_plot w
           = if negb (is_finite x_min && is_finite x_max)
             then ([MainWindow.set_data (Spec.timestamps w) (Spec.values w)],
                   Some MainWindow.ValueError_axis_limits)
             else if negb (is_finite y_min && is_finite y_max)
             then ([MainWindow.set_data (Spec.timestamps w) (Spec.values w);
                    MainWindow.set_xlim x_min x_max],
                   Some MainWindow.ValueError_axis_limits)
             else ([MainWindow.set_data (Spec.timestamps w) (Spec.values w);
                    MainWindow.set_xlim x_min x_max;
                    MainWindow.set_ylim y_min y_max;
                    MainWindow.draw_idle], None)
  | inl _ => True
  end.
Proof.
  destruct (Spec.run _ _) as [e|w] eqn:E; [trivial|]. split.
  - vm_compute in E. injection E as <-. vm_compute. reflexivity.
  - apply (@update_plot_limits w).
    + eexists. eexists. exact E.
    + vm_compute in E. injection E as <-. discriminate.
Defined.

(** ** [list_serial_ports] and [refresh_ports] *)

Section PortOrder.

Import Py SerialManager.

Lemma str_leb_total (a b : str) : str_leb a b = true \/ str_leb b a = true.
Proof.
  revert b. induction a as [|x a IH]; intros [|y b]; simpl; auto.
  destruct (N.ltb_spec x y), (N.ltb_spec y x); auto; lia.
Qed.

Lemma str_leb_trans (a b c : str) :
  str_leb a b = true -> str_leb b c = true -> str_leb a c = true.
Proof.
  revert b c. induction a as [|x a IH]; intros [|y b] [|z c]; simpl;
    try reflexivity; try discriminate.
  destruct (N.ltb_spec x y), (N.ltb_spec y x), (N.ltb_spec y z),
    (N.ltb_spec z y), (N.ltb_spec x z), (N.ltb_spec z x);
    try reflexivity; try discriminate; try lia.
  apply IH.
Qed.

Lemma str_leb_antisym (a b : str) :
  str_leb a b = true -> str_leb b a = true -> a = b.
Proof.
  revert b. induction a as [|x a IH]; intros [|y b]; simpl;
    try reflexivity; try discriminate.
  destruct (N.ltb_spec x y), (N.ltb_spec y x); try discriminate; try lia.
  intros H1 H2. f_equal; [lia|]. apply IH; assumption.
Qed.

Lemma key_leb_total (a b : str) : key_leb a b = true \/ key_leb b a = true.
Proof.
  unfold key_leb.
  destruct (Nat.ltb_spec (port_priority a) (port_priority b)); [auto|].
  destruct (Nat.ltb_spec (port_priority b) (port_priority a)); [auto|].
  assert (E : port_priority a = port_priority b) by lia.
  rewrite E, Nat.eqb_refl. simpl. apply str_leb_total.
Qed.

Lemma key_leb_trans (a b c : str) :
  key_leb a b = true -> key_leb b c = true -> key_leb a c = true.
Proof.
  unfold key_leb. intros H1 H2.
  apply orb_prop in H1. apply orb_prop in H2. apply orb_true_iff.
  destruct H1 as [H1|H1], H2 as [H2|H2];
    rewrite ?Nat.ltb_lt, ?andb_true_iff, ?Nat.eqb_eq in *.
  - left. lia.
  - left. lia.
  - left. lia.
  - right. destruct H1 as [E1 L1], H2 as [E2 L2]. split; [lia|].
    exact (str_leb_trans _ _ _ L1 L2).
Qed.

Lemma key_leb_antisym (a b : str) :
  key_leb a b = true -> key_leb b a = true -> a = b.
Proof.
  unfold key_leb. intros H1 H2.
  apply orb_prop in H1. apply orb_prop in H2.
  destruct H1 as [H1|H1], H2 as [H2|H2];
    rewrite ?Nat.ltb_lt, ?andb_true_iff, ?Nat.eqb_eq in *; try lia.
  destruct H1 as [_ L1], H2 as [_ L2]. apply str_leb_antisym; assumption.
Qed.

Lemma key_leb_priority (a b : str) :
  key_leb a b = true -> port_priority a <= port_priority b.
Proof.
  unfold key_leb. intros H. apply orb_prop in H.
  destruct H as [H|H];
    rewrite ?Nat.ltb_lt, ?andb_true_iff, ?Nat.eqb_eq in *; lia.
Qed.

End PortOrder.

Section PortSort.

Import Py SerialManager Spec.

Lemma sort_insert_perm (x : str) (l : list str) :
  Permutation (x :: l) (sort_insert x l).
Proof.
  induction l as [|y l IH]; simpl; [reflexivity|].
  destruct (key_leb x y); [reflexivity|].
  rewrite perm_swap. apply perm_skip. exact IH.
Qed.

Lemma sort_names_perm (l : list str) : Permutation l (sort_names l).
Proof.
  induction l as [|x l IH]; simpl; [reflexivity|].
  rewrite <- sort_insert_perm. apply perm_skip. exact IH.
Qed.

Lemma sort_insert_sorted (x : str) (l : list str) :
  StronglySorted key_le l -> StronglySorted key_le (sort_insert x l).
Proof.
  induction 1 as [|y l Hs IH Hy]; simpl.
  - repeat constructor.
  - destruct (key_leb x y) eqn:E.
    + constructor; [constructor; assumption|].
      constructor; [exact E|].
      eapply Forall_impl; [|exact Hy].
      intros z Hz. exact (key_leb_trans _ _ _ E Hz).
    + constructor; [exact IH|].
      assert (Hyx : key_le y x)
        by (destruct (key_leb_total x y) as [H|H]; [congruence|exact H]).
      apply (Permutation_Forall (sort_insert_perm x l)).
      constructor; assumption.
Qed.

Lemma sort_names_sorted (l : list str) : StronglySorted key_le (sort_names l).
Proof.
  induction l as [|x l IH]; simpl; [constructor|].
  apply sort_insert_sorted. exact IH.
Qed.

(** Two key-sorted arrangements of the same names are the same list. *)
Lemma sorted_perm_unique (l r : list str) :
  StronglySorted key_le l -> StronglySorted key_le r ->
  Permutation l r -> l = r.
Proof.
  intros Hl. revert r. induction Hl as [|x l Hs IH Hx]; intros r Hr Hp.
  - apply Permutation_nil in Hp. subst. reflexivity.
  - destruct Hr as [|y r Hsr Hy].
    + apply Permutation_sym, Permutation_nil in Hp. discriminate.
    + assert (x = y) as ->.
      { assert (Hxin : In x (y :: r))
          by (apply (Permutation_in _ Hp); left; reflexivity).
        assert (Hyin : In y (x :: l))
          by (apply (Permutation_in _ (Permutation_sym Hp)); left;
              reflexivity).
        destruct Hxin as [->|Hxin]; [reflexivity|].
        destruct Hyin as [->|Hyin]; [reflexivity|].
        apply key_leb_antisym.
        - exact (proj1 (Forall_forall _ _) Hx y Hyin).
        - exact (proj1 (Forall_forall _ _) Hy x Hxin). }
      f_equal. apply IH; [exact Hsr|].
      exact (Permutation_cons_inv Hp).
Qed.

End PortSort.

(** [list_serial_ports] returns the device names it was given, each as
    often as it came, ordered by (priority, name): names containing [acm]
    or [usb] in any letter case first, then those containing [com], then
    the others.  It is the only such arrangement, so the order in which
    the system lists the ports does not matter.  When the enumeration
    raises, the result is the empty list. *)
Theorem list_serial_ports_sorted (names : list Py.str) :
  let ports := SerialManager.list_serial_ports (Some names) in
  Permutation names ports
  /\ StronglySorted Spec.key_le ports
  /\ StronglySorted
       (fun a b => SerialManager.port_priority a
                   <= SerialManager.port_priority b) ports
  /\ (forall names', Permutation names names' ->
                     SerialManager.list_serial_ports (Some names') = ports)
  /\ SerialManager.list_serial_ports None = [].
Proof.
  cbv zeta. unfold SerialManager.list_serial_ports.
  split; [apply sort_names_perm|].
  split; [apply sort_names_sorted|].
  split.
  - pose proof (sort_names_sorted names) as H.
    induction H as [|x l Hs IH Hx]; constructor; [exact IH|].
    eapply Forall_impl; [|exact Hx].
    intros y Hy. apply key_leb_priority. exact Hy.
  - split; [|reflexivity]. intros names' Hp.
    apply sorted_perm_unique; try apply sort_names_sorted.
    rewrite <- (sort_names_perm names'), <- (sort_names_perm names).
    symmetry. exact Hp.
Qed.

(** When some port name contains [acm] or [usb], the first item of the
    combo box after [refresh_ports], which is the one selected, is such a
    port. *)
Theorem refresh_ports_selects_usb_first
        (names : list Py.str) (n : Py.str) :
  In n names -> SerialManager.port_priority n = 0 ->
  exists first rest,
    MainWindow.refresh_ports (Some names) = first :: rest
    /\ SerialManager.port_priority first = 0
    /\ Permutation names (first :: rest).
Proof.
  intros Hin Hn. unfold MainWindow.refresh_ports.
  destruct (list_serial_ports_sorted names) as [Hp [_ [Hs _]]].
  cbv zeta in *.
  destruct (SerialManager.list_serial_ports (Some names)) as [|first rest].
  - apply Permutation_sym, Permutation_nil in Hp. subst. destruct Hin.
  - exists first, rest. split; [reflexivity|]. split; [|exact Hp].
    apply (Permutation_in _ Hp) in Hin. destruct Hin as [->|Hin];
      [exact Hn|].
    inversion Hs as [|? ? _ Hall]; subst.
    pose proof (proj1 (Forall_forall _ _) Hall n Hin) as Hle.
    cbv beta in Hle. lia.
Qed.

Lemma refresh_ports_selects_usb_first_example :
  exists first rest,
    MainWindow.refresh_ports
      (Some [Py.u "COM3"; Py.u "/dev/ttyS0"; Py.u "/dev/ttyACM0"])
    = first :: rest
    /\ SerialManager.port_priority first = 0
    /\ Permutation [Py.u "COM3"; Py.u "/dev/ttyS0"; Py.u "/dev/ttyACM0"]
                   (first :: rest).
Proof.
  apply (@refresh_ports_selects_usb_first
           [Py.u "COM3"; Py.u "/dev/ttyS0"; Py.u "/dev/ttyACM0"]
           (Py.u "/dev/ttyACM0")).
  - right. right. left. reflexivity.
  - reflexivity.
Defined.

(** When the enumeration raises or finds no port, the combo box shows
    [(no ports found)].  Pressing Connect on it never opens a port.  On a
    disconnected window nothing else happens either: no signal is emitted
    and the window is as before.  On a connected window the press
    disconnects, as it does whatever the box shows: [DISCONNECTED] is
    announced, the port is closed, the samples and the log stay. *)
Theorem no_ports_no_connect
        (comports : option (list Py.str)) (clock : float)
        (opened : option Py.str) (written : SerialManager.write_outcome)
        (w : MainWindow.t) :
  comports = None \/ comports = Some [] ->
  exists item,
    MainWindow.refresh_ports comports = [item]
    /\ item = Py.u "(no ports found)"
    /\ (forall port_name baudrate,
          ~ In (SerialManager.io_open port_name baudrate)
               (snd (MainWindow.toggle_connect clock item opened written w)))
    /\ (Spec.Disconnected (MainWindow.serial w) ->
        MainWindow.toggle_connect clock item opened written w = (w, [], []))
    /\ (Spec.Connected (MainWindow.serial w) ->
        MainWindow.toggle_connect clock item opened written w
        = (MainWindow.mk
             (fst (fst (SerialManager.disconnect (MainWindow.serial w))))
             (MainWindow.seconds_window w) (MainWindow.x_times w)
             (MainWindow.y_vals w) (MainWindow.t0 w) (MainWindow.log w),
           [SerialManager.status_changed false (Py.u "DISCONNECTED")],
           [SerialManager.io_close])
        /\ Spec.Disconnected
             (fst (fst (SerialManager.disconnect (MainWindow.serial w))))).
Proof.
  intros Hc. exists (Py.u "(no ports found)").
  split; [destruct Hc as [->| ->]; reflexivity|]. split; [reflexivity|].
  unfold MainWindow.toggle_connect, Spec.Disconnected, Spec.Connected.
  destruct (SerialManager.is_connected (MainWindow.serial w)) eqn:E.
  - unfold SerialManager.is_connected in E. unfold SerialManager.disconnect.
    destruct (SerialManager._ser (MainWindow.serial w)) as [ser|];
      [|discriminate E].
    split; [|split; [discriminate|]].
    + intros port_name baudrate [H|[]]. discriminate H.
    + intros _. split; reflexivity.
  - split; [|split; [reflexivity|discriminate]].
    intros port_name baudrate [].
Qed.

Lemma no_ports_no_connect_on_fresh_window :
  exists item,
    MainWindow.refresh_ports None = [item]
    /\ item = Py.u "(no ports found)"
    /\ (forall port_name baudrate,
          ~ In (SerialManager.io_open port_name baudrate)
               (snd (MainWindow.toggle_connect 1.0%float item None
                       SerialManager.Written (MainWindow.init 0.0%float))))
    /\ (Spec.Disconnected (MainWindow.serial (MainWindow.init 0.0%float)) ->
        MainWindow.toggle_connect 1.0%float item None SerialManager.Written
          (MainWindow.init 0.0%float)
        = (MainWindow.init 0.0%float, [], []))
    /\ (Spec.Connected (MainWindow.serial (MainWindow.init 0.0%float)) ->
        MainWindow.toggle_connect 1.0%float item None SerialManager.Written
          (MainWindow.init 0.0%float)
        = (MainWindow.mk
             (fst (fst (SerialManager.disconnect
                          (MainWindow.serial (MainWindow.init 0.0%float)))))
             30.0%float (Deque.new 1000) (Deque.new 1000) 0.0%float [],
           [SerialManager.status_changed false (Py.u "DISCONNECTED")],
           [SerialManager.io_close])
        /\ Spec.Disconnected
             (fst (fst (SerialManager.disconnect
                          (MainWindow.serial (MainWindow.init 0.0%float)))))).
Proof.
  apply (@no_ports_no_connect None 1.0%float None SerialManager.Written
           (MainWindow.init 0.0%float)).
  left. reflexivity.
Defined.

Section PlanetRows.

Import Py PlanetTable Spec.
Local Open Scope float_scope.

Lemma SFleb_false_SFltb (x y : spec_float) :
  SFleb x y = false -> x <> S754_nan -> y <> S754_nan -> SFltb y x = true.
Proof.
  unfold SFleb, SFltb.
  destruct x as [sx|sx| |sx mx ex], y as [sy|sy| |sy my ey]; simpl;
    try congruence; try (destruct sx; simpl; congruence);
    try (destruct sy; simpl; congruence);
    try (destruct sx, sy; simpl; congruence).
  change (Pos.compare_cont Eq) with Pos.compare.
  intros H _ _. destruct sx, sy; simpl in *; try congruence.
  all: destruct (Z.compare_spec ex ey), (Z.compare_spec ey ex);
    try lia; simpl in *; try congruence.
  all: destruct (Pos.compare_spec mx my), (Pos.compare_spec my mx);
    try lia; simpl in *; congruence.
Qed.

Lemma is_nan_false (x : float) : is_nan x = false -> Prim2SF x <> S754_nan.
Proof.
  unfold is_nan. rewrite FloatAxioms.eqb_spec. intros H E. rewrite E in H. discriminate H.
Qed.

Lemma leb_false_ltb (x y : float) :
  (x <=? y) = false -> is_nan x = false -> is_nan y = false ->
  (y <? x) = true.
Proof.
  rewrite leb_spec, ltb_spec. intros H Hx Hy.
  apply SFleb_false_SFltb; auto using is_nan_false.
Qed.

Lemma zero_not_nan : is_nan 0 = false.
Proof. reflexivity. Qed.

Lemma check_row_checked (r : nat) (rw : row) (p : planet) :
  check_row r rw = inr (Some p) -> row_checked p.
Proof.
  unfold check_row, row_checked.
  destruct (match name_item rw with Some text => strip text | None => [] end)
    as [|c nm]; [discriminate|].
  destruct (cell_float (dip_item rw)) as [d|]; [|discriminate].
  destruct (cell_float (orbit_item rw)) as [o|]; [|discriminate].
  destruct (cell_float (transit_item rw)) as [t|]; [|discriminate].
  destruct (cell_float (phase_item rw)) as [ph|]; [|discriminate].
  destruct (int_of_float ph); try discriminate.
  destruct ((0.0 <=? d) && (d <=? 1.0))%bool eqn:Hd; [|discriminate].
  destruct ((o <=? 0) || (t <=? 0))%bool eqn:Hp; [discriminate|].
  destruct (o <=? t) eqn:Ht; [discriminate|].
  cbn [negb]. intros H. injection H as <-. cbn [name dip orbit_s transit_s].
  apply andb_prop in Hd. apply orb_false_elim in Hp.
  repeat split; try tauto.
  - discriminate.
  - exact (firstn_le_length 11 (c :: nm)).
Qed.

Lemma rows_from_checked (table : list row) :
  forall (r : nat) (planets : list planet),
    rows_from r table = inr planets ->
    Forall row_checked planets
    /\ (List.length planets <= List.length table)%nat.
Proof.
  induction table as [|rw table IH]; intros r planets; cbn [rows_from].
  - intros H. injection H as <-. split; [constructor|reflexivity].
  - destruct (check_row r rw) as [e|[p|]] eqn:Hrow; [discriminate| |].
    + destruct (rows_from (S r) table) as [e|ps] eqn:Hrest; [discriminate|].
      intros H. injection H as <-. destruct (IH _ _ Hrest) as [Hf Hl].
      split; [constructor; [exact (check_row_checked _ _ Hrow)|exact Hf]|].
      cbn [List.length]. lia.
    + intros H. destruct (IH _ _ H) as [Hf Hl]. split; [exact Hf|].
      cbn [List.length]. lia.
Qed.

Lemma get_planet_rows_length (table : list row) (planets : list planet) :
  get_planet_rows table = inr planets ->
  (List.length planets <= MAX_PLANETS)%nat.
Proof.
  unfold get_planet_rows. intros H.
  destruct (rows_from_checked _ _ H) as [_ Hl].
  rewrite length_firstn in Hl. lia.
Qed.

End PlanetRows.

(** Every row [get_planet_rows] returns has passed the checks: at
    most [MAX_PLANETS] rows come back; each has a name of 1 to 11
    characters and a dip between 0 and 1; and whenever its orbit and
    transit are numbers (not NaN), 0 < transit < orbit. *)
Theorem get_planet_rows_validated
        (table : list PlanetTable.row) (planets : list PlanetTable.planet) :
  PlanetTable.get_planet_rows table = inr planets ->
  (List.length planets <= PlanetTable.MAX_PLANETS)%nat
  /\ Forall (fun p =>
       (1 <= List.length (PlanetTable.name p) <= 11)%nat
       /\ (0 <=? PlanetTable.dip p)%float = true
       /\ (PlanetTable.dip p <=? 1)%float = true
       /\ (is_nan (PlanetTable.orbit_s p) = false ->
           is_nan (PlanetTable.transit_s p) = false ->
           (0 <? PlanetTable.transit_s p)%float = true
           /\ (PlanetTable.transit_s p <? PlanetTable.orbit_s p)%float = true))
       planets.
Proof.
  intros H. split; [exact (get_planet_rows_length _ H)|].
  unfold PlanetTable.get_planet_rows in H.
  destruct (rows_from_checked _ _ H) as [Hf _].
  apply (Forall_impl _ (P := Spec.row_checked)); [|exact Hf].
  intros p (Hn & Hl & Hd0 & Hd1 & Ho & Ht & Hot).
  split; [|split; [exact Hd0|split; [exact Hd1|]]].
  - destruct (PlanetTable.name p); [congruence|cbn in *; lia].
  - intros No Nt. split.
    + apply leb_false_ltb; [exact Ht|exact Nt|exact zero_not_nan].
    + apply leb_false_ltb; assumption.
Qed.

Lemma get_planet_rows_validated_example :
  let table := [Spec.table_row "  Kepler-186 f  " "0.25" "12.5" "1.5" "250";
                Spec.table_row "" "x" "y" "z" "";
                Spec.table_row "b" "1" "3" "nan" "-7.9"] in
  exists planets,
    PlanetTable.get_planet_rows table = inr planets
    /\ map PlanetTable.name planets = [Py.u "Kepler-186 "; Py.u "b"]
    /\ map PlanetTable.phase_ms planets = [250%Z; (-7)%Z]
    /\ (List.length planets <= PlanetTable.MAX_PLANETS)%nat
    /\ Forall (fun p =>
       (1 <= List.length (PlanetTable.name p) <= 11)%nat
       /\ (0 <=? PlanetTable.dip p)%float = true
       /\ (PlanetTable.dip p <=? 1)%float = true
       /\ (is_nan (PlanetTable.orbit_s p) = false ->
           is_nan (PlanetTable.transit_s p) = false ->
           (0 <? PlanetTable.transit_s p)%float = true
           /\ (PlanetTable.transit_s p <? PlanetTable.orbit_s p)%float = true))
       planets.
Proof.
  intros table. eexists. split; [vm_compute; reflexivity|].
  split; [reflexivity|]. split; [reflexivity|].
  apply get_planet_rows_validated with (table := table).
  vm_compute. reflexivity.
Defined.

Section Commands.

Import Py PlanetTable SerialManager MainWindow Spec.

Lemma string_of_uint_not_LF (d : Decimal.uint) :
  Forall (fun c => c <> LF_char) (u (DecimalString.NilEmpty.string_of_uint d)).
Proof.
  induction d; cbn; constructor; try assumption; unfold LF_char;
    discriminate.
Qed.

Lemma str_of_N_not_LF (n : N) :
  str_of_N n <> [] /\ Forall (fun c => c <> LF_char) (str_of_N n).
Proof.
  unfold str_of_N, DecimalString.NilZero.string_of_uint.
  destruct (N.to_uint n) as [|d|d|d|d|d|d|d|d|d|d] eqn:E.
  1: split; [discriminate|repeat constructor; unfold LF_char;
             discriminate].
  all: split; [cbn; discriminate|apply string_of_uint_not_LF].
Qed.

Lemma str_of_Z_not_LF (z : Z) :
  str_of_Z z <> [] /\ Forall (fun c => c <> LF_char) (str_of_Z z).
Proof.
  unfold str_of_Z. destruct z; try apply str_of_N_not_LF.
  split; [discriminate|].
  constructor; [unfold LF_char, MINUS; discriminate|].
  apply str_of_N_not_LF.
Qed.

Lemma endswith_newline_digits (xs ds : str) :
  ds <> [] -> Forall (fun c => c <> LF_char) ds -> endswith_newline (xs ++ ds) = false.
Proof.
  intros Hne Hf. unfold endswith_newline. rewrite rev_app_distr.
  destruct (rev ds) as [|c r] eqn:E.
  - apply (f_equal (@rev N)) in E. rewrite rev_involutive in E.
    cbn in E. congruence.
  - cbn [app]. apply N.eqb_neq.
    rewrite Forall_forall in Hf. apply Hf. apply in_rev. rewrite E.
    left. reflexivity.
Qed.

Lemma setnum_no_newline (n : nat) : endswith_newline (setnum n) = false.
Proof. unfold setnum. apply endswith_newline_digits; apply str_of_N_not_LF. Qed.

Lemma planet_command_no_newline (p : planet) (command : str) :
  planet_command p = Some command -> endswith_newline command = false.
Proof.
  unfold planet_command.
  destruct (int_of_float _) as [o| |]; try discriminate.
  destruct (int_of_float _) as [t| |]; try discriminate.
  intros H. injection H as <-.
  assert (R : forall a b c d e : str,
             a ++ COMMA :: b ++ COMMA :: c ++ COMMA :: d ++ COMMA :: e
             = (a ++ COMMA :: b ++ COMMA :: c ++ COMMA :: d ++ [COMMA]) ++ e).
  { intros a b c d e.
    change (a ++ [COMMA] ++ b ++ [COMMA] ++ c ++ [COMMA] ++ d ++ [COMMA] ++ e
            = (a ++ [COMMA] ++ b ++ [COMMA] ++ c ++ [COMMA] ++ d ++ [COMMA])
                ++ e).
    rewrite <- !app_assoc. reflexivity. }
  cbn [app]. rewrite R.
  apply endswith_newline_digits; apply str_of_Z_not_LF.
Qed.

(** A [send_line] that returns has written the command as one line. *)
Lemma send_line_returns (wr : write_outcome) (command : str) (m m' : SerialManager.t)
      (ios : list io) :
  endswith_newline command = false ->
  send_line wr command m = (inr tt, m', ios) ->
  exists data, wire_line command = Some data
               /\ ios = [io_write data; io_flush].
Proof.
  intros Hn. unfold send_line, wire_line. rewrite Hn.
  destruct (negb (is_connected m)); [discriminate|].
  destruct (encode_utf8 (command ++ [LF_char])) as [data|]; [|discriminate].
  destruct wr; try discriminate.
  intros H. injection H as _ <-. exists data. split; reflexivity.
Qed.

Lemma writes_app (a b : list io) : writes (a ++ b) = writes a ++ writes b.
Proof. unfold writes. apply flat_map_app. Qed.

Lemma send_each_success (wr : nat -> write_outcome) (m : SerialManager.t)
      (planets : list planet) :
  forall (k : nat) (ios : list io),
    send_each wr k planets m = (true, ios) ->
    exists commands,
      map planet_command planets = map (@Some str) commands
      /\ map (@Some bytes) (writes ios) = map wire_line commands.
Proof.
  induction planets as [|p planets IH]; intros k ios; cbn [send_each].
  - intros H. injection H as <-. exists []. split; reflexivity.
  - destruct (planet_command p) as [command|] eqn:Hc; [|discriminate].
    destruct (send_line (wr k) command m) as [[[e|[]] m'] ios1] eqn:Hs;
      [discriminate|].
    destruct (send_each wr (S k) planets m) as [ok ios2] eqn:Hr.
    intros H. injection H as -> <-.
    destruct (IH _ _ Hr) as (commands & Hp & Hw).
    destruct (@send_line_returns _ _ _ _ _ (@planet_command_no_newline _ _ Hc) Hs)
      as (data & Hd & ->).
    exists (command :: commands). cbn [map]. rewrite Hc, Hp, writes_app, map_app.
    change (writes [io_write data; io_flush]) with [data].
    cbn [map]. rewrite <- Hw, Hd. split; reflexivity.
Qed.

End Commands.

(** When [send_planets] reports success with [n] planets, the table
    held exactly [n] named rows, [n] is between 1 and [MAX_PLANETS], and
    the port received [n + 1] lines, each ended by one LF: [SETNUM:n]
    first, then one command per planet in table order. *)
Theorem send_planets_success
        (table : list PlanetTable.row)
        (wr : nat -> SerialManager.write_outcome) (m : SerialManager.t)
        (n : nat) (ios : list SerialManager.io) :
  MainWindow.send_planets table wr m
  = (MainWindow.Returned [MainWindow.Information_success n], ios) ->
  exists planets commands,
    PlanetTable.get_planet_rows table = inr planets
    /\ n = List.length planets
    /\ (1 <= n <= PlanetTable.MAX_PLANETS)%nat
    /\ map MainWindow.planet_command planets = map (@Some Py.str) commands
    /\ map (@Some Py.bytes) (Spec.writes ios)
       = map Spec.wire_line (Spec.setnum n :: commands).
Proof.
  unfold MainWindow.send_planets.
  destruct (negb (SerialManager.is_connected m)); [discriminate|].
  destruct (PlanetTable.get_planet_rows table) as [e|planets] eqn:Hrows.
  { destruct e; discriminate. }
  destruct planets as [|p ps]; [discriminate|].
  pose proof (@get_planet_rows_length _ _ Hrows) as Hlen.
  rewrite (Nat.min_l _ _ Hlen), (firstn_all2 _ Hlen).
  change (Py.u "SETNUM:" ++ SerialManager.str_of_N
            (N.of_nat (List.length (p :: ps))))
    with (Spec.setnum (List.length (p :: ps))).
  destruct (SerialManager.send_line (wr O) _ m) as [[[e|[]] m'] ios0] eqn:Hs;
    [discriminate|].
  destruct (MainWindow.send_each wr 1 (p :: ps) m) as [ok ios1] eqn:He.
  destruct ok; [|discriminate].
  intros H. injection H as <- <-.
  destruct (@send_each_success _ _ _ _ _ He) as (commands & Hp & Hw).
  destruct (@send_line_returns _ _ _ _ _ (setnum_no_newline _) Hs) as (data & Hd & ->).
  exists (p :: ps), commands.
  split; [reflexivity|]. split; [reflexivity|].
  split; [cbn [List.length] in *; lia|]. split; [exact Hp|].
  rewrite writes_app, map_app.
  change (Spec.writes [SerialManager.io_write data; SerialManager.io_flush])
    with [data].
  cbn [map]. rewrite <- Hw, <- Hd. reflexivity.
Qed.

Lemma send_planets_success_two_planets :
  let table := [Spec.table_row "  Kepler-186 f  " "0.25" "12.5" "1.5" "250";
                Spec.table_row "" "0.1" "10.0" "2.0" "0";
                Spec.table_row "b" "1" "3" "0.0004" "-7.9"] in
  exists ios,
    MainWindow.send_planets table (fun _ => SerialManager.Written)
                            Spec.connected_manager
    = (MainWindow.Returned [MainWindow.Information_success 2], ios)
    /\ Spec.writes ios
       = [Py.b "SETNUM:2
"; Py.b "Kepler-186 ,0.250000,12500,1500,250
"; Py.b "b,1.000000,3000,0,-7
"]
    /\ exists planets commands,
        PlanetTable.get_planet_rows table = inr planets
        /\ 2%nat = List.length planets
        /\ (1 <= 2 <= PlanetTable.MAX_PLANETS)%nat
        /\ map MainWindow.planet_command planets
           = map (@Some Py.str) commands
        /\ map (@Some Py.bytes) (Spec.writes ios)
           = map Spec.wire_line (Spec.setnum 2 :: commands).
Proof.
  intros table. eexists. split; [vm_compute; reflexivity|].
  split; [reflexivity|].
  apply send_planets_success
    with (wr := fun _ : nat => SerialManager.Written)
         (m := Spec.connected_manager).
  vm_compute. reflexivity.
Defined.

Section Times.

Import Py PlanetTable SerialManager MainWindow Spec.
Local Open Scope float_scope.

Lemma SFeqb_finite_refl (s : bool) (m : positive) (e : Z) :
  SFeqb (S754_finite s m e) (S754_finite s m e) = true.
Proof.
  unfold SFeqb. simpl. destruct s; rewrite Z.compare_refl;
    change (Pos.compare_cont Eq m m) with (Pos.compare m m);
    rewrite Pos.compare_refl; reflexivity.
Qed.

(** [int(x)] returns only on a finite [x]. *)
Lemma int_of_float_finite (x : float) (z : Z) :
  int_of_float x = Int z -> is_finite x = true.
Proof.
  unfold int_of_float, is_finite, is_nan, is_infinity.
  rewrite !FloatAxioms.eqb_spec, abs_spec.
  destruct (Prim2SF x) as [s|s| |s m e]; try discriminate; intros _.
  - destruct s; reflexivity.
  - rewrite SFeqb_finite_refl. destruct s; reflexivity.
Qed.

Lemma planet_command_finite (p : planet) (command : str) :
  planet_command p = Some command ->
  is_finite (orbit_s p * 1000) = true
  /\ is_finite (transit_s p * 1000) = true.
Proof.
  unfold planet_command.
  destruct (int_of_float (orbit_s p * 1000.0)) as [o| |] eqn:Ho;
    try discriminate.
  destruct (int_of_float (transit_s p * 1000.0)) as [t| |] eqn:Ht;
    try discriminate.
  intros _. split; eapply int_of_float_finite; eassumption.
Qed.

Lemma is_infinity_spec (x : float) :
  is_infinity x = true -> exists s, Prim2SF x = S754_infinity s.
Proof.
  unfold is_infinity. rewrite FloatAxioms.eqb_spec, abs_spec.
  destruct (Prim2SF x) as [s|s| |s m e]; try discriminate.
  intros _. exists s. reflexivity.
Qed.

Lemma rows_from_app (pre : list row) :
  forall (r : nat) (ps : list planet) (rest : list row),
    rows_from r pre = inr ps ->
    rows_from r (pre ++ rest)
    = match rows_from (r + List.length pre) rest with
      | inl e => inl e
      | inr qs => inr (ps ++ qs)
      end.
Proof.
  induction pre as [|rw pre IH]; intros r ps rest; cbn [rows_from app].
  - intros H. injection H as <-. rewrite Nat.add_0_r.
    destruct (rows_from r rest); reflexivity.
  - cbn [List.length]. rewrite Nat.add_succ_r.
    destruct (check_row r rw) as [e|[p|]]; [discriminate| |].
    + destruct (rows_from (S r) pre) as [e|ps'] eqn:Hp; [discriminate|].
      intros H. injection H as <-. rewrite (IH _ _ rest Hp).
      cbn [Nat.add]. destruct (rows_from (S (r + List.length pre)) rest);
        reflexivity.
    + intros H. exact (IH _ _ rest H).
Qed.

End Times.

Section Unsendable.

Import Py PlanetTable SerialManager MainWindow Spec.

(** One [send_line] hands at most one byte string to [write]. *)
Lemma send_line_writes (wr : write_outcome) (command : str)
      (m : SerialManager.t) :
  (List.length (writes (snd (send_line wr command m))) <= 1)%nat.
Proof.
  unfold send_line. destruct (negb (is_connected m)); [cbn; lia|].
  destruct (encode_utf8 _); [|cbn; lia]. destruct wr; cbn; lia.
Qed.

(** A planet without a command ends the loop, after fewer writes than
    there are planets. *)
Lemma send_each_unsendable (wr : nat -> write_outcome) (m : SerialManager.t)
      (planets : list planet) :
  forall k : nat,
    Exists (fun p => planet_command p = None) planets ->
    exists ios,
      send_each wr k planets m = (false, ios)
      /\ (S (List.length (writes ios)) <= List.length planets)%nat.
Proof.
  induction planets as [|p planets IH]; intros k Hex.
  - inversion Hex.
  - cbn [send_each]. destruct (planet_command p) as [command|] eqn:Hc.
    + assert (Hex' : Exists (fun q => planet_command q = None) planets).
      { inversion Hex as [? ? H|? ? H]; subst; [congruence|exact H]. }
      destruct (IH (S k) Hex') as (ios' & He & Hl).
      pose proof (send_line_writes (wr k) command m) as Hw.
      destruct (send_line (wr k) command m) as [[[e|[]] m'] ios1].
      * exists ios1. split; [reflexivity|]. cbn [snd] in Hw.
        cbn [List.length]. lia.
      * rewrite He. exists (ios1 ++ ios'). split; [reflexivity|].
        cbn [snd] in Hw. rewrite writes_app, length_app.
        cbn [List.length]. lia.
    + exists []. split; [reflexivity|]. cbn. lia.
Qed.

(** On a port that takes every write, the loop has sent the commands of
    the planets before the one it stopped at. *)
Lemma send_each_written (wr : nat -> write_outcome) (m : SerialManager.t)
      (planets : list planet) :
  (forall k, wr k = Written) ->
  forall (k : nat) (ok : bool) (ios : list io),
    send_each wr k planets m = (ok, ios) ->
    exists sent rest commands,
      planets = sent ++ rest
      /\ (ok = false -> rest <> [])
      /\ map planet_command sent = map (@Some str) commands
      /\ map (@Some bytes) (writes ios) = map wire_line commands.
Proof.
  intros Hwr. induction planets as [|p planets IH]; intros k ok ios.
  - cbn [send_each]. intros H. injection H as <- <-.
    exists [], [], []. repeat split. discriminate.
  - cbn [send_each]. destruct (planet_command p) as [command|] eqn:Hc.
    + destruct (send_line (wr k) command m) as [[[e|[]] m'] ios1] eqn:Hs.
      * intros H. injection H as <- <-.
        exists [], (p :: planets), []. repeat split; [discriminate|].
        revert Hs. rewrite Hwr. unfold send_line.
        destruct (negb (is_connected m)); [intros H; injection H as _ _ <-;
                                           reflexivity|].
        destruct (encode_utf8 _); intros H; [discriminate H|].
        injection H as _ _ <-. reflexivity.
      * destruct (send_each wr (S k) planets m) as [ok' ios'] eqn:Hr.
        intros H. injection H as <- <-.
        destruct (IH _ _ _ Hr) as (sent & rest & commands & -> & Hne & Hp & Hw).
        destruct (@send_line_returns _ _ _ _ _
                    (@planet_command_no_newline _ _ Hc) Hs)
          as (data & Hd & ->).
        exists (p :: sent), rest, (command :: commands).
        split; [reflexivity|]. split; [exact Hne|].
        cbn [map]. rewrite Hc, Hp, writes_app, map_app.
        change (writes [io_write data; io_flush]) with [data].
        cbn [map]. rewrite <- Hw, Hd. split; reflexivity.
    + intros H. injection H as <- <-.
      exists [], (p :: planets), []. repeat split. discriminate.
Qed.

(** [SETNUM:n] is plain ASCII for the counts [get_planet_rows] allows. *)
Lemma setnum_encodes (n : nat) :
  (n <= MAX_PLANETS)%nat -> wire_line (setnum n) <> None.
Proof.
  unfold MAX_PLANETS. intros H.
  destruct n as [|[|[|[|[|[|n]]]]]]; try (vm_compute; discriminate). lia.
Qed.

End Unsendable.

(** A planet whose orbit or transit time, in milliseconds, is not a
    finite number (the cell held [nan], [inf] or a number beyond the float
    range: the checks of [get_planet_rows] let these through) keeps
    [send_planets] from succeeding, whatever the port does: it ends with
    the "Send Error" dialog, after fewer writes than the [n + 1] lines of a
    complete transfer.  When the port takes every write, it has by then
    received the [SETNUM] line announcing all [n] planets and the commands
    of a proper head of them only. *)
Theorem send_planets_stops_after_count
        (table : list PlanetTable.row)
        (wr : nat -> SerialManager.write_outcome) (m : SerialManager.t)
        (planets : list PlanetTable.planet) (p : PlanetTable.planet) :
  SerialManager.is_connected m = true ->
  PlanetTable.get_planet_rows table = inr planets ->
  In p planets ->
  is_finite (PlanetTable.orbit_s p * 1000)%float = false
  \/ is_finite (PlanetTable.transit_s p * 1000)%float = false ->
  exists ios,
    MainWindow.send_planets table wr m
    = (MainWindow.Returned [MainWindow.Critical_send_error], ios)
    /\ (List.length (Spec.writes ios) <= List.length planets)%nat
    /\ ((forall k, wr k = SerialManager.Written) ->
        exists sent rest commands,
          planets = sent ++ rest /\ rest <> []
          /\ map MainWindow.planet_command sent
             = map (@Some Py.str) commands
          /\ map (@Some Py.bytes) (Spec.writes ios)
             = map Spec.wire_line
                   (Spec.setnum (List.length planets) :: commands)).
Proof.
  intros Hc Hrows Hin Hnf.
  assert (Hcmd : MainWindow.planet_command p = None).
  { destruct (MainWindow.planet_command p) as [command|] eqn:E;
      [|reflexivity].
    destruct (@planet_command_finite _ _ E) as [Ho Ht].
    destruct Hnf as [H|H]; congruence. }
  assert (Hex : Exists (fun q => MainWindow.planet_command q = None) planets).
  { apply Exists_exists. exists p. split; assumption. }
  pose proof (@get_planet_rows_length _ _ Hrows) as Hlen.
  unfold MainWindow.send_planets. rewrite Hc, Hrows. cbn [negb].
  destruct planets as [|p0 ps]; [destruct Hin|].
  rewrite (Nat.min_l _ _ Hlen), (firstn_all2 _ Hlen).
  change (Py.u "SETNUM:" ++ SerialManager.str_of_N
            (N.of_nat (List.length (p0 :: ps))))
    with (Spec.setnum (List.length (p0 :: ps))).
  pose proof (send_line_writes (wr O)
                (Spec.setnum (List.length (p0 :: ps))) m) as Hw0.
  destruct (SerialManager.send_line (wr O) _ m) as [[[e|[]] m'] ios0] eqn:Hs.
  - exists ios0. split; [reflexivity|]. cbn [snd] in Hw0.
    split; [cbn [List.length]; lia|].
    intros Hwr. exfalso. revert Hs. rewrite Hwr.
    unfold SerialManager.send_line. rewrite Hc, setnum_no_newline.
    cbn [negb].
    pose proof (@setnum_encodes (List.length (p0 :: ps)) Hlen) as Hn.
    unfold Spec.wire_line in Hn.
    destruct (Py.encode_utf8 _); [discriminate|congruence].
  - destruct (send_each_unsendable wr m 1 Hex) as (ios1 & He & Hl).
    rewrite He. exists (ios0 ++ ios1). split; [reflexivity|].
    cbn [snd] in Hw0. rewrite writes_app, length_app.
    split; [lia|]. intros Hwr.
    destruct (@send_each_written wr m (p0 :: ps) Hwr _ _ _ He)
      as (sent & rest & commands & Hp & Hne & Hm & Hw).
    destruct (@send_line_returns _ _ _ _ _ (setnum_no_newline _) Hs)
      as (data & Hd & ->).
    exists sent, rest, commands.
    split; [exact Hp|]. split; [apply Hne; reflexivity|].
    split; [exact Hm|].
    rewrite map_app.
    change (Spec.writes [SerialManager.io_write data; SerialManager.io_flush])
      with [data].
    cbn [map]. rewrite <- Hw, <- Hd. reflexivity.
Qed.

(** The second of three planets has the orbit [nan]: the port receives
    [SETNUM:3] and the command of the first planet, then the dialog
    comes. *)
Lemma send_planets_stops_after_count_nan_orbit :
  let table := [Spec.table_row "a" "0.5" "4.0" "1.0" "0";
                Spec.table_row "b" "0.1" "nan" "2.0" "0";
                Spec.table_row "c" "0.2" "1e306" "2.0" "0"] in
  exists planets ios,
    PlanetTable.get_planet_rows table = inr planets
    /\ List.length planets = 3%nat
    /\ MainWindow.send_planets table (fun _ => SerialManager.Written)
                               Spec.connected_manager
       = (MainWindow.Returned [MainWindow.Critical_send_error], ios)
    /\ Spec.writes ios = [Py.b "SETNUM:3
"; Py.b "a,0.500000,4000,1000,0
"]
    /\ (List.length (Spec.writes ios) <= List.length planets)%nat
    /\ ((forall k : nat, (fun _ : nat => SerialManager.Written) k
                         = SerialManager.Written) ->
        exists sent rest commands,
          planets = sent ++ rest /\ rest <> []
          /\ map MainWindow.planet_command sent
             = map (@Some Py.str) commands
          /\ map (@Some Py.bytes) (Spec.writes ios)
             = map Spec.wire_line
                   (Spec.setnum (List.length planets) :: commands)).
Proof.
  intros table.
  destruct (PlanetTable.get_planet_rows table) as [e|planets] eqn:E;
    [vm_compute in E; discriminate E|].
  assert (Hp : exists p, In p planets
                         /\ is_finite (PlanetTable.orbit_s p * 1000)%float
                            = false).
  { vm_compute in E. injection E as <-. eexists. split.
    - right. left. reflexivity.
    - reflexivity. }
  destruct Hp as (p & Hin & Hnf).
  destruct (@send_planets_stops_after_count table
              (fun _ => SerialManager.Written) Spec.connected_manager
              planets p eq_refl E Hin (or_introl Hnf))
    as (ios & Hs & Hl & Hw).
  exists planets, ios. split; [reflexivity|].
  split; [vm_compute in E; injection E as <-; reflexivity|].
  split; [exact Hs|]. split; [|split; [exact Hl|exact Hw]].
  vm_compute in Hs. injection Hs as <-. reflexivity.
Defined.

(** A phase cell that reads as an infinity ([inf], [1e999], ...) in
    a named row whose cells are otherwise numbers, below rows that are
    accepted, makes [int(float(...))] raise OverflowError, which
    [get_planet_rows] does not catch: [send_planets] is left by that
    exception before any dialog or write, whereas [send_planet_count]
    reports it as a "Send Error". *)
Theorem infinite_phase_escapes_send_planets
        (pre rest : list PlanetTable.row) (rw : PlanetTable.row)
        (ps : list PlanetTable.planet) (text : Py.str)
        (d o t ph : float)
        (wr : nat -> SerialManager.write_outcome)
        (wr' : SerialManager.write_outcome) (m : SerialManager.t) :
  SerialManager.is_connected m = true ->
  (List.length pre < PlanetTable.MAX_PLANETS)%nat ->
  PlanetTable.get_planet_rows pre = inr ps ->
  PlanetTable.name_item rw = Some text ->
  Py.strip text <> [] ->
  PlanetTable.cell_float (PlanetTable.dip_item rw) = Some d ->
  PlanetTable.cell_float (PlanetTable.orbit_item rw) = Some o ->
  PlanetTable.cell_float (PlanetTable.transit_item rw) = Some t ->
  PlanetTable.cell_float (PlanetTable.phase_item rw) = Some ph ->
  is_infinity ph = true ->
  PlanetTable.get_planet_rows (pre ++ rw :: rest)
  = inl PlanetTable.OverflowError
  /\ MainWindow.send_planets (pre ++ rw :: rest) wr m
     = (MainWindow.Unhandled PlanetTable.OverflowError, [])
  /\ MainWindow.send_planet_count (pre ++ rw :: rest) wr' m
     = (MainWindow.Returned [MainWindow.Critical_send_error], []).
Proof.
  intros Hc Hlen Hpre Hname Hstrip Hd Ho Ht Hph Hinf.
  assert (Hrows : PlanetTable.get_planet_rows (pre ++ rw :: rest)
                  = inl PlanetTable.OverflowError).
  { unfold PlanetTable.get_planet_rows in *.
    rewrite firstn_all2 in Hpre by lia.
    rewrite firstn_app.
    rewrite (firstn_all2 (n := PlanetTable.MAX_PLANETS) pre) by lia.
    destruct (PlanetTable.MAX_PLANETS - List.length pre)%nat as [|k] eqn:Hk;
      [lia|].
    cbn [firstn]. rewrite (@rows_from_app pre O ps _ Hpre).
    cbn [PlanetTable.rows_from]. unfold PlanetTable.check_row.
    rewrite Hname, Hd, Ho, Ht, Hph.
    destruct (Py.strip text) as [|c nm]; [congruence|].
    unfold PlanetTable.int_of_float.
    destruct (@is_infinity_spec _ Hinf) as [s ->]. reflexivity. }
  split; [exact Hrows|].
  unfold MainWindow.send_planets, MainWindow.send_planet_count.
  rewrite Hc, Hrows. split; reflexivity.
Qed.

Lemma infinite_phase_escapes_send_planets_example :
  let pre := [Spec.table_row "b" "0.1" "10.0" "2.0" "0";
              Spec.table_row "" "" "" "" ""] in
  let rw := Spec.table_row "c" "0.1" "10.0" "2.0" "1e999" in
  PlanetTable.get_planet_rows (pre ++ rw :: [])
  = inl PlanetTable.OverflowError
  /\ MainWindow.send_planets (pre ++ rw :: [])
       (fun _ => SerialManager.Written) Spec.connected_manager
     = (MainWindow.Unhandled PlanetTable.OverflowError, [])
  /\ MainWindow.send_planet_count (pre ++ rw :: [])
       SerialManager.Written Spec.connected_manager
     = (MainWindow.Returned [MainWindow.Critical_send_error], []).
Proof.
  intros pre rw.
  eapply (@infinite_phase_escapes_send_planets pre [] rw _ (Py.u "c")
            _ _ _ infinity).
  - reflexivity.
  - cbn. unfold PlanetTable.MAX_PLANETS. lia.
  - vm_compute. reflexivity.
  - reflexivity.
  - vm_compute. discriminate.
  - vm_compute. reflexivity.
  - vm_compute. reflexivity.
  - vm_compute. reflexivity.
  - vm_compute. reflexivity.
  - reflexivity.
Defined.

Section DipField.

Import Py PlanetTable SerialManager MainWindow Spec.

Lemma all_below_iter (P : N -> bool) (k : N) :
  fst (N.iter k (fun st => (N.succ (fst st), snd st && P (fst st))%bool)
              (0%N, true)) = k
  /\ (all_below P k = true -> forall n, (n < k)%N -> P n = true).
Proof.
  unfold all_below. induction k as [|k [IHf IHs]] using N.peano_ind.
  - split; [reflexivity|]. intros _ n Hn. lia.
  - rewrite N.iter_succ. cbn [fst snd]. rewrite IHf.
    split; [reflexivity|]. intros H n Hn.
    apply andb_prop in H. destruct H as [Hk HP].
    destruct (N.eq_dec n k) as [->|Hne]; [exact HP|].
    apply IHs; [exact Hk|lia].
Qed.

Lemma pad6_shape (n : N) : (n < 1000000)%N -> dip_fraction_ok n = true.
Proof.
  apply (all_below_iter Spec.dip_fraction_ok 1000000). vm_compute. reflexivity.
Qed.

End DipField.

Section DipRange.

Import Py PlanetTable SerialManager MainWindow Spec.

Lemma digits2_pos_bound (m : positive) :
  (Zpos m < 2 ^ Zpos (digits2_pos m))%Z.
Proof.
  induction m as [m IH|m IH|]; cbn [digits2_pos].
  - rewrite Pos2Z.inj_succ, Z.pow_succ_r by lia. lia.
  - rewrite Pos2Z.inj_succ, Z.pow_succ_r by lia. lia.
  - reflexivity.
Qed.

Lemma Prim2SF_zero : Prim2SF 0 = S754_zero false.
Proof. vm_compute. reflexivity. Qed.

Lemma Prim2SF_one : Prim2SF 1 = S754_finite false 4503599627370496 (-52).
Proof. vm_compute. reflexivity. Qed.

Lemma pow2_52 : Z.pow_pos 2 52 = 4503599627370496%Z.
Proof. vm_compute. reflexivity. Qed.

Lemma pow2_53 : (2 ^ 53 = 9007199254740992)%Z.
Proof. vm_compute. reflexivity. Qed.

(** A binary64 mantissa is below [2^53]. *)
Lemma mantissa_bound (d : float) (s : bool) (m : positive) (e : Z) :
  Prim2SF d = S754_finite s m e -> (Zpos m < 2 ^ 53)%Z.
Proof.
  intros E. pose proof (Prim2SF_valid d) as Hv. rewrite E in Hv.
  cbn [SpecFloat.valid_binary] in Hv. unfold bounded in Hv.
  apply andb_prop in Hv. destruct Hv as [Hc _].
  unfold canonical_mantissa, fexp, SpecFloat.emin, prec, emax in Hc.
  apply Z.eqb_eq in Hc.
  eapply Z.lt_le_trans; [apply digits2_pos_bound|].
  apply Z.pow_le_mono_r; lia.
Qed.

Lemma mantissa_le_one (m : positive) :
  match Pos.compare_cont Eq m 4503599627370496 with
  | Gt => false
  | _ => true
  end = true ->
  (Zpos m <= Z.pow_pos 2 52)%Z.
Proof.
  intros H. rewrite pow2_52. apply Pos2Z.pos_le_pos.
  unfold Pos.le, Pos.compare. intros E. rewrite E in H. discriminate H.
Qed.

Lemma small_exponent (m : positive) (e : Z) :
  (Zpos m < 2 ^ 53)%Z -> (e < -52)%Z ->
  exists pe, e = Zneg pe /\ (Zpos m <= Z.pow_pos 2 pe)%Z.
Proof.
  intros Hm53 He. destruct e as [|pe|pe]; try (clear - He; lia).
  exists pe. split; [reflexivity|].
  rewrite Z.pow_pos_fold.
  apply Z.le_trans with (2 ^ 53)%Z.
  - apply Z.lt_le_incl. exact Hm53.
  - apply Z.pow_le_mono_r; clear - He; lia.
Qed.

(** A float between 0 and 1 is a zero or [m * 2^e] with [e < 0] and
    [m <= 2^(-e)]. *)
Lemma unit_range (d : float) :
  (0 <=? d)%float = true -> (d <=? 1)%float = true ->
  (exists s, Prim2SF d = S754_zero s)
  \/ exists m pe, Prim2SF d = S754_finite false m (Zneg pe)
                  /\ (Zpos m <= Z.pow_pos 2 pe)%Z.
Proof.
  rewrite !leb_spec, Prim2SF_zero, Prim2SF_one.
  destruct (Prim2SF d) as [s|s| |s m e] eqn:E.
  - intros _ _. left. exists s. reflexivity.
  - destruct s; discriminate.
  - discriminate.
  - pose proof (@mantissa_bound _ _ _ _ E) as Hm53.
    unfold SFleb. cbn [SFcompare].
    destruct s; [discriminate|]. intros _.
    destruct (Z.compare_spec e (-52)) as [He|He|He].
    + intros H. right. subst e. exists m, 52%positive.
      split; [reflexivity|]. exact (@mantissa_le_one m H).
    + intros _. right.
      destruct (@small_exponent m e Hm53 He) as (pe & -> & Hle).
      exists m, pe. split; [reflexivity|exact Hle].
    + discriminate.
Qed.

Lemma round_half_even_unit (m pe : positive) :
  (Zpos m <= Z.pow_pos 2 pe)%Z ->
  (round_half_even (m * 1000000) (Zneg pe) <= 1000000)%N.
Proof.
  intros Hm. unfold round_half_even.
  set (den := Z.pow_pos 2 pe) in *.
  assert (Hden : (0 < den)%Z).
  { unfold den. rewrite Z.pow_pos_fold. apply Z.pow_pos_nonneg; lia. }
  rewrite Pos2Z.inj_mul.
  pose proof (Z.div_mod (Zpos m * 1000000) den ltac:(lia)) as Hdm.
  pose proof (Z.mod_pos_bound (Zpos m * 1000000) den Hden) as Hr.
  set (q := (Zpos m * 1000000 / den)%Z) in *.
  set (r := (Zpos m * 1000000 mod den)%Z) in *.
  assert (Hq0 : (0 <= q)%Z) by (unfold q; apply Z.div_pos; lia).
  assert (Hq : (q <= 1000000)%Z) by nia.
  assert (Hq1 : (q = 1000000 -> r = 0)%Z) by nia.
  destruct (2 * r <? den)%Z eqn:E1; [lia|].
  apply Z.ltb_ge in E1.
  assert (q < 1000000)%Z by lia.
  destruct (den <? 2 * r)%Z; [lia|]. destruct (Z.even q); lia.
Qed.

End DipRange.

(** The dip field of a planet command has a fixed shape: [get_planet_rows]
    accepts a dip between 0 and 1 only, and [{dip:.6f}] then writes one
    digit, the point and six digits: [1.000000], or [0.] and six digits.
    The one exception is a dip cell reading as minus zero ([-0], [-0.0],
    ...), which passes the check [0.0 <= dip] and is written as
    [-0.000000]. *)
Theorem planet_dip_field
        (table : list PlanetTable.row) (planets : list PlanetTable.planet)
        (p : PlanetTable.planet) :
  PlanetTable.get_planet_rows table = inr planets ->
  In p planets ->
  MainWindow.format_f6 (PlanetTable.dip p) = Py.u "-0.000000"
  \/ MainWindow.format_f6 (PlanetTable.dip p) = Py.u "1.000000"
  \/ exists frac,
      MainWindow.format_f6 (PlanetTable.dip p)
      = 0x30%N :: Py.DOT :: frac
      /\ List.length frac = 6%nat
      /\ forallb Py.isdigit frac = true.
Proof.
  intros Hrows Hin. unfold PlanetTable.get_planet_rows in Hrows.
  destruct (@rows_from_checked _ _ _ Hrows) as [Hf _].
  rewrite Forall_forall in Hf.
  destruct (Hf p Hin) as (_ & _ & Hd0 & Hd1 & _).
  unfold MainWindow.format_f6.
  destruct (@unit_range (PlanetTable.dip p) Hd0 Hd1) as [[s ->]|(m & pe & -> & Hm)].
  - destruct s; [left; reflexivity|].
    right. right. exists (Py.u "000000"). repeat split.
  - pose proof (@round_half_even_unit m pe Hm) as Hs.
    set (scaled := MainWindow.round_half_even (m * 1000000) (Z.neg pe)) in *.
    destruct (N.eq_dec scaled 1000000) as [->|Hne].
    + right. left. reflexivity.
    + right. right.
      assert (Hlt : (scaled < 1000000)%N) by lia.
      rewrite (N.div_small _ _ Hlt), (N.mod_small _ _ Hlt).
      pose proof (@pad6_shape scaled Hlt) as Hok. unfold Spec.dip_fraction_ok in Hok.
      apply andb_prop in Hok. destruct Hok as [Hl Hdig].
      apply Nat.eqb_eq in Hl.
      exists (MainWindow.pad6 scaled). repeat split; assumption.
Qed.

Lemma planet_dip_field_example :
  let table := [Spec.table_row "b" "0.9999996" "10.0" "2.0" "0";
                Spec.table_row "c" "-0" "10.0" "2.0" "0";
                Spec.table_row "d" "1e-7" "10.0" "2.0" "0"] in
  exists planets,
    PlanetTable.get_planet_rows table = inr planets
    /\ map (fun p => MainWindow.format_f6 (PlanetTable.dip p)) planets
       = [Py.u "1.000000"; Py.u "-0.000000"; Py.u "0.000000"]
    /\ forall p, In p planets ->
         MainWindow.format_f6 (PlanetTable.dip p) = Py.u "-0.000000"
         \/ MainWindow.format_f6 (PlanetTable.dip p) = Py.u "1.000000"
         \/ exists frac,
             MainWindow.format_f6 (PlanetTable.dip p)
             = 0x30%N :: Py.DOT :: frac
             /\ List.length frac = 6%nat
             /\ forallb Py.isdigit frac = true.
Proof.
  intros table. eexists. split; [vm_compute; reflexivity|].
  split; [reflexivity|]. intros p.
  apply planet_dip_field with (table := table). vm_compute. reflexivity.
Defined.

(** ** The classifier as a whole *)

Section LongestNumber.

Import Py MainWindow Spec.

(** Every text that starts with a digit starts with a longest decimal. *)
Lemma longest_number (d : N) (t : str) :
  isdigit d = true ->
  exists ip fp rest,
    d :: t = number_text ip fp ++ rest
    /\ ip <> [] /\ all_digits ip = true /\ all_digits fp = true
    /\ number_ends fp rest = true.
Proof.
  intros Hd. destruct (digits_span_shape d t Hd) as [E Hip].
  destruct (span_decompose isdigit t) as [_ [_ Hr1]].
  set (a := d :: fst (span isdigit t)) in *.
  destruct (snd (span isdigit t)) as [|c r] eqn:Er.
  - exists a, [], []. unfold number_text. rewrite !app_nil_r in *.
    repeat split; [exact E|discriminate|exact Hip].
  - destruct ((c =? DOT)%N && match r with d2 :: _ => isdigit d2 | [] => false end)
      eqn:Ef.
    + apply andb_prop in Ef. destruct Ef as [Hc Hd2].
      apply N.eqb_eq in Hc. subst c.
      destruct r as [|d2 r']; [discriminate Hd2|].
      destruct (digits_span_shape d2 r' Hd2) as [E2 Hfp].
      destruct (span_decompose isdigit r') as [_ [_ Hr2]].
      exists a, (d2 :: fst (span isdigit r')), (snd (span isdigit r')).
      split; [|split; [discriminate|split; [exact Hip|split; [exact Hfp|]]]].
      * unfold number_text. rewrite E, E2, <- !app_assoc. reflexivity.
      * unfold number_ends, no_digit_ahead.
        destruct (snd (span isdigit r')) as [|c2 r2]; [reflexivity|].
        rewrite Hr2. reflexivity.
    + exists a, [], (c :: r). unfold number_text. rewrite app_nil_r.
      split; [exact E|]. split; [discriminate|]. split; [exact Hip|].
      split; [reflexivity|].
      unfold number_ends, no_digit_ahead, no_fraction_ahead. rewrite Hr1.
      destruct r as [|d2 r']; [reflexivity|]. rewrite Ef. reflexivity.
Qed.

(** A line of the [Total] form matches the pattern, on its longest
    decimal. *)
Lemma total_form_longest (line : str) :
  total_form line ->
  exists word ws1 ws2 ip fp rest,
    line = word ++ ws1 ++ COLON :: ws2 ++ number_text ip fp ++ rest
    /\ is_total_word word = true
    /\ all_space ws1 = true /\ all_space ws2 = true
    /\ ip <> [] /\ all_digits ip = true /\ all_digits fp = true
    /\ number_ends fp rest = true.
Proof.
  intros (word & ws1 & ws2 & ip & fp & rest & -> & Hw & H1 & H2 & Hne & Hip
          & Hfp).
  destruct (@number_text_head ip fp rest Hne Hip) as (d & t & Et & Hd).
  destruct (longest_number d t Hd) as (ip' & fp' & rest' & E & Hne' & Hip'
                                       & Hfp' & Hend).
  exists word, ws1, ws2, ip', fp', rest'. rewrite Et, E.
  repeat split; assumption.
Qed.

Lemma total_form_match (line : str) :
  total_form line <-> total_match line <> None.
Proof.
  split.
  - intros H. destruct (total_form_longest H)
      as (word & ws1 & ws2 & ip & fp & rest & -> & Hw & H1 & H2 & Hne & Hip
          & Hfp & Hend).
    rewrite total_match_number by assumption. discriminate.
  - destruct (total_match line) as [g|] eqn:Hm; [|congruence]. intros _.
    destruct (@total_match_inv line g Hm)
      as (word & ws1 & ws2 & ip & fp & rest & H).
    exists word, ws1, ws2, ip, fp, rest. tauto.
Qed.

End LongestNumber.

(** C10. A line that begins with [Total] in any letter case, blanks, a
    colon, blanks and an unsigned decimal is a sample whatever follows:
    the pattern matches, [float()] converts the group, and
    [on_serial_line] hands the value to [append_data_point] without
    logging.  When what follows does not continue the number (no further
    digit, no point and digit after an integer), the value is that of the
    number. *)
Theorem C10_total_ignores_trailing_text
        (clock now : float) (w : MainWindow.t)
        (word ws1 ws2 ip fp rest : Py.str) :
  Spec.is_total_word word = true ->
  Spec.all_space ws1 = true -> Spec.all_space ws2 = true ->
  ip <> [] -> Spec.all_digits ip = true -> Spec.all_digits fp = true ->
  let line :=
    word ++ ws1 ++ Py.COLON :: ws2 ++ Spec.number_text ip fp ++ rest in
  (exists g value,
      MainWindow.total_match line = Some g
      /\ Py.float_of_str g = Some value
      /\ Spec.classify line now = Spec.Sample value now
      /\ MainWindow.on_serial_line clock line w
         = MainWindow.append_data_point clock value w)
  /\ (Spec.number_ends fp rest = true ->
      MainWindow.total_match line = Some (Spec.number_text ip fp)
      /\ Spec.classify line now
         = Spec.Sample (Spec.decimal_value false ip fp) now
      /\ MainWindow.on_serial_line clock line w
         = MainWindow.append_data_point clock
             (Spec.decimal_value false ip fp) w).
Proof.
  intros Hw H1 H2 Hne Hip Hfp line. split.
  - assert (Hf : Spec.total_form line).
    { exists word, ws1, ws2, ip, fp, rest. repeat split; assumption. }
    apply total_form_match in Hf.
    destruct (MainWindow.total_match line) as [g|] eqn:Hm; [|congruence].
    destruct (@total_match_value line g Hm)
      as (ip' & fp' & _ & _ & _ & _ & Hg & Hv).
    exists g, (Spec.decimal_value false ip' fp').
    split; [reflexivity|]. split; [exact Hg|].
    unfold Spec.classify, MainWindow.on_serial_line. rewrite Hv.
    split; reflexivity.
  - intros Hend. unfold line, Spec.classify, MainWindow.on_serial_line.
    rewrite total_match_number, line_value_total by assumption.
    repeat split.
Qed.

Lemma C10_total_with_units :
  let line := Py.u "Total: 1.5 units" in
  (exists g value,
      MainWindow.total_match line = Some g
      /\ Py.float_of_str g = Some value
      /\ Spec.classify line 2.0%float = Spec.Sample value 2.0%float
      /\ MainWindow.on_serial_line 2.0%float line (MainWindow.init 0.0%float)
         = MainWindow.append_data_point 2.0%float value
             (MainWindow.init 0.0%float))
  /\ (Spec.number_ends (Py.u "5") (Py.u " units") = true ->
      MainWindow.total_match line = Some (Py.u "1.5")
      /\ Spec.classify line 2.0%float = Spec.Sample 1.5%float 2.0%float
      /\ MainWindow.on_serial_line 2.0%float line (MainWindow.init 0.0%float)
         = MainWindow.append_data_point 2.0%float 1.5%float
             (MainWindow.init 0.0%float)).
Proof.
  apply (@C10_total_ignores_trailing_text 2.0%float 2.0%float
           (MainWindow.init 0.0%float)
           (Py.u "Total") [] (Py.u " ") (Py.u "1") (Py.u "5")
           (Py.u " units")); try reflexivity.
  discriminate.
Defined.



